(** * The in-memory conversation session store (ConversationManager)

    A shallow embedding of the [ConversationManager] class of the WhatsApp
    agent (session-manager, with the records of [types.ts]) and the proofs of
    its lifecycle properties.

    Modelling choices, each following the TypeScript source:
    - a [Date] is its millisecond timestamp, an integer ([Z]);
    - the JavaScript [Map] [activeSessions] is an association list in
      insertion order: [Map.set] on a stored key replaces the value where it
      stands, on a new key it appends; the [for ... of] loops walk that order;
    - a session object is stored under exactly one key and the store never
      installs a caller's object in the map, so the object is kept by value in
      its map entry and "mutating the object" rewrites the entry in place;
    - [conversationHistory] is an array, and [Object.assign] copies the
      REFERENCE to it: histories live in a heap of arrays and a session holds
      an index into that heap, so that two sessions can share one array;
    - [sessionTimeouts] maps a session id to its armed timer, kept as the
      deadline of the timer; a timer that fires runs [endSession];
    - every reading of the clock is an argument of the operation that takes
      it ([createSession] reads the clock three times);
    - [console.log] is not modelled. *)

From Stdlib Require Import Ascii.
From Stdlib Require QArith_base.
From stdpp Require Import gmap strings list pretty.

Local Open Scope Z_scope.

(** ** Records of types.ts *)

Inductive Role := user | assistant.

Record Message := {
  role : Role;
  content : string;
  timestamp : Z;
  messageId : option string
}.

Inductive TrialStatus := prospect | trial | paid | expired.

Record BusinessContext := {
  name : option string;
  industry : option string;
  trialStatus : TrialStatus;
  signupDate : option Z;
  lastPayment : option Z
}.

Inductive Agent := lexi.

(** [conversationHistory] is a reference into the heap of arrays. *)
Record ConversationSession := {
  sessionId : string;
  phoneNumber : string;
  agent : Agent;
  conversationHistory : nat;
  businessContext : BusinessContext;
  lastActivity : Z;
  startTime : Z;
  isActive : bool
}.

(** [Partial<ConversationSession>]: every field may be absent. *)
Record PartialSession := {
  p_sessionId : option string;
  p_phoneNumber : option string;
  p_agent : option Agent;
  p_conversationHistory : option nat;
  p_businessContext : option BusinessContext;
  p_lastActivity : option Z;
  p_startTime : option Z;
  p_isActive : option bool
}.

Definition no_updates : PartialSession :=
  {| p_sessionId := None; p_phoneNumber := None; p_agent := None;
     p_conversationHistory := None; p_businessContext := None;
     p_lastActivity := None; p_startTime := None; p_isActive := None |}.

#[global] Instance Role_eq_dec : EqDecision Role.
Proof. solve_decision. Defined.
#[global] Instance TrialStatus_eq_dec : EqDecision TrialStatus.
Proof. solve_decision. Defined.
#[global] Instance Agent_eq_dec : EqDecision Agent.
Proof. solve_decision. Defined.
#[global] Instance Message_eq_dec : EqDecision Message.
Proof. solve_decision. Defined.
#[global] Instance BusinessContext_eq_dec : EqDecision BusinessContext.
Proof. solve_decision. Defined.
#[global] Instance ConversationSession_eq_dec : EqDecision ConversationSession.
Proof. solve_decision. Defined.

(** Field assignments [session.lastActivity = d] and [session.isActive = b]. *)
Definition set_lastActivity (d : Z) (s : ConversationSession) : ConversationSession :=
  {| sessionId := sessionId s; phoneNumber := phoneNumber s; agent := agent s;
     conversationHistory := conversationHistory s;
     businessContext := businessContext s;
     lastActivity := d; startTime := startTime s; isActive := isActive s |}.

Definition set_isActive (b : bool) (s : ConversationSession) : ConversationSession :=
  {| sessionId := sessionId s; phoneNumber := phoneNumber s; agent := agent s;
     conversationHistory := conversationHistory s;
     businessContext := businessContext s;
     lastActivity := lastActivity s; startTime := startTime s; isActive := b |}.

(** [Object.assign(session, updates)]: every field present in [updates]
    overwrites the field of the session, the others stay. *)
Definition object_assign (s : ConversationSession) (u : PartialSession)
  : ConversationSession :=
  {| sessionId := default (sessionId s) (p_sessionId u);
     phoneNumber := default (phoneNumber s) (p_phoneNumber u);
     agent := default (agent s) (p_agent u);
     conversationHistory := default (conversationHistory s) (p_conversationHistory u);
     businessContext := default (businessContext s) (p_businessContext u);
     lastActivity := default (lastActivity s) (p_lastActivity u);
     startTime := default (startTime s) (p_startTime u);
     isActive := default (isActive s) (p_isActive u) |}.

(** ** The JavaScript Map, in insertion order *)

Section JsMap.
Context {V : Type}.

Fixpoint jsmap_get (k : string) (m : list (string * V)) : option V :=
  match m with
  | [] => None
  | (k', v) :: m' => if decide (k' = k) then Some v else jsmap_get k m'
  end.

Fixpoint jsmap_set (k : string) (v : V) (m : list (string * V))
  : list (string * V) :=
  match m with
  | [] => [(k, v)]
  | (k', v') :: m' =>
      if decide (k' = k) then (k, v) :: m' else (k', v') :: jsmap_set k v m'
  end.

(** In-place mutation of the object stored under [k]. *)
Fixpoint jsmap_mutate (f : V → V) (k : string) (m : list (string * V))
  : list (string * V) :=
  match m with
  | [] => []
  | (k', v) :: m' =>
      if decide (k' = k) then (k', f v) :: m' else (k', v) :: jsmap_mutate f k m'
  end.

Definition jsmap_keys (m : list (string * V)) : list string := m.*1.
Definition jsmap_values (m : list (string * V)) : list V := m.*2.
End JsMap.

(** ** The store *)

Definition SESSION_TIMEOUT : Z := 30 * 60 * 1000.
Definition CLEANUP_INTERVAL : Z := 5 * 60 * 1000.

Record Store := {
  activeSessions : list (string * ConversationSession);
  sessionTimeouts : gmap string Z;
  heap : list (list Message)
}.

Definition empty_store : Store :=
  {| activeSessions := []; sessionTimeouts := ∅; heap := [] |}.

Definition with_sessions (m : list (string * ConversationSession)) (st : Store) : Store :=
  {| activeSessions := m; sessionTimeouts := sessionTimeouts st; heap := heap st |}.

Definition with_timeouts (t : gmap string Z) (st : Store) : Store :=
  {| activeSessions := activeSessions st; sessionTimeouts := t; heap := heap st |}.

Definition with_heap (h : list (list Message)) (st : Store) : Store :=
  {| activeSessions := activeSessions st; sessionTimeouts := sessionTimeouts st;
     heap := h |}.

(** The array a session's [conversationHistory] points to. *)
Definition history (st : Store) (s : ConversationSession) : list Message :=
  default [] (heap st !! conversationHistory s).

(** The history of the session stored under an id, when there is one. *)
Definition stored_history (k : string) (st : Store) : option (list Message) :=
  session ← jsmap_get k (activeSessions st);
  heap st !! conversationHistory session.

(** *** Timers *)

Definition clearSessionTimeout (sessionId : string) (st : Store) : Store :=
  match sessionTimeouts st !! sessionId with
  | Some _ => with_timeouts (delete sessionId (sessionTimeouts st)) st
  | None => st
  end.

Definition setSessionTimeout (sessionId : string) (now : Z) (st : Store) : Store :=
  let st1 := clearSessionTimeout sessionId st in
  with_timeouts (<[sessionId := now + SESSION_TIMEOUT]> (sessionTimeouts st1)) st1.

Definition resetSessionTimeout (sessionId : string) (now : Z) (st : Store) : Store :=
  setSessionTimeout sessionId now st.

(** *** Operations *)

(** The template string [`whatsapp_${phoneNumber}_${Date.now()}`]. *)
Definition makeSessionId (phoneNumber : string) (now : Z) : string :=
  "whatsapp_" +:+ phoneNumber +:+ "_" +:+ pretty now.

(** [createSession]: [t_id] is the reading of [Date.now()] for the id,
    [t_last] and [t_start] those of the two [new Date()]. The array literal
    [[]] is a new array at the end of the heap. *)
Definition createSession (phone : string) (t_id t_last t_start : Z) (st : Store)
  : ConversationSession * Store :=
  let sessionId := makeSessionId phone t_id in
  let session :=
    {| sessionId := sessionId;
       phoneNumber := phone;
       agent := lexi;
       conversationHistory := length (heap st);
       businessContext :=
         {| name := None; industry := None; trialStatus := prospect;
            signupDate := None; lastPayment := None |};
       lastActivity := t_last;
       startTime := t_start;
       isActive := true |} in
  let st1 := with_heap (heap st ++ [[]]) st in
  let st2 := with_sessions (jsmap_set sessionId session (activeSessions st1)) st1 in
  (session, setSessionTimeout sessionId t_start st2).

(** The loop of [getSession]: the first entry, in insertion order, whose
    session has the phone number and is active; its [lastActivity] is
    refreshed where it stands. *)
Fixpoint getSession_loop (phone : string) (now : Z)
    (entries : list (string * ConversationSession))
  : option (string * ConversationSession) * list (string * ConversationSession) :=
  match entries with
  | [] => (None, [])
  | (sessionId, session) :: rest =>
      if bool_decide (phoneNumber session = phone) && isActive session then
        let session' := set_lastActivity now session in
        (Some (sessionId, session'), (sessionId, session') :: rest)
      else
        let '(r, rest') := getSession_loop phone now rest in
        (r, (sessionId, session) :: rest')
  end.

Definition getSession (phone : string) (now : Z) (st : Store)
  : option ConversationSession * Store :=
  match getSession_loop phone now (activeSessions st) with
  | (Some (sessionId, session), m) =>
      (Some session, resetSessionTimeout sessionId now (with_sessions m st))
  | (None, _) => (None, st)
  end.

Definition getSessionById (sessionId : string) (now : Z) (st : Store)
  : option ConversationSession * Store :=
  match jsmap_get sessionId (activeSessions st) with
  | Some session =>
      if isActive session then
        let st1 := with_sessions
          (jsmap_mutate (set_lastActivity now) sessionId (activeSessions st)) st in
        (Some (set_lastActivity now session), resetSessionTimeout sessionId now st1)
      else (None, st)
  | None => (None, st)
  end.

Definition updateSession (sessionId : string) (updates : PartialSession) (now : Z)
    (st : Store) : bool * Store :=
  match jsmap_get sessionId (activeSessions st) with
  | None => (false, st)
  | Some _ =>
      let st1 := with_sessions
        (jsmap_mutate (λ session, set_lastActivity now (object_assign session updates))
           sessionId (activeSessions st)) st in
      (true, resetSessionTimeout sessionId now st1)
  end.

Definition addMessageToSession (sessionId : string) (message : Message) (now : Z)
    (st : Store) : bool * Store :=
  match jsmap_get sessionId (activeSessions st) with
  | None => (false, st)
  | Some session =>
      let st1 := with_heap
        (alter (λ h, h ++ [message]) (conversationHistory session) (heap st)) st in
      let st2 := with_sessions
        (jsmap_mutate (set_lastActivity now) sessionId (activeSessions st1)) st1 in
      (true, resetSessionTimeout sessionId now st2)
  end.

Definition endSession (sessionId : string) (st : Store) : bool * Store :=
  match jsmap_get sessionId (activeSessions st) with
  | None => (false, st)
  | Some _ =>
      let st1 := with_sessions
        (jsmap_mutate (set_isActive false) sessionId (activeSessions st)) st in
      (true, clearSessionTimeout sessionId st1)
  end.

Definition getActiveSessions (st : Store) : list ConversationSession :=
  filter (λ session, isActive session = true) (jsmap_values (activeSessions st)).

Definition getActiveSessionCount (st : Store) : nat :=
  length (getActiveSessions st).

(** The loop of [cleanupExpiredSessions] over the entries of the map; the
    session of each entry is read as it is when the loop reaches it. *)
Fixpoint cleanup_loop (now : Z) (keys : list string) (st : Store) (cleanedCount : nat)
  : nat * Store :=
  match keys with
  | [] => (cleanedCount, st)
  | sessionId :: rest =>
      match jsmap_get sessionId (activeSessions st) with
      | Some session =>
          if negb (isActive session)
             || bool_decide (now - lastActivity session > SESSION_TIMEOUT)
          then cleanup_loop now rest (endSession sessionId st).2 (S cleanedCount)
          else cleanup_loop now rest st cleanedCount
      | None => cleanup_loop now rest st cleanedCount
      end
  end.

Definition cleanupExpiredSessions (now : Z) (st : Store) : nat * Store :=
  cleanup_loop now (jsmap_keys (activeSessions st)) st 0.

(** *** Statistics *)

Module Stats.
Record t := {
  totalSessions : nat;
  activeSessions : nat;
  averageConversationLength : QArith_base.Q;
  sessionsByStatus : gmap string nat
}.
End Stats.

Definition trialStatus_name (s : TrialStatus) : string :=
  match s with
  | prospect => "prospect"
  | trial => "trial"
  | paid => "paid"
  | expired => "expired"
  end.

(** The average is the exact quotient; the source computes its double. *)
Definition getSessionStats (st : Store) : Stats.t :=
  let sessions := jsmap_values (activeSessions st) in
  let activeSessions := filter (λ s, isActive s = true) sessions in
  let sessionsByStatus :=
    fold_left
      (λ (acc : gmap string nat) session,
         let status := trialStatus_name (trialStatus (businessContext session)) in
         <[status := (default 0 (acc !! status) + 1)%nat]> acc)
      sessions ∅ in
  let averageConversationLength :=
    if bool_decide (0 < length activeSessions)%nat then
      QArith_base.Qmake
        (Z.of_nat (fold_left (λ sum session, (sum + length (history st session))%nat)
                     activeSessions 0%nat))
        (Pos.of_nat (length activeSessions))
    else QArith_base.Qmake 0 1 in
  {| Stats.totalSessions := length sessions;
     Stats.activeSessions := length activeSessions;
     Stats.averageConversationLength := averageConversationLength;
     Stats.sessionsByStatus := sessionsByStatus |}.

(** ** Sequences of operations

    The operations of the store, the two timer-driven callbacks (the
    [setInterval] sweep and the [setTimeout] of a session, which runs
    [endSession] once its deadline has passed), and the caller making an array
    (the only way a caller obtains a history to hand to [updateSession] other
    than the array of a stored session). The readers [getActiveSessions],
    [getActiveSessionCount] and [getSessionStats] do not change the store. *)

Inductive Op :=
  | OpCreate (phone : string) (t_id t_last t_start : Z)
  | OpGetSession (phone : string) (now : Z)
  | OpGetSessionById (sessionId : string) (now : Z)
  | OpUpdate (sessionId : string) (updates : PartialSession) (now : Z)
  | OpAddMessage (sessionId : string) (message : Message) (now : Z)
  | OpEnd (sessionId : string)
  | OpCleanup (now : Z)
  | OpTimerFires (sessionId : string) (now : Z)
  | OpNewArray (messages : list Message).

Definition timerFires (sessionId : string) (now : Z) (st : Store) : Store :=
  match sessionTimeouts st !! sessionId with
  | Some deadline =>
      if bool_decide (deadline ≤ now) then (endSession sessionId st).2 else st
  | None => st
  end.

Definition step (op : Op) (st : Store) : Store :=
  match op with
  | OpCreate phone t_id t_last t_start => (createSession phone t_id t_last t_start st).2
  | OpGetSession phone now => (getSession phone now st).2
  | OpGetSessionById sessionId now => (getSessionById sessionId now st).2
  | OpUpdate sessionId updates now => (updateSession sessionId updates now st).2
  | OpAddMessage sessionId message now => (addMessageToSession sessionId message now st).2
  | OpEnd sessionId => (endSession sessionId st).2
  | OpCleanup now => (cleanupExpiredSessions now st).2
  | OpTimerFires sessionId now => timerFires sessionId now st
  | OpNewArray messages => with_heap (heap st ++ [messages]) st
  end.

Definition run (ops : list Op) (st : Store) : Store :=
  fold_left (λ st op, step op st) ops st.

Definition reachable (st : Store) : Prop :=
  ∃ ops, st = run ops empty_store.

(** A run of [addMessageToSession] calls on one session id, each with its
    message and its clock reading; the results of the calls, in order. *)
Fixpoint addMessages (sessionId : string) (calls : list (Message * Z)) (st : Store)
  : list bool * Store :=
  match calls with
  | [] => ([], st)
  | (message, now) :: rest =>
      let '(ok, st1) := addMessageToSession sessionId message now st in
      let '(oks, st2) := addMessages sessionId rest st1 in
      (ok :: oks, st2)
  end.

(** The messages of the calls that succeeded. *)
Fixpoint appended (calls : list (Message * Z)) (oks : list bool) : list Message :=
  match calls, oks with
  | (message, _) :: calls', true :: oks' => message :: appended calls' oks'
  | _ :: calls', false :: oks' => appended calls' oks'
  | _, _ => []
  end.

(** Whether an operation is an [updateSession] whose partial-fields
    argument carries the given field. *)
Definition carries_sessionId (op : Op) : bool :=
  match op with
  | OpUpdate _ updates _ => bool_decide (is_Some (p_sessionId updates))
  | _ => false
  end.

Definition carries_conversationHistory (op : Op) : bool :=
  match op with
  | OpUpdate _ updates _ => bool_decide (is_Some (p_conversationHistory updates))
  | _ => false
  end.

(** Whether an operation is a [createSession] that generates the id [k]. *)
Definition creates (k : string) (op : Op) : bool :=
  match op with
  | OpCreate phone t_id _ _ => bool_decide (makeSessionId phone t_id = k)
  | _ => false
  end.

(** Every stored id occurs once, as in a JavaScript Map. *)
Definition keys_unique (st : Store) : Prop :=
  NoDup (jsmap_keys (activeSessions st)).

(** No active session is stored for the phone number. *)
Definition no_active_session (phone : string) (st : Store) : Prop :=
  ∀ k s, (k, s) ∈ activeSessions st → phoneNumber s = phone → isActive s = false.

(** ** Definitions used by the statements *)

(** No underscore occurs in the string. *)
Fixpoint underscore_free (s : string) : bool :=
  match s with
  | EmptyString => true
  | String c s' => negb (bool_decide (c = "_"%char)) && underscore_free s'
  end.

(** What the sweep does to one session: it is ended when it is inactive
    already or idle for longer than [SESSION_TIMEOUT]. *)
Definition swept (now : Z) (s : ConversationSession) : ConversationSession :=
  if negb (isActive s) || bool_decide (now - lastActivity s > SESSION_TIMEOUT)
  then set_isActive false s else s.

(** Two lists of entries with the same keys in the same places, the sessions
    of each place related by [R]. *)
Definition entries_rel (R : ConversationSession → ConversationSession → Prop)
    (m m' : list (string * ConversationSession)) : Prop :=
  Forall2 (λ e e', e.1 = e'.1 ∧ R e.2 e'.2) m m'.

(** The partial-fields argument of an [updateSession] satisfies [allowed]. *)
Definition op_allowed (allowed : PartialSession → Prop) (op : Op) : Prop :=
  match op with
  | OpUpdate _ updates _ => allowed updates
  | _ => True
  end.

Definition same_sessionId (s s' : ConversationSession) : Prop :=
  sessionId s' = sessionId s.

Definition without_sessionId (u : PartialSession) : Prop := p_sessionId u = None.

(** Every stored session carries the id it is stored under. *)
Definition ids_agree (st : Store) : Prop :=
  ∀ k session, jsmap_get k (activeSessions st) = Some session → sessionId session = k.

Definition same_history_array (s s' : ConversationSession) : Prop :=
  conversationHistory s' = conversationHistory s.

Definition without_conversationHistory (u : PartialSession) : Prop :=
  p_conversationHistory u = None.

(** The number of calls that succeeded. *)
Definition successes (oks : list bool) : nat :=
  length (filter (λ ok, ok = true) oks).

(** ** Concrete stores used by the examples *)

Definition hello : Message :=
  {| role := user; content := "hello"; timestamp := 1000; messageId := None |}.

Definition hi_there : Message :=
  {| role := assistant; content := "hi there"; timestamp := 1500; messageId := None |}.

Definition demo_phone : string := "+2348011111111".

(** The store after [createSession("+2348011111111")] at time 1000. *)
Definition demo_store : Store :=
  (createSession demo_phone 1000 1000 1000 empty_store).2.

Definition demo_id : string := "whatsapp_+2348011111111_1000".

(** The same store after [endSession] of its only session. *)
Definition demo_ended : Store := (endSession demo_id demo_store).2.

(** The store after the scenario of the specification: a session is
    created and two messages are appended. *)
Definition demo_calls : list (Message * Z) := [(hello, 1200); (hi_there, 1600)].

Definition demo_talked : Store := (addMessages demo_id demo_calls demo_store).2.

(** ** Definitions used by the further properties *)

(** Every active session has its expiration timer armed. *)
Definition timers_armed (st : Store) : Prop :=
  ∀ k session,
    jsmap_get k (activeSessions st) = Some session → isActive session = true →
    is_Some (sessionTimeouts st !! k).

(** Every armed timer is the timer of a stored session. *)
Definition timers_owned (st : Store) : Prop :=
  ∀ k, is_Some (sessionTimeouts st !! k) → is_Some (jsmap_get k (activeSessions st)).

(** Whether an operation is an [updateSession] whose partial-fields
    argument carries [isActive]. *)
Definition carries_isActive (op : Op) : bool :=
  match op with
  | OpUpdate _ updates _ => bool_decide (is_Some (p_isActive updates))
  | _ => false
  end.

(** What one operation does to the session [s] stored under [k], when it
    does not put a new session under [k]: [s'] is the session stored under
    [k] afterwards. *)
Definition effect_on (op : Op) (k : string) (s s' : ConversationSession) : Prop :=
  match op with
  | OpCreate _ _ _ _ | OpNewArray _ => s' = s
  | OpGetSession phone now =>
      s' = s ∨ (phoneNumber s = phone ∧ isActive s = true ∧ s' = set_lastActivity now s)
  | OpGetSessionById id now =>
      if decide (id = k) then
        if isActive s then s' = set_lastActivity now s else s' = s
      else s' = s
  | OpUpdate id updates now =>
      if decide (id = k) then s' = set_lastActivity now (object_assign s updates)
      else s' = s
  | OpAddMessage id _ now =>
      if decide (id = k) then s' = set_lastActivity now s else s' = s
  | OpEnd id => if decide (id = k) then s' = set_isActive false s else s' = s
  | OpCleanup _ => s' = s ∨ s' = set_isActive false s
  | OpTimerFires id _ =>
      if decide (id = k) then s' = s ∨ s' = set_isActive false s else s' = s
  end.

(** The clock reading an operation writes to [lastActivity] when it
    touches a stored session. *)
Definition op_reading (op : Op) : option Z :=
  match op with
  | OpGetSession _ now | OpGetSessionById _ now | OpUpdate _ _ now
  | OpAddMessage _ _ now => Some now
  | _ => None
  end.

(** The readings of a run never go backwards, starting from [t]. *)
Fixpoint clock_monotone (t : Z) (ops : list Op) : Prop :=
  match ops with
  | [] => True
  | op :: ops' =>
      match op_reading op with
      | Some now => t ≤ now ∧ clock_monotone now ops'
      | None => clock_monotone t ops'
      end
  end.

(** The test of the sweep on one session. *)
Definition sweep_due (now : Z) (s : ConversationSession) : bool :=
  negb (isActive s) || bool_decide (now - lastActivity s > SESSION_TIMEOUT).

(** The number of sessions with a trial status. *)
Definition count_status (status : TrialStatus) (sessions : list ConversationSession)
  : nat :=
  length (filter (λ s, trialStatus (businessContext s) = status) sessions).

(** The number of active sessions among the entries. *)
Definition active_count (m : list (string * ConversationSession)) : nat :=
  length (filter (λ s, isActive s = true) (jsmap_values m)).

(** ** The webhook handler

    The [POST] handler of the WhatsApp webhook, as far as it drives the
    session store. It runs in two synchronous parts around the awaited call of
    the agent: [webhook_receive] (find or create the session of the sender,
    append the user message) and [webhook_reply] (append the reply of the
    agent, which is an input here). Other handlers, timers and sweeps can run
    between the two. *)

(** [s] without the prefix [p], when [s] starts with [p]. *)
Fixpoint strip_prefix (p s : string) : option string :=
  match p, s with
  | EmptyString, _ => Some s
  | String _ _, EmptyString => None
  | String c p', String d s' => if decide (c = d) then strip_prefix p' s' else None
  end.

(** [s.replace(pattern, replacement)] for a string pattern: the first
    occurrence is replaced. *)
Fixpoint replace_first (pattern replacement s : string) : string :=
  match strip_prefix pattern s with
  | Some rest => replacement +:+ rest
  | None =>
      match s with
      | EmptyString => EmptyString
      | String c s' => String c (replace_first pattern replacement s')
      end
  end.

(** [s.includes(pattern)]. *)
Fixpoint includes (s pattern : string) : bool :=
  match strip_prefix pattern s with
  | Some _ => true
  | None =>
      match s with
      | EmptyString => false
      | String _ s' => includes s' pattern
      end
  end.

Definition extractPhoneNumber (from : string) : string :=
  replace_first "whatsapp:" "" from.

Record TwilioWebhookPayload := {
  MessageSid : string;
  AccountSid : string;
  From : string;
  To : string;
  Body : string;
  NumMedia : string;
  MediaUrl0 : option string;
  MediaContentType0 : option string
}.

(** The readings of the clock in the first part of the handler: by
    [getSession], by [createSession] (three), for the timestamp of the user
    message and by [addMessageToSession]. *)
Record ReceiveClock := {
  at_lookup : Z;
  at_id : Z;
  at_last : Z;
  at_start : Z;
  at_message : Z;
  at_append : Z
}.

Definition userMessage (payload : TwilioWebhookPayload) (clock : ReceiveClock) : Message :=
  {| role := user; content := Body payload; timestamp := at_message clock;
     messageId := Some (MessageSid payload) |}.

Definition assistantMessage (aiResponse : string) (t_message : Z) : Message :=
  {| role := assistant; content := aiResponse; timestamp := t_message;
     messageId := None |}.

(** Up to the call of the agent: the session of the sender and the store. *)
Definition webhook_receive (payload : TwilioWebhookPayload) (clock : ReceiveClock)
    (st : Store) : ConversationSession * Store :=
  let phoneNumber := extractPhoneNumber (From payload) in
  let '(found, st1) := getSession phoneNumber (at_lookup clock) st in
  let '(session, st2) :=
    match found with
    | Some session => (session, st1)
    | None =>
        createSession phoneNumber (at_id clock) (at_last clock) (at_start clock) st1
    end in
  let '(_, st3) :=
    addMessageToSession (sessionId session) (userMessage payload clock)
      (at_append clock) st2 in
  (session, st3).

(** After the call of the agent: [sessionId] is [session.sessionId] of the
    session found or created above. *)
Definition webhook_reply (sessionId : string) (aiResponse : string)
    (t_message t_append : Z) (st : Store) : Store :=
  (addMessageToSession sessionId (assistantMessage aiResponse t_message) t_append st).2.

(** What happens to the store of the running application: the two parts of
    the webhook handler, the sweep and the timers. The handlers that only
    read ([GET] of the webhook, the dashboard) are left out. *)
Inductive AppEvent :=
  | EvReceive (payload : TwilioWebhookPayload) (clock : ReceiveClock)
  | EvReply (sessionId : string) (aiResponse : string) (t_message t_append : Z)
  | EvSweep (now : Z)
  | EvTimer (sessionId : string) (now : Z).

Definition app_step (ev : AppEvent) (st : Store) : Store :=
  match ev with
  | EvReceive payload clock => (webhook_receive payload clock st).2
  | EvReply sessionId aiResponse t_message t_append =>
      webhook_reply sessionId aiResponse t_message t_append st
  | EvSweep now => (cleanupExpiredSessions now st).2
  | EvTimer sessionId now => timerFires sessionId now st
  end.

Definition app_run (events : list AppEvent) (st : Store) : Store :=
  fold_left (λ st ev, app_step ev st) events st.

(** The store operations an event of the application performs. *)
Definition app_ops (ev : AppEvent) (st : Store) : list Op :=
  match ev with
  | EvReceive payload clock =>
      let phoneNumber := extractPhoneNumber (From payload) in
      match (getSession phoneNumber (at_lookup clock) st).1 with
      | Some session =>
          [OpGetSession phoneNumber (at_lookup clock);
           OpAddMessage (sessionId session) (userMessage payload clock) (at_append clock)]
      | None =>
          [OpGetSession phoneNumber (at_lookup clock);
           OpCreate phoneNumber (at_id clock) (at_last clock) (at_start clock);
           OpAddMessage (makeSessionId phoneNumber (at_id clock))
             (userMessage payload clock) (at_append clock)]
      end
  | EvReply sessionId aiResponse t_message t_append =>
      [OpAddMessage sessionId (assistantMessage aiResponse t_message) t_append]
  | EvSweep now => [OpCleanup now]
  | EvTimer sessionId now => [OpTimerFires sessionId now]
  end.

(** The number of active sessions of a phone number among the entries. *)
Definition active_for (phone : string) (m : list (string * ConversationSession)) : nat :=
  length (filter (λ e, phoneNumber e.2 = phone ∧ isActive e.2 = true) m).

(** The history of every stored session is an array of the heap. *)
Definition histories_allocated (st : Store) : Prop :=
  ∀ k s, jsmap_get k (activeSessions st) = Some s →
         is_Some (heap st !! conversationHistory s).

(** Whether an event is a [webhook_receive] that would generate the id [k]
    if it had to create a session. *)
Definition may_create (k : string) (ev : AppEvent) : bool :=
  match ev with
  | EvReceive payload clock =>
      bool_decide (makeSessionId (extractPhoneNumber (From payload)) (at_id clock) = k)
  | _ => false
  end.

(** An operation other than [updateSession]. *)
Definition plain_op (op : Op) : Prop :=
  match op with OpUpdate _ _ _ => False | _ => True end.

(** A first message of the demo sender, as Twilio posts it, with the clock
    at 1000 throughout. *)
Definition demo_payload : TwilioWebhookPayload :=
  {| MessageSid := "SM0001"; AccountSid := "AC0001";
     From := "whatsapp:+2348011111111"; To := "whatsapp:+14155238886";
     Body := "hello"; NumMedia := "0"; MediaUrl0 := None;
     MediaContentType0 := None |}.

Definition demo_clock : ReceiveClock :=
  {| at_lookup := 1000; at_id := 1000; at_last := 1000; at_start := 1000;
     at_message := 1000; at_append := 1000 |}.

(** ** The agent (lexi.ts)

    [toLowerCase] is JavaScript's [String.prototype.toLowerCase], which the
    source calls and does not define: it is an argument of the functions that
    use it. A JavaScript string is modelled by its UTF-8 bytes, on which
    [includes] with the ASCII keywords of the source finds what it finds on the
    UTF-16 string; only where the source measures a string ([length],
    [substring]) is the string the list of its UTF-16 code units. *)

Definition keywordTriggers_business : list string :=
  ["business"; "company"; "shop"; "store"; "enterprise"; "organization"].

Definition keywordTriggers_automation : list string :=
  ["automate"; "bot"; "ai"; "automatic"; "system"; "automation"].

Definition keywordTriggers_pricing : list string :=
  ["price"; "cost"; "how much"; "pricing"; "fee"; "charge"].

Definition keywordTriggers_trial : list string :=
  ["trial"; "test"; "try"; "demo"; "free"; "sample"].

(** [keywords.some(keyword => lowerMessage.includes(keyword))]. *)
Definition some_includes (lowerMessage : string) (keywords : list string) : bool :=
  existsb (λ keyword, includes lowerMessage keyword) keywords.

Definition getFallbackResponse (toLowerCase : string → string)
    (userMessage : string) (session : ConversationSession) : string :=
  let lowerMessage := toLowerCase userMessage in
  if some_includes lowerMessage keywordTriggers_business then
    "What type of business do you run? ðŸ‡³ðŸ‡¬"
  else if some_includes lowerMessage keywordTriggers_automation then
    "Our WhatsApp automation saves â‚¦150k/month. Ready for a free trial?"
  else if some_includes lowerMessage keywordTriggers_pricing then
    "Just â‚¦15k/month vs â‚¦200k for human agents. 7-day free trial available!"
  else if some_includes lowerMessage keywordTriggers_trial then
    "Great! I need your business name to start your free 7-day trial."
  else if includes lowerMessage "hi" || includes lowerMessage "hello"
          || includes lowerMessage "hey" then
    "Hi! I'm Lexi from ODIA. What business are you in? ðŸ‡³ðŸ‡¬"
  else
    "I help Nigerian businesses automate WhatsApp. What's your business type?".

Definition detectIntent (toLowerCase : string → string) (userMessage : string) : string :=
  let lowerMessage := toLowerCase userMessage in
  if some_includes lowerMessage keywordTriggers_business then "business_inquiry"
  else if some_includes lowerMessage keywordTriggers_automation then "automation_interest"
  else if some_includes lowerMessage keywordTriggers_pricing then "pricing_inquiry"
  else if some_includes lowerMessage keywordTriggers_trial then "trial_request"
  else if includes lowerMessage "hi" || includes lowerMessage "hello"
          || includes lowerMessage "hey" then "greeting"
  else "general_inquiry".

(** [session.conversationHistory.length] reads the array of the session. *)
Definition getNextConversationStep (st : Store) (session : ConversationSession) : string :=
  let history := history st session in
  let trialStatus := trialStatus (businessContext session) in
  if decide (trialStatus = paid) then "support"
  else if decide (trialStatus = trial) then "trial_support"
  else if decide (length history = 0%nat) then "greeting"
  else if decide (length history = 2%nat) then "qualification"
  else if decide (length history = 4%nat) then "solution_presentation"
  else if decide (6 ≤ length history)%nat then "trial_offer"
  else "general".

Definition maxResponseLength : nat := 160.

(** The clamp of [processWithLexi], on the UTF-16 code units of the
    completion: [aiResponse.substring(0, maxResponseLength - 3) + '...'] when
    [aiResponse.length > maxResponseLength]. The code unit of ['.'] is 46. *)
Definition finalResponse (aiResponse : list N) : list N :=
  if decide (maxResponseLength < length aiResponse)%nat
  then take (maxResponseLength - 3) aiResponse ++ [46; 46; 46]%N
  else aiResponse.

(** ** The conversation flow manager (ConversationFlowManager) *)

Record FlowResult := {
  response : string;
  nextStep : option string;
  sessionUpdates : option PartialSession;
  shouldCreateTrial : option bool;
  shouldProcessPayment : option bool
}.

Module FlowStep.
Record t := {
  name : string;
  handler : (string → string) → ConversationSession → string → FlowResult
}.
End FlowStep.

(** A result with a response and a next step only. *)
Definition reply (response nextStep : string) : FlowResult :=
  {| response := response; nextStep := Some nextStep; sessionUpdates := None;
     shouldCreateTrial := None; shouldProcessPayment := None |}.

(** A result with a response only. *)
Definition reply_only (response : string) : FlowResult :=
  {| response := response; nextStep := None; sessionUpdates := None;
     shouldCreateTrial := None; shouldProcessPayment := None |}.

Definition handleGreeting (toLowerCase : string → string)
    (session : ConversationSession) (userMessage : string) : FlowResult :=
  reply "Hi! I'm Lexi from ODIA. What type of business do you run? 🇳🇬" "qualification".

Definition handleQualification (toLowerCase : string → string)
    (session : ConversationSession) (userMessage : string) : FlowResult :=
  let businessType := toLowerCase userMessage in
  let industry :=
    if includes businessType "restaurant" || includes businessType "food"
    then "restaurant"
    else if includes businessType "shop" || includes businessType "store"
    then "retail"
    else if includes businessType "service" then "service"
    else if includes businessType "tech" || includes businessType "software"
    then "technology"
    else "general" in
  {| response := "Perfect! WhatsApp automation saves ₦150k monthly vs human agents. How do you currently handle customer inquiries?";
     nextStep := Some "solution_presentation";
     sessionUpdates :=
       Some {| p_sessionId := None; p_phoneNumber := None; p_agent := None;
               p_conversationHistory := None;
               p_businessContext :=
                 Some {| name := name (businessContext session);
                         industry := Some industry;
                         trialStatus := trialStatus (businessContext session);
                         signupDate := signupDate (businessContext session);
                         lastPayment := lastPayment (businessContext session) |};
               p_lastActivity := None; p_startTime := None; p_isActive := None |};
     shouldCreateTrial := None; shouldProcessPayment := None |}.

Definition handleSolutionPresentation (toLowerCase : string → string)
    (session : ConversationSession) (userMessage : string) : FlowResult :=
  reply "Our AI handles inquiries 24/7, books appointments, and sends follow-ups. Ready for a free 7-day trial?"
    "trial_offer".

Definition handleTrialOffer (toLowerCase : string → string)
    (session : ConversationSession) (userMessage : string) : FlowResult :=
  let response := toLowerCase userMessage in
  if includes response "yes" || includes response "sure" || includes response "okay"
  then
    {| response := "Great! What's your business name?";
       nextStep := Some "collect_business_info"; sessionUpdates := None;
       shouldCreateTrial := Some true; shouldProcessPayment := None |}
  else if includes response "no" || includes response "not" then
    reply "No worries! What concerns do you have about automation?" "objection_handling"
  else
    reply "Would you like to try our free 7-day trial? Just say 'yes' to get started!"
      "trial_offer".

Definition handleOnboarding (toLowerCase : string → string)
    (session : ConversationSession) (userMessage : string) : FlowResult :=
  reply "Welcome to your trial! Check your email for setup instructions. Need help?"
    "support".

Definition handleTrialSupport (toLowerCase : string → string)
    (session : ConversationSession) (userMessage : string) : FlowResult :=
  reply "I'm here to help! What do you need assistance with?" "support".

Definition handleValueDemonstration (toLowerCase : string → string)
    (session : ConversationSession) (userMessage : string) : FlowResult :=
  reply "Trial users see 3x ROI in first month. Continue for just ₦15k/month?"
    "payment_link".

Definition handlePricing (toLowerCase : string → string)
    (session : ConversationSession) (userMessage : string) : FlowResult :=
  reply "Just ₦15k/month vs ₦200k for human agents. Saves you ₦185k monthly!"
    "objection_handling".

Definition handleObjectionHandling (toLowerCase : string → string)
    (session : ConversationSession) (userMessage : string) : FlowResult :=
  let response := toLowerCase userMessage in
  if includes response "expensive" || includes response "cost" then
    reply "It pays for itself in 3 days! Most clients save ₦150k+ monthly." "payment_link"
  else if includes response "difficult" || includes response "hard" then
    reply "Super easy! No tech skills needed. We handle everything for you."
      "payment_link"
  else
    reply "Try it free for 7 days. No credit card needed. What do you say?" "trial_offer".

Definition handlePaymentLink (toLowerCase : string → string)
    (session : ConversationSession) (userMessage : string) : FlowResult :=
  let response := toLowerCase userMessage in
  if includes response "yes" || includes response "sure" || includes response "okay"
  then
    {| response := "Perfect! I'll send you a payment link. What's your business email?";
       nextStep := Some "process_payment"; sessionUpdates := None;
       shouldCreateTrial := None; shouldProcessPayment := Some true |}
  else
    reply "Ready to start saving ₦185k monthly? Just say 'yes' for the payment link!"
      "payment_link".

(** [initializeFlows]: the three flows, set in this order. *)
Definition flows : list (string * list FlowStep.t) :=
  jsmap_set "paymentFlow"
    [ {| FlowStep.name := "pricing"; FlowStep.handler := handlePricing |};
      {| FlowStep.name := "objection_handling";
         FlowStep.handler := handleObjectionHandling |};
      {| FlowStep.name := "payment_link"; FlowStep.handler := handlePaymentLink |} ]
    (jsmap_set "trialUser"
       [ {| FlowStep.name := "onboarding"; FlowStep.handler := handleOnboarding |};
         {| FlowStep.name := "support"; FlowStep.handler := handleTrialSupport |};
         {| FlowStep.name := "value_demonstration";
            FlowStep.handler := handleValueDemonstration |} ]
       (jsmap_set "newProspect"
          [ {| FlowStep.name := "greeting"; FlowStep.handler := handleGreeting |};
            {| FlowStep.name := "qualification";
               FlowStep.handler := handleQualification |};
            {| FlowStep.name := "solution_presentation";
               FlowStep.handler := handleSolutionPresentation |};
            {| FlowStep.name := "trial_offer"; FlowStep.handler := handleTrialOffer |} ]
          [])).

Definition determineFlowType (session : ConversationSession) : string :=
  match trialStatus (businessContext session) with
  | prospect => "newProspect"
  | trial => "trialUser"
  | paid => "paymentFlow"
  | _ => "newProspect"
  end.

Definition determineCurrentStep (st : Store) (session : ConversationSession) : string :=
  let history := history st session in
  let trialStatus := trialStatus (businessContext session) in
  if decide (trialStatus = paid) then "support"
  else if decide (trialStatus = trial) then
    if decide (length history < 4)%nat then "onboarding" else "support"
  else if decide (length history = 0%nat) then "greeting"
  else if decide (length history = 2%nat) then "qualification"
  else if decide (length history = 4%nat) then "solution_presentation"
  else "trial_offer".

Definition processMessage (toLowerCase : string → string) (st : Store)
    (session : ConversationSession) (userMessage : string) : FlowResult :=
  let flowType := determineFlowType session in
  let currentStep := determineCurrentStep st session in
  match jsmap_get flowType flows with
  | None =>
      reply_only
        "I'm here to help with WhatsApp automation. What type of business do you run?"
  | Some flow =>
      match List.find (λ step, bool_decide (FlowStep.name step = currentStep)) flow with
      | None =>
          reply_only "Let me help you with WhatsApp automation. What's your business type?"
      | Some stepHandler => FlowStep.handler stepHandler toLowerCase session userMessage
      end
  end.

(** The industries [handleQualification] can write. *)
Definition industries : list string :=
  ["general"; "restaurant"; "retail"; "service"; "technology"].

(** The reply by keyword for an intent of [detectIntent]. *)
Definition fallback_for (intent : string) : string :=
  if decide (intent = "business_inquiry") then
    "What type of business do you run? ðŸ‡³ðŸ‡¬"
  else if decide (intent = "automation_interest") then
    "Our WhatsApp automation saves â‚¦150k/month. Ready for a free trial?"
  else if decide (intent = "pricing_inquiry") then
    "Just â‚¦15k/month vs â‚¦200k for human agents. 7-day free trial available!"
  else if decide (intent = "trial_request") then
    "Great! I need your business name to start your free 7-day trial."
  else if decide (intent = "greeting") then
    "Hi! I'm Lexi from ODIA. What business are you in? ðŸ‡³ðŸ‡¬"
  else "I help Nigerian businesses automate WhatsApp. What's your business type?".

(** Lower case of the letters A to Z: what [toLowerCase] does to an ASCII
    string, used for the examples. *)
Definition lower_ascii_char (c : ascii) : ascii :=
  let n := nat_of_ascii c in
  if decide (65 ≤ n ≤ 90)%nat then ascii_of_nat (n + 32) else c.

Fixpoint lower_ascii (s : string) : string :=
  match s with
  | EmptyString => EmptyString
  | String c s' => String (lower_ascii_char c) (lower_ascii s')
  end.

(** The session with the industry of its business context set. *)
Definition set_industry (industry : string) (s : ConversationSession)
  : ConversationSession :=
  {| sessionId := sessionId s; phoneNumber := phoneNumber s; agent := agent s;
     conversationHistory := conversationHistory s;
     businessContext :=
       {| name := name (businessContext s); industry := Some industry;
          trialStatus := trialStatus (businessContext s);
          signupDate := signupDate (businessContext s);
          lastPayment := lastPayment (businessContext s) |};
     lastActivity := lastActivity s; startTime := startTime s;
     isActive := isActive s |}.

(** The demo session with one message in its history. *)
Definition demo_one_message : Store :=
  (addMessageToSession demo_id hello 1200 demo_store).2.

(** Whether a flow has a step of a given name, as [flow.find] tests it. *)
Definition has_step (stepName : string) (flow : list FlowStep.t) : bool :=
  bool_decide (is_Some (List.find (λ step, bool_decide (FlowStep.name step = stepName)) flow)).

(** Every stored id was generated from the phone number of its session. *)
Definition ids_generated (st : Store) : Prop :=
  ∀ k s, jsmap_get k (activeSessions st) = Some s →
         ∃ t, k = makeSessionId (phoneNumber s) t.

(** An event of the webhook handler: a message received or a reply recorded. *)
Definition handler_event (ev : AppEvent) : Prop :=
  match ev with
  | EvReceive _ _ | EvReply _ _ _ _ => True
  | _ => False
  end.

(** An operation that ends no session. *)
Definition ends_nothing (op : Op) : Prop :=
  match op with
  | OpCreate _ _ _ _ | OpGetSession _ _ | OpAddMessage _ _ _ => True
  | _ => False
  end.

(** ** Lemmas on the Map model *)

Section JsMapFacts.
Context {V : Type}.
Implicit Types (k : string) (v : V) (m : list (string * V)).

Lemma jsmap_get_mutate f k k' m :
  jsmap_get k (jsmap_mutate f k' m)
  = if decide (k' = k) then f <$> jsmap_get k m else jsmap_get k m.
Proof.
  induction m as [|[k0 v0] m IH]; simpl.
  - by case_decide.
  - repeat (case_decide; simplify_eq/=); done.
Qed.

Lemma jsmap_get_mutate_eq f k m :
  jsmap_get k (jsmap_mutate f k m) = f <$> jsmap_get k m.
Proof. rewrite jsmap_get_mutate. by rewrite decide_True. Qed.

Lemma jsmap_keys_mutate f k m : jsmap_keys (jsmap_mutate f k m) = jsmap_keys m.
Proof.
  unfold jsmap_keys. induction m as [|[k0 v0] m IH]; simpl; [done|].
  case_decide; simpl; [done|]. f_equal. apply IH.
Qed.

Lemma jsmap_mutate_id f k m :
  (∀ v, jsmap_get k m = Some v → f v = v) → jsmap_mutate f k m = m.
Proof.
  induction m as [|[k0 v0] m IH]; simpl; [done|]. intros Hf.
  destruct (decide (k0 = k)) as [->|Hne].
  - by rewrite Hf.
  - by rewrite IH.
Qed.

Lemma jsmap_get_set k k' v m :
  jsmap_get k (jsmap_set k' v m)
  = if decide (k' = k) then Some v else jsmap_get k m.
Proof.
  induction m as [|[k0 v0] m IH]; simpl.
  - by case_decide.
  - repeat (case_decide; simplify_eq/=); done.
Qed.

Lemma jsmap_get_None k m : jsmap_get k m = None ↔ k ∉ jsmap_keys m.
Proof.
  unfold jsmap_keys. induction m as [|[k0 v0] m IH]; simpl.
  - split; [intros _; apply not_elem_of_nil|done].
  - rewrite not_elem_of_cons. case_decide as Hk; subst.
    + split; [done|]. intros [? _]. done.
    + rewrite IH. split; [by intros ?; split; [congruence|]|by intros [_ ?]].
Qed.

Lemma jsmap_keys_set_stored k v m :
  k ∈ jsmap_keys m → jsmap_keys (jsmap_set k v m) = jsmap_keys m.
Proof.
  unfold jsmap_keys. induction m as [|[k0 v0] m IH]; simpl.
  - intros H. by apply elem_of_nil in H.
  - intros Hin. case_decide as Hk; simpl; subst; [done|].
    apply elem_of_cons in Hin as [->|Hin]; [done|]. f_equal. by apply IH.
Qed.

Lemma jsmap_keys_set_new k v m :
  k ∉ jsmap_keys m → jsmap_keys (jsmap_set k v m) = jsmap_keys m ++ [k].
Proof.
  unfold jsmap_keys. induction m as [|[k0 v0] m IH]; simpl; [done|].
  intros H. apply not_elem_of_cons in H as [Hne H].
  rewrite decide_False by done. simpl. f_equal. by apply IH.
Qed.

Lemma jsmap_get_elem_of k v m : jsmap_get k m = Some v → (k, v) ∈ m.
Proof.
  induction m as [|[k0 v0] m IH]; simpl; [done|].
  case_decide as Hk; subst.
  - intros [= ->]. apply elem_of_cons. by left.
  - intros Hget. apply elem_of_cons. right. by apply IH.
Qed.

End JsMapFacts.

(** ** The timer bookkeeping leaves sessions and histories alone *)

Lemma activeSessions_clearSessionTimeout k st :
  activeSessions (clearSessionTimeout k st) = activeSessions st.
Proof. unfold clearSessionTimeout. by destruct (sessionTimeouts st !! k). Qed.

Lemma heap_clearSessionTimeout k st :
  heap (clearSessionTimeout k st) = heap st.
Proof. unfold clearSessionTimeout. by destruct (sessionTimeouts st !! k). Qed.

Lemma activeSessions_setSessionTimeout k now st :
  activeSessions (setSessionTimeout k now st) = activeSessions st.
Proof. unfold setSessionTimeout. simpl. apply activeSessions_clearSessionTimeout. Qed.

Lemma heap_setSessionTimeout k now st :
  heap (setSessionTimeout k now st) = heap st.
Proof. unfold setSessionTimeout. simpl. apply heap_clearSessionTimeout. Qed.

Lemma sessionTimeouts_clearSessionTimeout k st :
  sessionTimeouts (clearSessionTimeout k st) = delete k (sessionTimeouts st).
Proof.
  unfold clearSessionTimeout. destruct (sessionTimeouts st !! k) eqn:E; [done|].
  by rewrite delete_id.
Qed.

Lemma sessionTimeouts_setSessionTimeout k now st :
  sessionTimeouts (setSessionTimeout k now st)
  = <[k := now + SESSION_TIMEOUT]> (sessionTimeouts st).
Proof.
  unfold setSessionTimeout. cbn [sessionTimeouts with_timeouts].
  rewrite sessionTimeouts_clearSessionTimeout. apply insert_delete_eq.
Qed.

Lemma sessionTimeouts_updateSession k updates now st :
  sessionTimeouts (updateSession k updates now st).2
  = match jsmap_get k (activeSessions st) with
    | Some _ => <[k := now + SESSION_TIMEOUT]> (sessionTimeouts st)
    | None => sessionTimeouts st
    end.
Proof.
  unfold updateSession. destruct (jsmap_get k (activeSessions st)) as [s|]; [|done].
  cbn [snd]. unfold resetSessionTimeout. by rewrite sessionTimeouts_setSessionTimeout.
Qed.

Lemma sessionTimeouts_addMessageToSession k message now st :
  sessionTimeouts (addMessageToSession k message now st).2
  = match jsmap_get k (activeSessions st) with
    | Some _ => <[k := now + SESSION_TIMEOUT]> (sessionTimeouts st)
    | None => sessionTimeouts st
    end.
Proof.
  unfold addMessageToSession. destruct (jsmap_get k (activeSessions st)) as [s|]; [|done].
  cbn [snd]. unfold resetSessionTimeout. by rewrite sessionTimeouts_setSessionTimeout.
Qed.

Lemma sessionTimeouts_endSession k st :
  sessionTimeouts (endSession k st).2
  = match jsmap_get k (activeSessions st) with
    | Some _ => delete k (sessionTimeouts st)
    | None => sessionTimeouts st
    end.
Proof.
  unfold endSession. destruct (jsmap_get k (activeSessions st)) as [s|]; [|done].
  cbn [snd]. by rewrite sessionTimeouts_clearSessionTimeout.
Qed.

Lemma set_isActive_same b s : isActive s = b → set_isActive b s = s.
Proof. destruct s; simpl. by intros ->. Qed.

Example demo_id_generated : makeSessionId demo_phone 1000 = demo_id.
Proof. reflexivity. Qed.

Example demo_store_sessions :
  jsmap_keys (activeSessions demo_store) = [demo_id]
  ∧ sessionTimeouts demo_store !! demo_id = Some 1801000.
Proof. split; reflexivity. Qed.

(** ** P5: what follows an endSession *)

Lemma endSession_true s st st1 :
  endSession s st = (true, st1) →
  ∃ session,
    jsmap_get s (activeSessions st) = Some session
    ∧ jsmap_get s (activeSessions st1) = Some (set_isActive false session)
    ∧ heap st1 = heap st.
Proof.
  unfold endSession. destruct (jsmap_get s (activeSessions st)) as [session|] eqn:E;
    [|discriminate].
  intros [= <-]. exists session. split; [done|].
  rewrite activeSessions_clearSessionTimeout, heap_clearSessionTimeout.
  cbn [activeSessions heap with_sessions].
  by rewrite jsmap_get_mutate_eq, E.
Qed.

Lemma updateSession_missing k updates now st :
  jsmap_get k (activeSessions st) = None → updateSession k updates now st = (false, st).
Proof. unfold updateSession. by intros ->. Qed.

Lemma addMessageToSession_missing k message now st :
  jsmap_get k (activeSessions st) = None →
  addMessageToSession k message now st = (false, st).
Proof. unfold addMessageToSession. by intros ->. Qed.

Lemma updateSession_stored k session updates now st :
  jsmap_get k (activeSessions st) = Some session →
  (updateSession k updates now st).1 = true
  ∧ jsmap_get k (activeSessions (updateSession k updates now st).2)
    = Some (set_lastActivity now (object_assign session updates))
  ∧ heap (updateSession k updates now st).2 = heap st.
Proof.
  intros E. unfold updateSession. rewrite E. cbn [fst snd].
  unfold resetSessionTimeout.
  rewrite activeSessions_setSessionTimeout, heap_setSessionTimeout.
  cbn [activeSessions heap with_sessions].
  by rewrite jsmap_get_mutate_eq, E.
Qed.

Lemma addMessageToSession_stored k session message now st :
  jsmap_get k (activeSessions st) = Some session →
  (addMessageToSession k message now st).1 = true
  ∧ jsmap_get k (activeSessions (addMessageToSession k message now st).2)
    = Some (set_lastActivity now session)
  ∧ heap (addMessageToSession k message now st).2
    = alter (λ h, h ++ [message]) (conversationHistory session) (heap st).
Proof.
  intros E. unfold addMessageToSession. rewrite E. cbn [fst snd].
  unfold resetSessionTimeout.
  rewrite activeSessions_setSessionTimeout, heap_setSessionTimeout.
  cbn [activeSessions heap with_sessions with_heap].
  by rewrite jsmap_get_mutate_eq, E.
Qed.

(** C1, as stated, fails: after a successful [endSession] both
    [updateSession] and [addMessageToSession] on the ended session return
    [true], they change the stored session, and an update that carries
    [isActive: true] brings the session back for [getSessionById]. *)
Lemma end_is_terminal_counterexample :
  endSession demo_id demo_store = (true, demo_ended)
  ∧ (updateSession demo_id no_updates 2000 demo_ended).1 = true
  ∧ (addMessageToSession demo_id hello 2000 demo_ended).1 = true
  ∧ history (addMessageToSession demo_id hello 2000 demo_ended).2
      (set_isActive false (createSession demo_phone 1000 1000 1000 empty_store).1)
    = [hello]
  ∧ (let reactivate :=
       {| p_sessionId := None; p_phoneNumber := None; p_agent := None;
          p_conversationHistory := None; p_businessContext := None;
          p_lastActivity := None; p_startTime := None; p_isActive := Some true |} in
     isActive <$> (getSessionById demo_id 3000
                     (updateSession demo_id reactivate 2000 demo_ended).2).1
     = Some true).
Proof. repeat split; reflexivity. Qed.

(** C1, amended: after [endSession(s)] has returned success the stored
    session is inactive, no timer is armed for [s], and [getSessionById(s)]
    reports not-found, changing nothing; [updateSession(s, ...)] and
    [addMessageToSession(s, ...)] still return [true] and mutate the ended
    session: they merge the fields, or push the message, refresh
    [lastActivity] and arm the timer of [s] again, for [SESSION_TIMEOUT] from
    the clock reading; after an update that carries [isActive: true] the
    session is active again and [getSessionById(s)] returns it. The two
    mutators return [false] exactly for an id under which no session is
    stored, and then leave the store as it is. *)
Theorem end_then_lookup_and_mutators s st st1 :
  endSession s st = (true, st1) →
  ∃ ended,
    jsmap_get s (activeSessions st1) = Some ended
    ∧ isActive ended = false
    ∧ sessionTimeouts st1 !! s = None
    ∧ (∀ now, getSessionById s now st1 = (None, st1))
    ∧ (∀ updates now,
         (updateSession s updates now st1).1 = true
         ∧ jsmap_get s (activeSessions (updateSession s updates now st1).2)
           = Some (set_lastActivity now (object_assign ended updates))
         ∧ heap (updateSession s updates now st1).2 = heap st1
         ∧ sessionTimeouts (updateSession s updates now st1).2
           = <[s := now + SESSION_TIMEOUT]> (sessionTimeouts st1)
         ∧ (p_isActive updates = Some true →
            ∀ later,
              (getSessionById s later (updateSession s updates now st1).2).1
              = Some (set_lastActivity later
                        (set_lastActivity now (object_assign ended updates)))))
    ∧ (∀ message now,
         (addMessageToSession s message now st1).1 = true
         ∧ jsmap_get s (activeSessions (addMessageToSession s message now st1).2)
           = Some (set_lastActivity now ended)
         ∧ heap (addMessageToSession s message now st1).2
           = alter (λ h, h ++ [message]) (conversationHistory ended) (heap st1)
         ∧ sessionTimeouts (addMessageToSession s message now st1).2
           = <[s := now + SESSION_TIMEOUT]> (sessionTimeouts st1))
    ∧ (∀ k updates message now,
         ((updateSession k updates now st1).1 = false
          ↔ jsmap_get k (activeSessions st1) = None)
         ∧ ((addMessageToSession k message now st1).1 = false
            ↔ jsmap_get k (activeSessions st1) = None)
         ∧ (jsmap_get k (activeSessions st1) = None →
            updateSession k updates now st1 = (false, st1)
            ∧ addMessageToSession k message now st1 = (false, st1))).
Proof.
  intros Hend.
  assert (st1 = (endSession s st).2) as Hst1eq by by rewrite Hend.
  apply endSession_true in Hend as (session & Hst & Hst1 & _).
  exists (set_isActive false session). split; [done|]. split; [done|].
  split.
  { rewrite Hst1eq, sessionTimeouts_endSession, Hst. apply lookup_delete_eq. }
  split; [|split; [|split]].
  - intros now. unfold getSessionById. by rewrite Hst1.
  - intros updates now.
    destruct (updateSession_stored s _ updates now st1 Hst1) as (Hok & Hget & Hheap).
    split; [done|]. split; [done|]. split; [done|]. split.
    { by rewrite sessionTimeouts_updateSession, Hst1. }
    intros Hactive later. unfold getSessionById at 1. rewrite Hget.
    cbn [isActive set_lastActivity object_assign]. by rewrite Hactive.
  - intros message now.
    destruct (addMessageToSession_stored s _ message now st1 Hst1)
      as (Hok & Hget & Hheap).
    split; [done|]. split; [done|]. split; [done|].
    by rewrite sessionTimeouts_addMessageToSession, Hst1.
  - intros k updates message now. split; [|split].
    + destruct (jsmap_get k (activeSessions st1)) as [stored|] eqn:Hk.
      * destruct (updateSession_stored k stored updates now st1 Hk) as (Hok & _).
        rewrite Hok. by split.
      * by rewrite updateSession_missing.
    + destruct (jsmap_get k (activeSessions st1)) as [stored|] eqn:Hk.
      * destruct (addMessageToSession_stored k stored message now st1 Hk) as (Hok & _).
        rewrite Hok. by split.
      * by rewrite addMessageToSession_missing.
    + intros Hk. by rewrite updateSession_missing, addMessageToSession_missing.
Qed.

(** The amended C1 on the store whose only session was just ended. *)
Lemma end_then_lookup_and_mutators_witness :
  endSession demo_id demo_store = (true, demo_ended)
  ∧ ∃ ended,
      jsmap_get demo_id (activeSessions demo_ended) = Some ended
      ∧ isActive ended = false
      ∧ sessionTimeouts demo_ended !! demo_id = None
      ∧ (∀ now, getSessionById demo_id now demo_ended = (None, demo_ended))
      ∧ (∀ updates now,
           (updateSession demo_id updates now demo_ended).1 = true
           ∧ jsmap_get demo_id (activeSessions (updateSession demo_id updates now demo_ended).2)
             = Some (set_lastActivity now (object_assign ended updates))
           ∧ heap (updateSession demo_id updates now demo_ended).2 = heap demo_ended
           ∧ sessionTimeouts (updateSession demo_id updates now demo_ended).2
             = <[demo_id := now + SESSION_TIMEOUT]> (sessionTimeouts demo_ended)
           ∧ (p_isActive updates = Some true →
              ∀ later,
                (getSessionById demo_id later (updateSession demo_id updates now demo_ended).2).1
                = Some (set_lastActivity later
                          (set_lastActivity now (object_assign ended updates)))))
      ∧ (∀ message now,
           (addMessageToSession demo_id message now demo_ended).1 = true
           ∧ jsmap_get demo_id (activeSessions (addMessageToSession demo_id message now demo_ended).2)
             = Some (set_lastActivity now ended)
           ∧ heap (addMessageToSession demo_id message now demo_ended).2
             = alter (λ h, h ++ [message]) (conversationHistory ended) (heap demo_ended)
           ∧ sessionTimeouts (addMessageToSession demo_id message now demo_ended).2
             = <[demo_id := now + SESSION_TIMEOUT]> (sessionTimeouts demo_ended))
      ∧ (∀ k updates message now,
           ((updateSession k updates now demo_ended).1 = false
            ↔ jsmap_get k (activeSessions demo_ended) = None)
           ∧ ((addMessageToSession k message now demo_ended).1 = false
              ↔ jsmap_get k (activeSessions demo_ended) = None)
           ∧ (jsmap_get k (activeSessions demo_ended) = None →
              updateSession k updates now demo_ended = (false, demo_ended)
              ∧ addMessageToSession k message now demo_ended = (false, demo_ended))).
Proof.
  split; [reflexivity|].
  apply (end_then_lookup_and_mutators demo_id demo_store demo_ended). reflexivity.
Defined.

(** ** endSession on an ended or unknown id *)

(** C2, as stated, fails: [endSession] on a session that is already ended
    returns [true], not the not-found outcome. *)
Lemma endSession_again_counterexample :
  (isActive <$> jsmap_get demo_id (activeSessions demo_ended)) = Some false
  ∧ (endSession demo_id demo_ended).1 = true.
Proof. split; reflexivity. Qed.

(** C2, amended: [endSession(s)] returns the not-found outcome [false],
    changing nothing, exactly when no session is stored under [s]; on a
    session that is already ended it returns [true] again, the stored
    sessions and histories stay as they are and no timer is left armed for
    [s]. It never fails: it is a total function to [bool]. *)
Theorem endSession_missing_or_ended s st :
  (endSession s st).1 = bool_decide (is_Some (jsmap_get s (activeSessions st)))
  ∧ (jsmap_get s (activeSessions st) = None → endSession s st = (false, st))
  ∧ (∀ session,
       jsmap_get s (activeSessions st) = Some session →
       isActive session = false →
       (endSession s st).1 = true
       ∧ activeSessions (endSession s st).2 = activeSessions st
       ∧ heap (endSession s st).2 = heap st
       ∧ sessionTimeouts (endSession s st).2 !! s = None).
Proof.
  split; [|split].
  - unfold endSession. by destruct (jsmap_get s (activeSessions st)).
  - unfold endSession. by intros ->.
  - intros session E Hended. unfold endSession. rewrite E. cbn [fst snd].
    rewrite activeSessions_clearSessionTimeout, heap_clearSessionTimeout,
      sessionTimeouts_clearSessionTimeout.
    cbn [activeSessions heap sessionTimeouts with_sessions].
    split; [done|]. split; [|split; [done|apply lookup_delete_eq]].
    apply jsmap_mutate_id. intros v Hv. rewrite E in Hv. injection Hv as <-.
    by apply set_isActive_same.
Qed.

(** The amended C2 on an id that was never stored and on an ended session. *)
Lemma endSession_missing_or_ended_witness :
  (jsmap_get "whatsapp_+2348022222222_7" (activeSessions demo_store) = None
   ∧ endSession "whatsapp_+2348022222222_7" demo_store = (false, demo_store))
  ∧ (jsmap_get demo_id (activeSessions demo_ended)
       = Some (set_isActive false (createSession demo_phone 1000 1000 1000 empty_store).1)
     ∧ (endSession demo_id demo_ended).1 = true
     ∧ activeSessions (endSession demo_id demo_ended).2 = activeSessions demo_ended
     ∧ heap (endSession demo_id demo_ended).2 = heap demo_ended
     ∧ sessionTimeouts (endSession demo_id demo_ended).2 !! demo_id = None).
Proof.
  split.
  - split; [reflexivity|].
    apply (endSession_missing_or_ended "whatsapp_+2348022222222_7" demo_store).
    reflexivity.
  - split; [reflexivity|].
    apply (endSession_missing_or_ended demo_id demo_ended) with
      (session := set_isActive false (createSession demo_phone 1000 1000 1000 empty_store).1);
      reflexivity.
Defined.

(** ** Session ids *)

Lemma underscore_free_app s1 s2 :
  underscore_free (s1 +:+ s2) = underscore_free s1 && underscore_free s2.
Proof. induction s1 as [|c s1 IH]; simpl; [done|]. rewrite IH. by destruct (negb _). Qed.

Lemma pretty_N_char_underscore_free x : pretty_N_char x ≠ "_"%char.
Proof. unfold pretty_N_char. by repeat case_match. Qed.

Lemma pretty_N_go_underscore_free x s :
  underscore_free s = true → underscore_free (pretty_N_go x s) = true.
Proof.
  revert s. induction (N.lt_wf_0 x) as [x _ IH]; intros s Hs.
  assert (x = 0 ∨ 0 < x)%N as [->|Hx] by lia.
  - by rewrite pretty_N_go_0.
  - rewrite pretty_N_go_step by done. apply IH.
    + by apply N.div_lt.
    + simpl. rewrite Hs, andb_true_r. apply negb_true_iff, bool_decide_eq_false.
      apply pretty_N_char_underscore_free.
Qed.

Lemma pretty_N_underscore_free (x : N) : underscore_free (pretty x) = true.
Proof.
  unfold pretty, pretty_N. case_decide; [done|].
  by apply pretty_N_go_underscore_free.
Qed.

Lemma pretty_Z_underscore_free (x : Z) : underscore_free (pretty x) = true.
Proof.
  unfold pretty, pretty_Z. destruct x as [|p|p]; [done|..].
  - apply pretty_N_underscore_free.
  - rewrite underscore_free_app. simpl. apply (pretty_N_underscore_free (Npos p)).
Qed.

(** The text after the last underscore determines the split. *)
Lemma split_last_underscore s1 s2 d1 d2 :
  underscore_free d1 = true → underscore_free d2 = true →
  s1 +:+ "_" +:+ d1 = s2 +:+ "_" +:+ d2 → s1 = s2 ∧ d1 = d2.
Proof.
  intros Hd1 Hd2. revert s2.
  assert (∀ s d, underscore_free (s +:+ String "_" d) = false) as Hno.
  { intros s d. rewrite underscore_free_app. simpl. apply andb_false_r. }
  assert (∀ s, "" +:+ s = s) as Hnil by done.
  assert (∀ c s t, String c s +:+ t = String c (s +:+ t)) as Hcons by done.
  induction s1 as [|c1 s1 IH]; intros [|c2 s2]; intros Heq;
    rewrite ?Hnil, ?Hcons in Heq; rewrite ?Hnil in Heq.
  - by injection Heq as ->.
  - injection Heq as _ ->. by rewrite Hno in Hd1.
  - injection Heq as _ <-. by rewrite Hno in Hd2.
  - injection Heq as -> Heq. by destruct (IH s2 Heq) as [-> ->].
Qed.

(** Distinct phone numbers or distinct clock readings give distinct ids. *)
Lemma makeSessionId_inj phone1 t1 phone2 t2 :
  makeSessionId phone1 t1 = makeSessionId phone2 t2 → phone1 = phone2 ∧ t1 = t2.
Proof.
  unfold makeSessionId. intros H. apply (inj (String.app "whatsapp_")) in H.
  apply split_last_underscore in H as [-> H]; try apply pretty_Z_underscore_free.
  split; [done|]. by apply (inj pretty).
Qed.

(** ** createSession *)

Lemma createSession_stored phone t_id t_last t_start st :
  jsmap_get (makeSessionId phone t_id)
    (activeSessions (createSession phone t_id t_last t_start st).2)
  = Some (createSession phone t_id t_last t_start st).1.
Proof.
  unfold createSession. cbn [fst snd].
  rewrite activeSessions_setSessionTimeout. cbn [activeSessions with_sessions with_heap].
  rewrite jsmap_get_set. by rewrite decide_True.
Qed.

(** C4: [createSession(P)] returns a session with an empty history (a
    new, empty array, which no session of the store held before), the
    default business context ([trialStatus] is [prospect]), [isActive] true,
    phone number [P], [lastActivity] and [startTime] the readings of the clock
    taken for them, and the id [whatsapp_P_t] made of [P] and the reading [t]
    of the clock taken for the id (all three are [now] when the clock shows
    [now] throughout the call); the session is stored under that id with a
    timer armed, and the id determines [P] and [t]. *)
Theorem createSession_fields phone t_id t_last t_start st :
  let session := (createSession phone t_id t_last t_start st).1 in
  let st' := (createSession phone t_id t_last t_start st).2 in
  heap st' !! conversationHistory session = Some []
  ∧ heap st !! conversationHistory session = None
  ∧ businessContext session
    = {| name := None; industry := None; trialStatus := prospect;
         signupDate := None; lastPayment := None |}
  ∧ isActive session = true
  ∧ phoneNumber session = phone
  ∧ lastActivity session = t_last
  ∧ startTime session = t_start
  ∧ sessionId session = makeSessionId phone t_id
  ∧ jsmap_get (sessionId session) (activeSessions st') = Some session
  ∧ sessionTimeouts st' !! sessionId session = Some (t_start + SESSION_TIMEOUT)
  ∧ (∀ phone' t', makeSessionId phone' t' = sessionId session ↔ phone' = phone ∧ t' = t_id).
Proof.
  intros session st'. split_and!; try reflexivity.
  - unfold st', session, createSession. cbn [fst snd conversationHistory].
    rewrite heap_setSessionTimeout. cbn [heap with_sessions with_heap].
    by rewrite list_lookup_middle.
  - by apply lookup_ge_None.
  - apply createSession_stored.
  - unfold st', session, createSession, setSessionTimeout.
    cbn [fst snd sessionId sessionTimeouts with_timeouts]. apply lookup_insert_eq.
  - intros phone' t'. split.
    + intros Hid. by apply makeSessionId_inj in Hid.
    + by intros [-> ->].
Qed.

(** C4 on the first session of an empty store: its id gives back the phone
    number and the clock reading. *)
Lemma createSession_fields_witness :
  makeSessionId demo_phone 1000
  = sessionId (createSession demo_phone 1000 1000 1000 empty_store).1
  ∧ demo_phone = demo_phone ∧ 1000 = 1000.
Proof.
  split; [reflexivity|].
  destruct (createSession_fields demo_phone 1000 1000 1000 empty_store)
    as (_ & _ & _ & _ & _ & _ & _ & _ & _ & _ & Hfresh).
  apply (proj1 (Hfresh demo_phone 1000)). reflexivity.
Defined.

(** ** P7: the three counts of active sessions *)

(** C8: [getActiveSessionCount()] is the length of the list
    [getActiveSessions()] returns, and so is the [activeSessions] field of
    [getSessionStats()]. *)
Theorem stats_consistency st :
  getActiveSessionCount st = length (getActiveSessions st)
  ∧ Stats.activeSessions (getSessionStats st) = length (getActiveSessions st).
Proof. split; reflexivity. Qed.

(** ** getSession: lookup by phone number *)

Lemma active_for_true phone (s : ConversationSession) :
  bool_decide (phoneNumber s = phone) && isActive s = true
  ↔ phoneNumber s = phone ∧ isActive s = true.
Proof. rewrite andb_true_iff, bool_decide_eq_true. done. Qed.

Lemma active_for_false phone (s : ConversationSession) :
  bool_decide (phoneNumber s = phone) && isActive s = false
  ↔ (phoneNumber s = phone → isActive s = false).
Proof.
  rewrite andb_false_iff, bool_decide_eq_false. split.
  - intros [Hne|Hin] Hp; [done|done].
  - intros Himp. destruct (decide (phoneNumber s = phone)); [right; auto|by left].
Qed.

(** The loop returns the first active session for the phone number. *)
Lemma getSession_loop_first phone now pre k old post :
  (∀ k' s, (k', s) ∈ pre → phoneNumber s = phone → isActive s = false) →
  phoneNumber old = phone → isActive old = true →
  getSession_loop phone now (pre ++ (k, old) :: post)
  = (Some (k, set_lastActivity now old), pre ++ (k, set_lastActivity now old) :: post).
Proof.
  intros Hpre Hphone Hactive. induction pre as [|[k0 s0] pre IH]; simpl.
  - assert (bool_decide (phoneNumber old = phone) && isActive old = true) as ->
      by by apply active_for_true.
    done.
  - assert (bool_decide (phoneNumber s0 = phone) && isActive s0 = false) as ->.
    { apply active_for_false. apply (Hpre k0). apply elem_of_cons. by left. }
    rewrite IH; [done|]. intros k' s Hin. apply (Hpre k'). apply elem_of_cons. by right.
Qed.

(** Either way of leaving the loop, read back from its result. *)
Lemma getSession_loop_inv phone now entries :
  match getSession_loop phone now entries with
  | (Some (k, session), m) =>
      ∃ pre old post,
        entries = pre ++ (k, old) :: post
        ∧ m = pre ++ (k, session) :: post
        ∧ session = set_lastActivity now old
        ∧ phoneNumber old = phone ∧ isActive old = true
        ∧ (∀ k' s, (k', s) ∈ pre → phoneNumber s = phone → isActive s = false)
  | (None, m) =>
      m = entries
      ∧ (∀ k s, (k, s) ∈ entries → phoneNumber s = phone → isActive s = false)
  end.
Proof.
  induction entries as [|[k0 s0] entries IH]; simpl.
  - split; [done|]. intros k s Hin. by apply elem_of_nil in Hin.
  - destruct (bool_decide (phoneNumber s0 = phone) && isActive s0) eqn:E.
    + apply active_for_true in E as [Hp Ha].
      exists [], s0, entries. repeat split; try done.
      intros k' s Hin. by apply elem_of_nil in Hin.
    + destruct (getSession_loop phone now entries) as [[[k s]|] m].
      * destruct IH as (pre & old & post & -> & -> & -> & Hp & Ha & Hpre).
        exists ((k0, s0) :: pre), old, post. repeat split; try done.
        intros k' s Hin. apply elem_of_cons in Hin as [[= -> ->]|Hin].
        -- by apply active_for_false.
        -- by apply (Hpre k').
      * destruct IH as [-> Hall]. split; [done|].
        intros k s Hin. apply elem_of_cons in Hin as [[= -> ->]|Hin].
        -- by apply active_for_false.
        -- by apply (Hall k).
Qed.

(** C3: [getSession(P)] returns a session only if a stored session has
    phone number [P] and is active, namely the first such session in
    insertion order, with its [lastActivity] set to the current time in the
    store as in the result and its timer armed anew, every other stored
    session being left as it was; and when no active session for [P] is
    stored it returns the not-found outcome and leaves the store unchanged. *)
Theorem getSession_hit_or_miss phone now st :
  (∀ session st',
     getSession phone now st = (Some session, st') →
     phoneNumber session = phone
     ∧ isActive session = true
     ∧ lastActivity session = now
     ∧ ∃ pre k old post,
         activeSessions st = pre ++ (k, old) :: post
         ∧ phoneNumber old = phone ∧ isActive old = true
         ∧ (∀ k' s, (k', s) ∈ pre → phoneNumber s = phone → isActive s = false)
         ∧ session = set_lastActivity now old
         ∧ activeSessions st' = pre ++ (k, session) :: post
         ∧ heap st' = heap st
         ∧ sessionTimeouts st' !! k = Some (now + SESSION_TIMEOUT))
  ∧ (no_active_session phone st → getSession phone now st = (None, st))
  ∧ ((getSession phone now st).1 = None → no_active_session phone st).
Proof.
  unfold getSession.
  pose proof (getSession_loop_inv phone now (activeSessions st)) as Hinv.
  destruct (getSession_loop phone now (activeSessions st)) as [[[k session]|] m].
  - destruct Hinv as (pre & old & post & Hst & -> & -> & Hp & Ha & Hpre).
    split; [|split].
    + intros session st' [= <- <-]. repeat split; try done.
      exists pre, k, old, post. repeat split; try done.
      * unfold resetSessionTimeout. by rewrite activeSessions_setSessionTimeout.
      * unfold resetSessionTimeout. by rewrite heap_setSessionTimeout.
      * unfold resetSessionTimeout, setSessionTimeout.
        cbn [sessionTimeouts with_timeouts]. apply lookup_insert_eq.
    + intros Hnone. exfalso.
      assert (isActive old = false) as Hf; [|congruence].
      apply (Hnone k); [|done]. rewrite Hst. apply elem_of_app. right.
      apply elem_of_cons. by left.
    + discriminate.
  - destruct Hinv as [-> Hall]. split; [|split].
    + discriminate.
    + done.
    + intros _. exact Hall.
Qed.

(** C3 on a hit (the session just created) and on a miss (the same session
    once ended). *)
Lemma getSession_hit_or_miss_witness :
  (getSession demo_phone 2000 demo_store
     = (Some (set_lastActivity 2000 (createSession demo_phone 1000 1000 1000 empty_store).1),
        (getSession demo_phone 2000 demo_store).2)
   ∧ lastActivity (set_lastActivity 2000
                     (createSession demo_phone 1000 1000 1000 empty_store).1) = 2000)
  ∧ (no_active_session demo_phone demo_ended
     ∧ getSession demo_phone 2000 demo_ended = (None, demo_ended)).
Proof.
  split.
  - split; [reflexivity|].
    apply (proj1 (getSession_hit_or_miss demo_phone 2000 demo_store)
             _ (getSession demo_phone 2000 demo_store).2).
    reflexivity.
  - assert (no_active_session demo_phone demo_ended) as Hnone.
    { intros k s Hin _. apply list_elem_of_singleton in Hin. by injection Hin as -> ->. }
    split; [exact Hnone|].
    apply (proj1 (proj2 (getSession_hit_or_miss demo_phone 2000 demo_ended))).
    exact Hnone.
Defined.

(** ** P1: createSession followed by getSession *)

(** [Map.set] puts the value where the key stands, or at the end. *)
Lemma jsmap_set_split {V} (k : string) (v : V) (m : list (string * V)) :
  ∃ pre post,
    jsmap_set k v m = pre ++ (k, v) :: post
    ∧ (∀ e, e ∈ pre → e ∈ m)
    ∧ (∀ e, e ∈ post → e ∈ m)
    ∧ (jsmap_get k m = None → pre = m ∧ post = []).
Proof.
  induction m as [|[k0 v0] m IH]; simpl.
  - exists [], []. split_and!; done.
  - destruct (decide (k0 = k)) as [->|Hne].
    + exists [], m. split_and!; [done| |..].
      * intros e He. by apply elem_of_nil in He.
      * intros e He. apply elem_of_cons. by right.
      * discriminate.
    + destruct IH as (pre & post & -> & Hpre & Hpost & Hnew).
      exists ((k0, v0) :: pre), post. split_and!.
      * done.
      * intros e He. apply elem_of_cons in He as [->|He]; apply elem_of_cons;
          [by left|right; by apply Hpre].
      * intros e He. apply elem_of_cons. right. by apply Hpost.
      * intros Hk. destruct (Hnew Hk) as [-> ->]. done.
Qed.

Lemma createSession_sessions phone t_id t_last t_start st :
  activeSessions (createSession phone t_id t_last t_start st).2
  = jsmap_set (makeSessionId phone t_id)
      (createSession phone t_id t_last t_start st).1 (activeSessions st).
Proof.
  unfold createSession. cbn [fst snd].
  by rewrite activeSessions_setSessionTimeout.
Qed.

(** Right after [createSession(P)] on a store without an active session
    for [P], the created session is the one [getSession(P)] finds. *)
Lemma getSession_after_create phone t_id t_last t_start now st :
  no_active_session phone st →
  (getSession phone now (createSession phone t_id t_last t_start st).2).1
  = Some (set_lastActivity now (createSession phone t_id t_last t_start st).1).
Proof.
  intros Hnone. unfold getSession. rewrite createSession_sessions.
  destruct (jsmap_set_split (makeSessionId phone t_id)
              (createSession phone t_id t_last t_start st).1 (activeSessions st))
    as (pre & post & -> & Hpre & _ & _).
  rewrite getSession_loop_first; [done| |done|done].
  intros k s Hin. apply (Hnone k). by apply Hpre.
Qed.

(** After any two [createSession(P)], [getSession(P)] finds a session, and
    it is one of the two. *)
Lemma getSession_after_two_creates phone t1 t1' t1'' t2 t2' t2'' now st :
  no_active_session phone st →
  let st1 := (createSession phone t1 t1' t1'' st).2 in
  ∃ found,
    (getSession phone now (createSession phone t2 t2' t2'' st1).2).1 = Some found
    ∧ (sessionId found = makeSessionId phone t1
       ∨ sessionId found = makeSessionId phone t2).
Proof.
  intros Hnone st1. unfold getSession.
  pose proof (getSession_loop_inv phone now
    (activeSessions (createSession phone t2 t2' t2'' st1).2)) as Hinv.
  destruct (getSession_loop phone now
    (activeSessions (createSession phone t2 t2' t2'' st1).2)) as [[[k session]|] m].
  - destruct Hinv as (pre & old & post & Hst & -> & -> & Hp & Ha & Hpre).
    eexists. split; [done|]. cbn [sessionId set_lastActivity].
    assert ((k, old) ∈ activeSessions (createSession phone t2 t2' t2'' st1).2) as Hin.
    { rewrite Hst. apply elem_of_app. right. apply elem_of_cons. by left. }
    rewrite createSession_sessions in Hin.
    destruct (jsmap_set_split (makeSessionId phone t2)
                (createSession phone t2 t2' t2'' st1).1 (activeSessions st1))
      as (pre2 & post2 & Hset2 & Hpre2 & Hpost2 & _).
    rewrite Hset2 in Hin.
    assert ((k, old) = (makeSessionId phone t2, (createSession phone t2 t2' t2'' st1).1)
            ∨ (k, old) ∈ activeSessions st1) as [[= -> ->]|Hin1].
    { apply elem_of_app in Hin as [Hin|Hin]; [right; by apply Hpre2|].
      apply elem_of_cons in Hin as [Hin|Hin]; [by left|right; by apply Hpost2]. }
    { by right. }
    unfold st1 in Hin1. rewrite createSession_sessions in Hin1.
    destruct (jsmap_set_split (makeSessionId phone t1)
                (createSession phone t1 t1' t1'' st).1 (activeSessions st))
      as (pre1 & post1 & Hset1 & Hpre1 & Hpost1 & _).
    rewrite Hset1 in Hin1.
    assert ((k, old) = (makeSessionId phone t1, (createSession phone t1 t1' t1'' st).1)
            ∨ (k, old) ∈ activeSessions st) as [[= -> ->]|Hin0].
    { apply elem_of_app in Hin1 as [Hin1|Hin1]; [right; by apply Hpre1|].
      apply elem_of_cons in Hin1 as [Hin1|Hin1]; [by left|right; by apply Hpost1]. }
    { by left. }
    rewrite (Hnone k old Hin0 Hp) in Ha. discriminate.
  - exfalso. destruct Hinv as [_ Hall].
    assert (isActive (createSession phone t2 t2' t2'' st1).1 = false) as Hf;
      [|discriminate].
    apply (Hall (makeSessionId phone t2)); [|done].
    apply jsmap_get_elem_of, createSession_stored.
Qed.

(** When the id of the second [createSession(P)] is not yet a key of the
    map, the session of the first one stands before it and is found. *)
Lemma getSession_after_second_create phone t1 t1' t1'' t2 t2' t2'' now st :
  no_active_session phone st →
  jsmap_get (makeSessionId phone t2) (activeSessions st) = None →
  let st1 := (createSession phone t1 t1' t1'' st).2 in
  ∃ found,
    (getSession phone now (createSession phone t2 t2' t2'' st1).2).1 = Some found
    ∧ sessionId found = makeSessionId phone t1.
Proof.
  intros Hnone Hfresh st1.
  destruct (decide (makeSessionId phone t1 = makeSessionId phone t2)) as [Heq|Hne].
  { destruct (getSession_after_two_creates phone t1 t1' t1'' t2 t2' t2'' now st Hnone)
      as (found & Hfound & [Hid|Hid]); exists found;
      (split; [exact Hfound|congruence]). }
  unfold getSession. rewrite createSession_sessions.
  destruct (jsmap_set_split (makeSessionId phone t2)
              (createSession phone t2 t2' t2'' st1).1 (activeSessions st1))
    as (pre2 & post2 & -> & _ & _ & Hnew2).
  destruct Hnew2 as [-> ->].
  { unfold st1. rewrite createSession_sessions, jsmap_get_set.
    by rewrite decide_False. }
  unfold st1 at 1. rewrite createSession_sessions.
  destruct (jsmap_set_split (makeSessionId phone t1)
              (createSession phone t1 t1' t1'' st).1 (activeSessions st))
    as (pre1 & post1 & -> & Hpre1 & _ & _).
  rewrite <- app_assoc, <- app_comm_cons.
  rewrite getSession_loop_first; [by eexists| |done|done].
  intros k s Hin. apply (Hnone k). by apply Hpre1.
Qed.

(** C5: on a store with no active session for [P], [getSession(P)] after
    [createSession(P)] returns the created session (with [lastActivity]
    refreshed), so with the created [sessionId]; after a second
    [createSession(P)] with the first session not ended, [getSession(P)]
    still returns a session, determined by the store alone: the first active
    session for [P] in insertion order, which is one of the two created, and
    the first created whenever the second id was not a key of the map. *)
Theorem create_then_getSession phone t_id t_last t_start now st :
  no_active_session phone st →
  let created := (createSession phone t_id t_last t_start st).1 in
  let st1 := (createSession phone t_id t_last t_start st).2 in
  (getSession phone now st1).1 = Some (set_lastActivity now created)
  ∧ sessionId (set_lastActivity now created) = sessionId created
  ∧ ∀ t_id2 t_last2 t_start2,
      let second := (createSession phone t_id2 t_last2 t_start2 st1).1 in
      let st2 := (createSession phone t_id2 t_last2 t_start2 st1).2 in
      ∃ found,
        (getSession phone now st2).1 = Some found
        ∧ (sessionId found = sessionId created ∨ sessionId found = sessionId second)
        ∧ (jsmap_get (sessionId second) (activeSessions st) = None →
           sessionId found = sessionId created).
Proof.
  intros Hnone created st1. split; [by apply getSession_after_create|].
  split; [done|]. intros t_id2 t_last2 t_start2 second st2.
  destruct (getSession_after_two_creates phone t_id t_last t_start
              t_id2 t_last2 t_start2 now st Hnone) as (found & Hfound & Hid).
  exists found. split; [exact Hfound|]. split; [exact Hid|].
  intros Hfresh.
  destruct (getSession_after_second_create phone t_id t_last t_start
              t_id2 t_last2 t_start2 now st Hnone Hfresh) as (found' & Hfound' & Hid').
  unfold st2, st1 in Hfound. rewrite Hfound in Hfound'. by injection Hfound' as ->.
Qed.

(** C5 on the empty store. *)
Lemma create_then_getSession_witness :
  no_active_session demo_phone empty_store
  ∧ (getSession demo_phone 2000 demo_store).1
    = Some (set_lastActivity 2000 (createSession demo_phone 1000 1000 1000 empty_store).1)
  ∧ sessionId (set_lastActivity 2000 (createSession demo_phone 1000 1000 1000 empty_store).1)
    = demo_id.
Proof.
  assert (no_active_session demo_phone empty_store) as Hnone.
  { intros k s Hin. by apply elem_of_nil in Hin. }
  split; [exact Hnone|].
  pose proof (create_then_getSession demo_phone 1000 1000 1000 2000 empty_store Hnone)
    as (Hget & Hid & _).
  split; [exact Hget|exact Hid].
Defined.

Example second_create_oldest_wins :
  let st2 := (createSession demo_phone 1001 1001 1001 demo_store).2 in
  jsmap_keys (activeSessions st2) = [demo_id; "whatsapp_+2348011111111_1001"]
  ∧ sessionId <$> (getSession demo_phone 2000 st2).1 = Some demo_id.
Proof. split; reflexivity. Qed.

Example second_create_same_millisecond :
  let st2 := (createSession demo_phone 1000 1000 1000 demo_store).2 in
  jsmap_keys (activeSessions st2) = [demo_id]
  ∧ sessionId <$> (getSession demo_phone 2000 st2).1 = Some demo_id.
Proof. split; reflexivity. Qed.

(** ** The sweep *)

Lemma jsmap_get_app_new {V} (k : string) (m1 m2 : list (string * V)) :
  k ∉ jsmap_keys m1 → jsmap_get k (m1 ++ m2) = jsmap_get k m2.
Proof.
  unfold jsmap_keys. induction m1 as [|[k0 v0] m1 IH]; simpl; [done|].
  intros Hk. apply not_elem_of_cons in Hk as [Hne Hk].
  rewrite decide_False by done. by apply IH.
Qed.

Lemma jsmap_mutate_app_new {V} (f : V → V) (k : string) (m1 m2 : list (string * V)) :
  k ∉ jsmap_keys m1 → jsmap_mutate f k (m1 ++ m2) = m1 ++ jsmap_mutate f k m2.
Proof.
  unfold jsmap_keys. induction m1 as [|[k0 v0] m1 IH]; simpl; [done|].
  intros Hk. apply not_elem_of_cons in Hk as [Hne Hk].
  rewrite decide_False by done. f_equal. by apply IH.
Qed.

Lemma endSession_sessions k st :
  activeSessions (endSession k st).2
  = jsmap_mutate (set_isActive false) k (activeSessions st).
Proof.
  unfold endSession. destruct (jsmap_get k (activeSessions st)) eqn:E; cbn [snd].
  - by rewrite activeSessions_clearSessionTimeout.
  - symmetry. apply jsmap_mutate_id. intros v Hv. congruence.
Qed.

Lemma heap_endSession k st : heap (endSession k st).2 = heap st.
Proof.
  unfold endSession. destruct (jsmap_get k (activeSessions st)); cbn [snd]; [|done].
  by rewrite heap_clearSessionTimeout.
Qed.

(** The loop, with the entries already visited in [visited] and those
    still to visit in [todo]. *)
Lemma cleanup_loop_sessions now todo : ∀ visited st cleanedCount,
  activeSessions st = visited ++ todo →
  NoDup (jsmap_keys (visited ++ todo)) →
  activeSessions (cleanup_loop now (jsmap_keys todo) st cleanedCount).2
  = visited ++ (prod_map id (swept now) <$> todo).
Proof.
  induction todo as [|[k0 s0] todo IH]; intros visited st cleanedCount Hst Hnd.
  - simpl. by rewrite Hst.
  - assert (k0 ∉ jsmap_keys visited) as Hk0.
    { unfold jsmap_keys in *. rewrite fmap_app in Hnd.
      apply NoDup_app in Hnd as (_ & Hdisj & _). intros Hin.
      apply (Hdisj k0 Hin). simpl. apply elem_of_cons. by left. }
    assert (jsmap_get k0 (activeSessions st) = Some s0) as Hget.
    { rewrite Hst, jsmap_get_app_new by done. simpl. by rewrite decide_True. }
    assert (NoDup (jsmap_keys ((visited ++ [(k0, swept now s0)]) ++ todo))) as Hnd'.
    { unfold jsmap_keys in *. rewrite <- app_assoc. simpl.
      rewrite fmap_app in *. exact Hnd. }
    change (jsmap_keys ((k0, s0) :: todo)) with (k0 :: jsmap_keys todo).
    cbn [cleanup_loop]. rewrite Hget, fmap_cons.
    change (prod_map id (swept now) (k0, s0)) with (k0, swept now s0).
    pose proof (eq_refl (swept now s0)) as Hsw. unfold swept at 2 in Hsw.
    destruct (negb (isActive s0) || bool_decide (now - lastActivity s0 > SESSION_TIMEOUT));
      rewrite Hsw in *.
    + rewrite (IH (visited ++ [(k0, set_isActive false s0)])); [| |done].
      * by rewrite <- app_assoc.
      * rewrite endSession_sessions, Hst, jsmap_mutate_app_new by done.
        simpl. rewrite decide_True by done. by rewrite <- app_assoc.
    + rewrite (IH (visited ++ [(k0, s0)])); [| |done].
      * by rewrite <- app_assoc.
      * rewrite Hst. by rewrite <- app_assoc.
Qed.

Lemma cleanupExpiredSessions_sessions now st :
  keys_unique st →
  activeSessions (cleanupExpiredSessions now st).2
  = prod_map id (swept now) <$> activeSessions st.
Proof.
  intros Hnd. unfold cleanupExpiredSessions.
  by rewrite (cleanup_loop_sessions now (activeSessions st) [] st 0).
Qed.

(** ** What an operation does to the entries of the map

    Every operation but [createSession] keeps the entries of the map where
    they are and changes sessions only by [set_lastActivity], [set_isActive
    false] and, for [updateSession], [object_assign]. A relation [R] between
    the session before and after that these changes respect is therefore
    kept, entry by entry, by every such operation. *)

Section Entries.
Variable R : ConversationSession → ConversationSession → Prop.
Variable allowed : PartialSession → Prop.
Hypothesis R_refl : ∀ s, R s s.
Hypothesis R_trans : ∀ s1 s2 s3, R s1 s2 → R s2 s3 → R s1 s3.
Hypothesis R_lastActivity : ∀ now s, R s (set_lastActivity now s).
Hypothesis R_end : ∀ s, R s (set_isActive false s).
Hypothesis R_assign : ∀ u s, allowed u → R s (object_assign s u).

Lemma entries_rel_refl m : entries_rel R m m.
Proof. unfold entries_rel. induction m; constructor; auto. Qed.

Lemma entries_rel_trans m1 m2 m3 :
  entries_rel R m1 m2 → entries_rel R m2 m3 → entries_rel R m1 m3.
Proof.
  unfold entries_rel. intros H12. revert m3.
  induction H12 as [|e1 e2 m1 m2 [Hk HR] _ IH]; intros m3 H23.
  - by inversion H23.
  - inversion H23 as [|? e3 ? m3' [Hk' HR'] Hrest]; subst.
    constructor; [split; [congruence|eauto]|]. by apply IH.
Qed.

Lemma entries_rel_mutate f k m :
  (∀ s, R s (f s)) → entries_rel R m (jsmap_mutate f k m).
Proof.
  intros Hf. unfold entries_rel. induction m as [|[k0 s0] m IH]; simpl.
  - constructor.
  - case_decide.
    + constructor; [by split; [|apply Hf]|]. apply entries_rel_refl.
    + constructor; [by split|]. exact IH.
Qed.

Lemma entries_rel_get k m m' s :
  entries_rel R m m' → jsmap_get k m = Some s →
  ∃ s', jsmap_get k m' = Some s' ∧ R s s'.
Proof.
  unfold entries_rel. intros Hrel. revert s.
  induction Hrel as [|[k1 s1] [k2 s2] m m' [Hk HR] _ IH]; intros s; simpl in *.
  - discriminate.
  - subst k2. case_decide.
    + intros [= <-]. eauto.
    + apply IH.
Qed.

Lemma entries_rel_get_inv k m m' s' :
  entries_rel R m m' → jsmap_get k m' = Some s' →
  ∃ s, jsmap_get k m = Some s ∧ R s s'.
Proof.
  unfold entries_rel. intros Hrel. revert s'.
  induction Hrel as [|[k1 s1] [k2 s2] m m' [Hk HR] _ IH]; intros s'; simpl in *.
  - discriminate.
  - subst k2. case_decide.
    + intros [= <-]. eauto.
    + apply IH.
Qed.

Lemma entries_rel_keys m m' : entries_rel R m m' → jsmap_keys m' = jsmap_keys m.
Proof.
  unfold entries_rel, jsmap_keys.
  induction 1 as [|[k1 s1] [k2 s2] m m' [Hk HR] _ IH]; [done|].
  rewrite !fmap_cons. simpl in Hk. by rewrite IH, Hk.
Qed.

Lemma entries_rel_getSession_loop phone now m :
  entries_rel R m (getSession_loop phone now m).2.
Proof.
  unfold entries_rel. induction m as [|[k0 s0] m IH]; simpl.
  - constructor.
  - destruct (bool_decide (phoneNumber s0 = phone) && isActive s0).
    + constructor; [by split; [|apply R_lastActivity]|]. apply entries_rel_refl.
    + destruct (getSession_loop phone now m) as [r rest']. simpl in *.
      constructor; [by split|]. exact IH.
Qed.

Lemma entries_rel_getSession phone now st :
  entries_rel R (activeSessions st) (activeSessions (getSession phone now st).2).
Proof.
  unfold getSession.
  pose proof (entries_rel_getSession_loop phone now (activeSessions st)) as Hloop.
  destruct (getSession_loop phone now (activeSessions st)) as [[[k s]|] m'];
    cbn [snd] in *.
  - unfold resetSessionTimeout. by rewrite activeSessions_setSessionTimeout.
  - apply entries_rel_refl.
Qed.

Lemma entries_rel_getSessionById k now st :
  entries_rel R (activeSessions st) (activeSessions (getSessionById k now st).2).
Proof.
  unfold getSessionById.
  destruct (jsmap_get k (activeSessions st)) as [s|]; [|apply entries_rel_refl].
  destruct (isActive s); [|apply entries_rel_refl]. cbn [snd].
  unfold resetSessionTimeout. rewrite activeSessions_setSessionTimeout.
  apply entries_rel_mutate, R_lastActivity.
Qed.

Lemma entries_rel_updateSession k updates now st :
  allowed updates →
  entries_rel R (activeSessions st) (activeSessions (updateSession k updates now st).2).
Proof.
  intros Hallowed. unfold updateSession.
  destruct (jsmap_get k (activeSessions st)) as [s|]; [|apply entries_rel_refl].
  cbn [snd]. unfold resetSessionTimeout. rewrite activeSessions_setSessionTimeout.
  apply entries_rel_mutate. intros s'.
  apply R_trans with (object_assign s' updates); [by apply R_assign|].
  apply R_lastActivity.
Qed.

Lemma entries_rel_addMessageToSession k message now st :
  entries_rel R (activeSessions st)
    (activeSessions (addMessageToSession k message now st).2).
Proof.
  unfold addMessageToSession.
  destruct (jsmap_get k (activeSessions st)) as [s|]; [|apply entries_rel_refl].
  cbn [snd]. unfold resetSessionTimeout. rewrite activeSessions_setSessionTimeout.
  apply entries_rel_mutate, R_lastActivity.
Qed.

Lemma entries_rel_endSession k st :
  entries_rel R (activeSessions st) (activeSessions (endSession k st).2).
Proof. rewrite endSession_sessions. apply entries_rel_mutate, R_end. Qed.

Lemma entries_rel_cleanup_loop now keys : ∀ st cleanedCount,
  entries_rel R (activeSessions st)
    (activeSessions (cleanup_loop now keys st cleanedCount).2).
Proof.
  induction keys as [|k keys IH]; intros st cleanedCount; simpl.
  - apply entries_rel_refl.
  - destruct (jsmap_get k (activeSessions st)) as [s|]; [|apply IH].
    destruct (negb (isActive s) || bool_decide (now - lastActivity s > SESSION_TIMEOUT));
      [|apply IH].
    eapply entries_rel_trans; [apply (entries_rel_endSession k)|apply IH].
Qed.

Lemma entries_rel_timerFires k now st :
  entries_rel R (activeSessions st) (activeSessions (timerFires k now st)).
Proof.
  unfold timerFires. destruct (sessionTimeouts st !! k); [|apply entries_rel_refl].
  case_bool_decide; [apply entries_rel_endSession|apply entries_rel_refl].
Qed.

(** The entries after one operation. *)
Lemma step_entries op st :
  op_allowed allowed op →
  match op with
  | OpCreate phone t_id t_last t_start =>
      activeSessions (step op st)
      = jsmap_set (makeSessionId phone t_id)
          (createSession phone t_id t_last t_start st).1 (activeSessions st)
  | _ => entries_rel R (activeSessions st) (activeSessions (step op st))
  end.
Proof.
  destruct op; simpl; intros Hallowed.
  - apply createSession_sessions.
  - apply entries_rel_getSession.
  - apply entries_rel_getSessionById.
  - by apply entries_rel_updateSession.
  - apply entries_rel_addMessageToSession.
  - apply entries_rel_endSession.
  - apply entries_rel_cleanup_loop.
  - apply entries_rel_timerFires.
  - apply entries_rel_refl.
Qed.
End Entries.

(** ** The keys of the map *)

Lemma step_keys op st :
  jsmap_keys (activeSessions (step op st)) = jsmap_keys (activeSessions st)
  ∨ ∃ k, (k ∉ jsmap_keys (activeSessions st))
         ∧ jsmap_keys (activeSessions (step op st)) = jsmap_keys (activeSessions st) ++ [k].
Proof.
  pose proof (step_entries (λ _ _, True) (λ _, True)
                (λ _, I) (λ _ _ _ _ _, I) (λ _ _, I) (λ _, I) (λ _ _ _, I) op st) as Hstep.
  assert (op_allowed (λ _, True) op) as Hallowed by by destruct op.
  specialize (Hstep Hallowed).
  destruct op; try (left; by apply (entries_rel_keys (λ _ _, True))).
  rewrite Hstep.
  destruct (decide (makeSessionId phone t_id ∈ jsmap_keys (activeSessions st)))
    as [Hin|Hnew].
  - left. by apply jsmap_keys_set_stored.
  - right. exists (makeSessionId phone t_id). split; [done|].
    by apply jsmap_keys_set_new.
Qed.

Lemma step_keys_unique op st : keys_unique st → keys_unique (step op st).
Proof.
  unfold keys_unique. intros Hnd.
  destruct (step_keys op st) as [->|(k & Hk & ->)]; [done|].
  apply NoDup_app. split; [done|]. split; [|apply NoDup_singleton].
  intros x Hx Hx'. apply list_elem_of_singleton in Hx'. by subst.
Qed.

Lemma run_cons op ops st : run (op :: ops) st = run ops (step op st).
Proof. done. Qed.

Lemma run_keys_unique ops : ∀ st, keys_unique st → keys_unique (run ops st).
Proof.
  induction ops as [|op ops IH]; intros st Hnd; [done|].
  rewrite run_cons. by apply IH, step_keys_unique.
Qed.

Lemma reachable_keys_unique st : reachable st → keys_unique st.
Proof.
  intros [ops ->]. apply run_keys_unique. unfold keys_unique. simpl. constructor.
Qed.

Lemma run_keys_prefix ops : ∀ st,
  jsmap_keys (activeSessions st) `prefix_of` jsmap_keys (activeSessions (run ops st)).
Proof.
  induction ops as [|op ops IH]; intros st; [done|].
  rewrite run_cons. etrans; [|apply IH].
  destruct (step_keys op st) as [->|(k & _ & ->)]; [done|]. by apply prefix_app_r.
Qed.

(** ** P6: the sweep is a backstop *)



Example sweep_keeps_fresh_session :
  isActive <$> jsmap_get demo_id
    (activeSessions (cleanupExpiredSessions 1801000 demo_store).2) = Some true.
Proof. reflexivity. Qed.

(** ** The map only grows *)

Lemma totalSessions_keys st :
  Stats.totalSessions (getSessionStats st) = length (jsmap_keys (activeSessions st)).
Proof.
  unfold getSessionStats, jsmap_values, jsmap_keys. cbn [Stats.totalSessions].
  by rewrite !length_fmap.
Qed.

(** C10: no operation removes an entry of the session map. Along any
    sequence of operations the list of stored ids only grows at its end, so
    [getSessionStats().totalSessions] never decreases; [endSession] and the
    sweep leave the ids exactly as they are, [endSession] doing no more to
    the sessions than setting [isActive] to false on the one it ends. *)
Theorem stored_sessions_never_removed ops st :
  jsmap_keys (activeSessions st) `prefix_of` jsmap_keys (activeSessions (run ops st))
  ∧ (Stats.totalSessions (getSessionStats st)
     ≤ Stats.totalSessions (getSessionStats (run ops st)))%nat
  ∧ (∀ k, activeSessions (endSession k st).2
          = jsmap_mutate (set_isActive false) k (activeSessions st)
          ∧ jsmap_keys (activeSessions (endSession k st).2)
            = jsmap_keys (activeSessions st))
  ∧ (∀ now, jsmap_keys (activeSessions (cleanupExpiredSessions now st).2)
            = jsmap_keys (activeSessions st)
            ∧ Forall2 (λ e e', e.1 = e'.1 ∧ (e'.2 = e.2 ∨ e'.2 = set_isActive false e.2))
                (activeSessions st) (activeSessions (cleanupExpiredSessions now st).2)).
Proof.
  split; [apply run_keys_prefix|]. split; [|split].
  - rewrite !totalSessions_keys. apply prefix_length, run_keys_prefix.
  - intros k. rewrite endSession_sessions. split; [done|]. apply jsmap_keys_mutate.
  - intros now.
    assert (entries_rel (λ s s', s' = s ∨ s' = set_isActive false s)
              (activeSessions st) (activeSessions (cleanupExpiredSessions now st).2))
      as Hrel.
    { apply entries_rel_cleanup_loop.
      - by left.
      - intros s1 s2 s3 [->| ->] [->| ->]; auto.
      - by right. }
    split; [|exact Hrel]. by apply (entries_rel_keys _ _ _ Hrel).
Qed.

(** ** The heap of history arrays only grows *)

Lemma heap_getSession phone now st : heap (getSession phone now st).2 = heap st.
Proof.
  unfold getSession.
  destruct (getSession_loop phone now (activeSessions st)) as [[[k s]|] m]; [|done].
  cbn [snd]. unfold resetSessionTimeout. by rewrite heap_setSessionTimeout.
Qed.

Lemma heap_getSessionById k now st : heap (getSessionById k now st).2 = heap st.
Proof.
  unfold getSessionById. destruct (jsmap_get k (activeSessions st)) as [s|]; [|done].
  destruct (isActive s); [|done].
  cbn [snd]. unfold resetSessionTimeout. by rewrite heap_setSessionTimeout.
Qed.

Lemma heap_updateSession k updates now st :
  heap (updateSession k updates now st).2 = heap st.
Proof.
  unfold updateSession. destruct (jsmap_get k (activeSessions st)) as [s|]; [|done].
  cbn [snd]. unfold resetSessionTimeout. by rewrite heap_setSessionTimeout.
Qed.

Lemma heap_cleanup_loop now keys : ∀ st cleanedCount,
  heap (cleanup_loop now keys st cleanedCount).2 = heap st.
Proof.
  induction keys as [|k keys IH]; intros st cleanedCount; simpl; [done|].
  destruct (jsmap_get k (activeSessions st)) as [s|]; [|apply IH].
  destruct (negb (isActive s) || bool_decide (now - lastActivity s > SESSION_TIMEOUT));
    [|apply IH].
  by rewrite IH, heap_endSession.
Qed.

Lemma heap_timerFires k now st : heap (timerFires k now st) = heap st.
Proof.
  unfold timerFires. destruct (sessionTimeouts st !! k); [|done].
  case_bool_decide; [apply heap_endSession|done].
Qed.

Lemma heap_createSession phone t_id t_last t_start st :
  heap (createSession phone t_id t_last t_start st).2 = heap st ++ [[]].
Proof. unfold createSession. cbn [snd]. by rewrite heap_setSessionTimeout. Qed.

Lemma heap_addMessageToSession k message now st :
  heap (addMessageToSession k message now st).2
  = match jsmap_get k (activeSessions st) with
    | Some session =>
        alter (λ h, h ++ [message]) (conversationHistory session) (heap st)
    | None => heap st
    end.
Proof.
  unfold addMessageToSession. destruct (jsmap_get k (activeSessions st)) as [s|]; [|done].
  cbn [snd]. unfold resetSessionTimeout. by rewrite heap_setSessionTimeout.
Qed.

(** One operation leaves every array of the heap in place, longer at its
    end at most. *)
Lemma step_heap op st (r : nat) (l : list Message) :
  heap st !! r = Some l → ∃ l', heap (step op st) !! r = Some (l ++ l').
Proof.
  intros Hr.
  assert (heap st !! r = Some (l ++ [])) as Hsame by by rewrite app_nil_r.
  destruct op as [phone t_id t_last t_start|phone now|k now|k updates now
                 |k message now|k|now|k now|messages]; cbn [step].
  - rewrite heap_createSession. exists []. by apply lookup_app_l_Some.
  - rewrite heap_getSession. by exists [].
  - rewrite heap_getSessionById. by exists [].
  - rewrite heap_updateSession. by exists [].
  - rewrite heap_addMessageToSession.
    destruct (jsmap_get k (activeSessions st)) as [s|]; [|by exists []].
    destruct (decide (conversationHistory s = r)) as [->|Hne].
    + exists [message]. by rewrite list_lookup_alter_eq, Hr.
    + exists []. by rewrite list_lookup_alter_ne.
  - rewrite heap_endSession. by exists [].
  - unfold cleanupExpiredSessions. rewrite heap_cleanup_loop. by exists [].
  - rewrite heap_timerFires. by exists [].
  - exists []. cbn [heap with_heap]. by apply lookup_app_l_Some.
Qed.

Lemma run_heap ops : ∀ st (r : nat) (l : list Message),
  heap st !! r = Some l → ∃ l', heap (run ops st) !! r = Some (l ++ l').
Proof.
  induction ops as [|op ops IH]; intros st r l Hr.
  - exists []. by rewrite app_nil_r.
  - rewrite run_cons. destruct (step_heap op st r l Hr) as [l1 H1].
    destruct (IH _ r _ H1) as [l2 H2]. exists (l1 ++ l2). by rewrite app_assoc.
Qed.

(** ** The sessionId of a stored session *)

Lemma carries_sessionId_allowed op :
  carries_sessionId op = false → op_allowed without_sessionId op.
Proof.
  destruct op; try done. simpl. intros H. apply bool_decide_eq_false in H.
  unfold without_sessionId. destruct (p_sessionId updates); [|done].
  exfalso. apply H. by eexists.
Qed.

Lemma step_sessionId_entries op st :
  carries_sessionId op = false →
  match op with
  | OpCreate phone t_id t_last t_start =>
      activeSessions (step op st)
      = jsmap_set (makeSessionId phone t_id)
          (createSession phone t_id t_last t_start st).1 (activeSessions st)
  | _ => entries_rel same_sessionId (activeSessions st) (activeSessions (step op st))
  end.
Proof.
  intros Hop. apply (step_entries same_sessionId without_sessionId); try done.
  - unfold same_sessionId. congruence.
  - unfold same_sessionId, without_sessionId. intros u s Hu. simpl. by rewrite Hu.
  - by apply carries_sessionId_allowed.
Qed.

(** One operation that is not an [updateSession] carrying a [sessionId]
    and does not create [k] anew keeps the [sessionId] stored under [k]. *)
Lemma step_sessionId op st k session :
  carries_sessionId op = false → creates k op = false →
  jsmap_get k (activeSessions st) = Some session →
  ∃ session', jsmap_get k (activeSessions (step op st)) = Some session'
              ∧ sessionId session' = sessionId session.
Proof.
  intros Hop Hcreate Hget. pose proof (step_sessionId_entries op st Hop) as Hstep.
  destruct op; try (by apply (entries_rel_get same_sessionId k _ _ _ Hstep Hget)).
  rewrite Hstep, jsmap_get_set. simpl in Hcreate.
  apply bool_decide_eq_false in Hcreate. rewrite decide_False by done. eauto.
Qed.

Lemma step_ids_agree op st :
  carries_sessionId op = false → ids_agree st → ids_agree (step op st).
Proof.
  intros Hop Hagree k session' Hget.
  pose proof (step_sessionId_entries op st Hop) as Hstep.
  destruct op;
    try (destruct (entries_rel_get_inv same_sessionId k _ _ _ Hstep Hget)
           as (session & Hbefore & Hsame);
         rewrite Hsame; by apply Hagree).
  rewrite Hstep, jsmap_get_set in Hget. case_decide as Hk.
  - injection Hget as <-. done.
  - by apply Hagree.
Qed.

(** C9, as stated, fails: [updateSession] with a [sessionId] field
    overwrites the [sessionId] of the stored session. *)
Lemma sessionId_immutable_counterexample :
  let rename :=
    {| p_sessionId := Some "whatsapp_+2348099999999_5"; p_phoneNumber := None;
       p_agent := None; p_conversationHistory := None; p_businessContext := None;
       p_lastActivity := None; p_startTime := None; p_isActive := None |} in
  sessionId <$> jsmap_get demo_id (activeSessions demo_store) = Some demo_id
  ∧ (updateSession demo_id rename 2000 demo_store).1 = true
  ∧ sessionId <$> jsmap_get demo_id
                    (activeSessions (updateSession demo_id rename 2000 demo_store).2)
    = Some "whatsapp_+2348099999999_5".
Proof. repeat split; reflexivity. Qed.

(** C9, amended: no store operation other than an [updateSession] whose
    partial-fields argument carries a [sessionId] field changes the
    [sessionId] of a stored session. Along any sequence of operations from
    the empty store none of which is such an [updateSession], every stored
    session has the [sessionId] under which [createSession] stored it; and
    from any store, a session that such a sequence does not replace (no
    [createSession] of the sequence generates its id again) is still stored
    with the [sessionId] it had. *)
Theorem sessionId_stable ops :
  Forall (λ op, carries_sessionId op = false) ops →
  (∀ k session,
     jsmap_get k (activeSessions (run ops empty_store)) = Some session →
     sessionId session = k)
  ∧ (∀ st k session,
       Forall (λ op, creates k op = false) ops →
       jsmap_get k (activeSessions st) = Some session →
       ∃ session', jsmap_get k (activeSessions (run ops st)) = Some session'
                   ∧ sessionId session' = sessionId session).
Proof.
  intros Hops. split.
  - assert (∀ st, ids_agree st → ids_agree (run ops st)) as Hrun.
    { induction Hops as [|op ops Hop _ IH]; intros st Hst; [done|].
      rewrite run_cons. by apply IH, step_ids_agree. }
    apply Hrun. intros k session Hget. discriminate.
  - induction Hops as [|op ops Hop _ IH]; intros st k session Hcreates Hget.
    + by exists session.
    + apply Forall_cons in Hcreates as [Hcreate Hcreates]. rewrite run_cons.
      destruct (step_sessionId op st k session Hop Hcreate Hget) as (s1 & Hget1 & Hid1).
      destruct (IH (step op st) k s1 Hcreates Hget1) as (s2 & Hget2 & Hid2).
      exists s2. split; [done|congruence].
Qed.

(** The amended C9 on a run that creates, appends, ends and sweeps. *)
Lemma sessionId_stable_witness :
  Forall (λ op, carries_sessionId op = false)
    [OpCreate demo_phone 1000 1000 1000; OpAddMessage demo_id hello 1200;
     OpEnd demo_id; OpCleanup 5000]
  ∧ (sessionId <$> jsmap_get demo_id
                     (activeSessions
                        (run [OpCreate demo_phone 1000 1000 1000;
                              OpAddMessage demo_id hello 1200;
                              OpEnd demo_id; OpCleanup 5000] empty_store))
     = Some demo_id)
  ∧ Forall (λ op, creates "whatsapp_+2348022222222_7" op = false)
      [OpCreate demo_phone 1000 1000 1000; OpAddMessage demo_id hello 1200;
       OpEnd demo_id; OpCleanup 5000]
  ∧ ∃ session',
      jsmap_get "whatsapp_+2348022222222_7"
        (activeSessions
           (run [OpCreate demo_phone 1000 1000 1000; OpAddMessage demo_id hello 1200;
                 OpEnd demo_id; OpCleanup 5000]
              (createSession "+2348022222222" 7 7 7 empty_store).2)) = Some session'
      ∧ sessionId session' = "whatsapp_+2348022222222_7".
Proof.
  assert (Forall (λ op, carries_sessionId op = false)
            [OpCreate demo_phone 1000 1000 1000; OpAddMessage demo_id hello 1200;
             OpEnd demo_id; OpCleanup 5000]) as Hops.
  { repeat constructor. }
  assert (Forall (λ op, creates "whatsapp_+2348022222222_7" op = false)
            [OpCreate demo_phone 1000 1000 1000; OpAddMessage demo_id hello 1200;
             OpEnd demo_id; OpCleanup 5000]) as Hcreates.
  { repeat constructor. }
  destruct (sessionId_stable _ Hops) as [Hagree Hkept].
  split; [exact Hops|]. split; [|split; [exact Hcreates|]].
  - destruct (jsmap_get demo_id
                (activeSessions
                   (run [OpCreate demo_phone 1000 1000 1000;
                         OpAddMessage demo_id hello 1200;
                         OpEnd demo_id; OpCleanup 5000] empty_store)))
      as [session|] eqn:Hget; [|discriminate Hget].
    simpl. f_equal. by apply Hagree.
  - apply (Hkept (createSession "+2348022222222" 7 7 7 empty_store).2
             "whatsapp_+2348022222222_7"
             (createSession "+2348022222222" 7 7 7 empty_store).1 Hcreates).
    reflexivity.
Defined.

(** ** P2: the history is append-only *)

Lemma carries_conversationHistory_allowed op :
  carries_conversationHistory op = false → op_allowed without_conversationHistory op.
Proof.
  destruct op; try done. simpl. intros H. apply bool_decide_eq_false in H.
  unfold without_conversationHistory. destruct (p_conversationHistory updates); [|done].
  exfalso. apply H. by eexists.
Qed.

(** One operation that is not an [updateSession] carrying a
    [conversationHistory] and does not create [k] anew leaves the session
    stored under [k] with the array it had. *)
Lemma step_history_array op st k session :
  carries_conversationHistory op = false → creates k op = false →
  jsmap_get k (activeSessions st) = Some session →
  ∃ session', jsmap_get k (activeSessions (step op st)) = Some session'
              ∧ conversationHistory session' = conversationHistory session.
Proof.
  intros Hop Hcreate Hget.
  assert (match op with
          | OpCreate phone t_id t_last t_start =>
              activeSessions (step op st)
              = jsmap_set (makeSessionId phone t_id)
                  (createSession phone t_id t_last t_start st).1 (activeSessions st)
          | _ => entries_rel same_history_array (activeSessions st)
                   (activeSessions (step op st))
          end) as Hstep.
  { apply (step_entries same_history_array without_conversationHistory); try done.
    - unfold same_history_array. congruence.
    - unfold same_history_array, without_conversationHistory. intros u s Hu.
      simpl. by rewrite Hu.
    - by apply carries_conversationHistory_allowed. }
  destruct op; try (by apply (entries_rel_get same_history_array k _ _ _ Hstep Hget)).
  rewrite Hstep, jsmap_get_set. simpl in Hcreate.
  apply bool_decide_eq_false in Hcreate. rewrite decide_False by done. eauto.
Qed.

Lemma run_history_array ops : ∀ st k session,
  Forall (λ op, carries_conversationHistory op = false ∧ creates k op = false) ops →
  jsmap_get k (activeSessions st) = Some session →
  ∃ session', jsmap_get k (activeSessions (run ops st)) = Some session'
              ∧ conversationHistory session' = conversationHistory session.
Proof.
  induction ops as [|op ops IH]; intros st k session Hops Hget.
  - by exists session.
  - apply Forall_cons in Hops as [[Hop Hcreate] Hops]. rewrite run_cons.
    destruct (step_history_array op st k session Hop Hcreate Hget) as (s1 & Hget1 & Href1).
    destruct (IH (step op st) k s1 Hops Hget1) as (s2 & Hget2 & Href2).
    exists s2. split; [done|congruence].
Qed.

(** A run of appends on a stored session whose history is an array of the
    heap: every call succeeds and the messages go to the end of the array. *)
Lemma addMessages_stored k calls : ∀ st session h,
  jsmap_get k (activeSessions st) = Some session →
  heap st !! conversationHistory session = Some h →
  (addMessages k calls st).1 = replicate (length calls) true
  ∧ ∃ session',
      jsmap_get k (activeSessions (addMessages k calls st).2) = Some session'
      ∧ conversationHistory session' = conversationHistory session
      ∧ heap (addMessages k calls st).2 !! conversationHistory session
        = Some (h ++ calls.*1).
Proof.
  induction calls as [|[message now] calls IH]; intros st session h Hget Hh.
  - simpl. split; [done|]. exists session. by rewrite app_nil_r.
  - cbn [addMessages].
    destruct (addMessageToSession_stored k session message now st Hget)
      as (Hok & Hget1 & Hheap1).
    destruct (addMessageToSession k message now st) as [ok st1]. cbn [fst snd] in *.
    subst ok.
    destruct (IH st1 (set_lastActivity now session) (h ++ [message]) Hget1)
      as (Hoks & session' & Hget' & Href' & Hheap').
    { rewrite Hheap1. cbn [conversationHistory set_lastActivity].
      by rewrite list_lookup_alter_eq, Hh. }
    destruct (addMessages k calls st1) as [oks st2].
    cbn [fst snd conversationHistory set_lastActivity] in *.
    split; [by rewrite Hoks|]. exists session'. split; [done|]. split; [done|].
    rewrite fmap_cons. cbn [fst]. rewrite Hheap'. by rewrite <- app_assoc.
Qed.

Lemma addMessages_missing k calls : ∀ st,
  jsmap_get k (activeSessions st) = None →
  addMessages k calls st = (replicate (length calls) false, st).
Proof.
  induction calls as [|[message now] calls IH]; intros st Hget; [done|].
  cbn [addMessages]. rewrite addMessageToSession_missing by done.
  by rewrite IH.
Qed.

Lemma appended_all_true calls :
  appended calls (replicate (length calls) true) = calls.*1.
Proof. induction calls as [|[message now] calls IH]; simpl; [done|]. by rewrite IH. Qed.

Lemma successes_all_true n : successes (replicate n true) = n.
Proof.
  unfold successes. induction n as [|n IH]; [done|]. cbn [replicate].
  rewrite filter_cons_True by done. cbn [length]. by rewrite IH.
Qed.

Lemma successes_all_false n : successes (replicate n false) = 0%nat.
Proof.
  unfold successes. induction n as [|n IH]; [done|]. cbn [replicate].
  by rewrite filter_cons_False.
Qed.

Lemma stored_history_Some k st h :
  stored_history k st = Some h ↔
  ∃ session, jsmap_get k (activeSessions st) = Some session
             ∧ heap st !! conversationHistory session = Some h.
Proof.
  unfold stored_history. destruct (jsmap_get k (activeSessions st)) as [s|]; simpl.
  - split; [by exists s|]. by intros (s' & [= <-] & ?).
  - split; [done|]. by intros (s' & ? & _).
Qed.

Example demo_talked_history :
  (addMessages demo_id demo_calls demo_store).1 = [true; true]
  ∧ stored_history demo_id demo_talked = Some [hello; hi_there]
  ∧ (history demo_talked <$> (getSession demo_phone 2000 demo_talked).1)
    = Some [hello; hi_there].
Proof. repeat split; reflexivity. Qed.

(** C6, as stated, fails in its second half: an [updateSession] whose
    partial-fields argument carries a [conversationHistory] (here the
    caller's empty array, the second array of the heap) replaces the history
    of the session, whose two messages are gone. *)
Lemma history_append_only_counterexample :
  let replace_history :=
    {| p_sessionId := None; p_phoneNumber := None; p_agent := None;
       p_conversationHistory := Some 1%nat; p_businessContext := None;
       p_lastActivity := None; p_startTime := None; p_isActive := None |} in
  let st := step (OpNewArray []) demo_talked in
  stored_history demo_id st = Some [hello; hi_there]
  ∧ (updateSession demo_id replace_history 2000 st).1 = true
  ∧ stored_history demo_id (updateSession demo_id replace_history 2000 st).2 = Some [].
Proof. repeat split; reflexivity. Qed.

(** C6, amended: for every stored session (with history [h]) and every
    finite sequence of [addMessageToSession] calls on it, every call succeeds
    and the history afterwards is [h] followed by exactly the messages of the
    calls, in call order, its length that of [h] plus the number of
    successful appends (for an id that is not stored every call fails and
    nothing changes). No store operation reorders or removes an element of a
    history array: every array of the heap keeps its elements, in order,
    under every sequence of operations; and a session keeps its array, so its
    history only grows at its end, under every sequence of operations none of
    which is an [updateSession] whose partial-fields argument carries a
    [conversationHistory] (or a [createSession] that generates the id of the
    session again and so replaces it). *)
Theorem history_append_only k st :
  (∀ h calls,
     stored_history k st = Some h →
     let r := addMessages k calls st in
     stored_history k r.2 = Some (h ++ appended calls r.1)
     ∧ appended calls r.1 = calls.*1
     ∧ successes r.1 = length calls
     ∧ length (h ++ appended calls r.1) = (length h + successes r.1)%nat)
  ∧ (∀ calls,
       jsmap_get k (activeSessions st) = None →
       addMessages k calls st = (replicate (length calls) false, st)
       ∧ successes (addMessages k calls st).1 = 0%nat)
  ∧ (∀ h ops,
       stored_history k st = Some h →
       Forall (λ op, carries_conversationHistory op = false ∧ creates k op = false) ops →
       ∃ l, stored_history k (run ops st) = Some (h ++ l))
  ∧ (∀ ops (r : nat) (l : list Message),
       heap st !! r = Some l → ∃ l', heap (run ops st) !! r = Some (l ++ l')).
Proof.
  split; [|split; [|split]].
  - intros h calls Hh r. apply stored_history_Some in Hh as (session & Hget & Hheap).
    destruct (addMessages_stored k calls st session h Hget Hheap)
      as (Hoks & session' & Hget' & Href' & Hheap').
    unfold r. rewrite Hoks, appended_all_true, successes_all_true.
    split; [|split; [done|split; [done|]]].
    + apply stored_history_Some. exists session'. split; [done|]. by rewrite Href'.
    + by rewrite length_app, length_fmap.
  - intros calls Hget. rewrite addMessages_missing by done.
    split; [done|]. apply successes_all_false.
  - intros h ops Hh Hops. apply stored_history_Some in Hh as (session & Hget & Hheap).
    destruct (run_history_array ops st k session Hops Hget) as (session' & Hget' & Href').
    destruct (run_heap ops st _ _ Hheap) as [l Hl].
    exists l. apply stored_history_Some. exists session'. split; [done|].
    by rewrite Href'.
  - intros ops r l. apply run_heap.
Qed.

(** The amended C6 on the scenario of the specification: two appends to a new
    session, appends to an unknown id, and a lookup, an end and a sweep after
    the appends. *)
Lemma history_append_only_witness :
  (stored_history demo_id demo_store = Some []
   ∧ stored_history demo_id demo_talked = Some [hello; hi_there]
   ∧ successes (addMessages demo_id demo_calls demo_store).1 = 2%nat)
  ∧ (jsmap_get "whatsapp_+2348022222222_7" (activeSessions demo_store) = None
     ∧ addMessages "whatsapp_+2348022222222_7" demo_calls demo_store
       = ([false; false], demo_store))
  ∧ (Forall (λ op, carries_conversationHistory op = false ∧ creates demo_id op = false)
       [OpGetSession demo_phone 2000; OpEnd demo_id; OpCleanup 5000]
     ∧ ∃ l, stored_history demo_id
              (run [OpGetSession demo_phone 2000; OpEnd demo_id; OpCleanup 5000] demo_talked)
            = Some ([hello; hi_there] ++ l)).
Proof.
  split; [|split].
  - split; [reflexivity|].
    destruct (proj1 (history_append_only demo_id demo_store) [] demo_calls eq_refl)
      as (Hhist & _ & Hcount & _).
    split; [exact Hhist|exact Hcount].
  - split; [reflexivity|].
    apply (proj1 (proj2 (history_append_only "whatsapp_+2348022222222_7" demo_store))
             demo_calls).
    reflexivity.
  - assert (Forall (λ op, carries_conversationHistory op = false
                          ∧ creates demo_id op = false)
              [OpGetSession demo_phone 2000; OpEnd demo_id; OpCleanup 5000]) as Hops.
    { repeat constructor. }
    split; [exact Hops|].
    apply (proj1 (proj2 (proj2 (history_append_only demo_id demo_talked)))
             [hello; hi_there] _ eq_refl Hops).
Defined.

(** * Further properties of the session store *)

(** ** getSessionById *)

Lemma getSessionById_active k now st session :
  jsmap_get k (activeSessions st) = Some session → isActive session = true →
  (getSessionById k now st).1 = Some (set_lastActivity now session)
  ∧ jsmap_get k (activeSessions (getSessionById k now st).2)
    = Some (set_lastActivity now session)
  ∧ (∀ k', k' ≠ k →
       jsmap_get k' (activeSessions (getSessionById k now st).2)
       = jsmap_get k' (activeSessions st))
  ∧ jsmap_keys (activeSessions (getSessionById k now st).2)
    = jsmap_keys (activeSessions st)
  ∧ heap (getSessionById k now st).2 = heap st
  ∧ sessionTimeouts (getSessionById k now st).2
    = <[k := now + SESSION_TIMEOUT]> (sessionTimeouts st).
Proof.
  unfold getSessionById. intros Hget Hactive. rewrite Hget, Hactive. cbn [fst snd].
  unfold resetSessionTimeout.
  rewrite activeSessions_setSessionTimeout, heap_setSessionTimeout,
    sessionTimeouts_setSessionTimeout.
  cbn [activeSessions heap sessionTimeouts with_sessions].
  split_and!; try done.
  - by rewrite jsmap_get_mutate_eq, Hget.
  - intros k' Hne. rewrite jsmap_get_mutate. by rewrite decide_False.
  - apply jsmap_keys_mutate.
Qed.

(** [getSessionById(id)] returns a session exactly when one is stored under
    [id] and is active: the stored session with [lastActivity] set to the
    clock reading, which is what the store holds under [id] afterwards, with
    its timer armed for [SESSION_TIMEOUT] from the reading; the sessions stored
    under other ids, the ids and the histories are as before. On an unknown
    or ended id it returns null and changes nothing. *)
Theorem getSessionById_hit_or_miss k now st :
  (∀ session,
     jsmap_get k (activeSessions st) = Some session → isActive session = true →
     (getSessionById k now st).1 = Some (set_lastActivity now session)
     ∧ jsmap_get k (activeSessions (getSessionById k now st).2)
       = Some (set_lastActivity now session)
     ∧ (∀ k', k' ≠ k →
          jsmap_get k' (activeSessions (getSessionById k now st).2)
          = jsmap_get k' (activeSessions st))
     ∧ jsmap_keys (activeSessions (getSessionById k now st).2)
       = jsmap_keys (activeSessions st)
     ∧ heap (getSessionById k now st).2 = heap st
     ∧ sessionTimeouts (getSessionById k now st).2
       = <[k := now + SESSION_TIMEOUT]> (sessionTimeouts st))
  ∧ ((∀ session, jsmap_get k (activeSessions st) = Some session →
                 isActive session = false) →
     getSessionById k now st = (None, st))
  ∧ ((getSessionById k now st).1 = None →
     ∀ session, jsmap_get k (activeSessions st) = Some session →
                isActive session = false).
Proof.
  split_and!.
  - intros session Hget Hactive. by apply getSessionById_active.
  - unfold getSessionById. intros Hended. destruct (jsmap_get k (activeSessions st)) as [session|]; [|done].
    by rewrite (Hended session eq_refl).
  - unfold getSessionById.
    destruct (jsmap_get k (activeSessions st)) as [session|]; [|done].
    destruct (isActive session) eqn:Hactive; [discriminate|].
    by intros _ s [= <-].
Qed.

(** The property on the session of the demo store, and on an unknown id. *)
Lemma getSessionById_hit_or_miss_witness :
  (getSessionById demo_id 2000 demo_store).1
    = Some (set_lastActivity 2000 (createSession demo_phone 1000 1000 1000 empty_store).1)
  ∧ getSessionById "whatsapp_+2348022222222_7" 2000 demo_store = (None, demo_store).
Proof.
  split.
  - apply (proj1 (getSessionById_hit_or_miss demo_id 2000 demo_store)
             (createSession demo_phone 1000 1000 1000 empty_store).1);
      reflexivity.
  - apply (proj1 (proj2 (getSessionById_hit_or_miss
                           "whatsapp_+2348022222222_7" 2000 demo_store))).
    intros session Hget. discriminate Hget.
Defined.

(** Whatever the store holds, the session [createSession] returns is the
    one [getSessionById] finds under the returned [sessionId] right after
    (with [lastActivity] refreshed): the lookup by id, unlike the lookup by
    phone number, cannot be shadowed by an older session. *)
Theorem getSessionById_after_create phone t_id t_last t_start now st :
  let created := (createSession phone t_id t_last t_start st).1 in
  let st1 := (createSession phone t_id t_last t_start st).2 in
  (getSessionById (sessionId created) now st1).1 = Some (set_lastActivity now created)
  ∧ jsmap_get (sessionId created) (activeSessions (getSessionById (sessionId created) now st1).2)
    = Some (set_lastActivity now created).
Proof.
  intros created st1.
  destruct (getSessionById_active (sessionId created) now st1 created)
    as (Hres & Hstored & _); [apply createSession_stored|done|].
  by split.
Qed.

(** ** The effect of one operation on a stored session *)

Lemma jsmap_get_app {V} (k : string) (m1 m2 : list (string * V)) :
  jsmap_get k (m1 ++ m2)
  = match jsmap_get k m1 with Some v => Some v | None => jsmap_get k m2 end.
Proof.
  induction m1 as [|[k0 v0] m1 IH]; simpl; [done|]. by case_decide.
Qed.

Lemma getSession_effect phone now st k s :
  jsmap_get k (activeSessions st) = Some s →
  ∃ s', jsmap_get k (activeSessions (getSession phone now st).2) = Some s'
        ∧ (s' = s ∨ (phoneNumber s = phone ∧ isActive s = true
                     ∧ s' = set_lastActivity now s)).
Proof.
  intros Hget. unfold getSession.
  pose proof (getSession_loop_inv phone now (activeSessions st)) as Hinv.
  destruct (getSession_loop phone now (activeSessions st)) as [[[k0 s0]|] m].
  - destruct Hinv as (pre & old & post & Hst & -> & -> & Hp & Ha & _).
    cbn [snd]. unfold resetSessionTimeout. rewrite activeSessions_setSessionTimeout.
    cbn [activeSessions with_sessions]. rewrite Hst in Hget.
    rewrite jsmap_get_app in Hget |- *.
    destruct (jsmap_get k pre) as [v|]; [by eauto|]. simpl in *.
    case_decide; [|by eauto]. injection Hget as <-. eauto 6.
  - cbn [snd]. eauto.
Qed.

Lemma cleanup_effect now st k s :
  jsmap_get k (activeSessions st) = Some s →
  ∃ s', jsmap_get k (activeSessions (cleanupExpiredSessions now st).2) = Some s'
        ∧ (s' = s ∨ s' = set_isActive false s).
Proof.
  intros Hget.
  apply (entries_rel_get (λ s s', s' = s ∨ s' = set_isActive false s) k
           (activeSessions st)); [|done].
  apply entries_rel_cleanup_loop.
  - by left.
  - intros s1 s2 s3 [->| ->] [->| ->]; auto.
  - by right.
Qed.

Lemma endSession_effect id st k s :
  jsmap_get k (activeSessions st) = Some s →
  jsmap_get k (activeSessions (endSession id st).2)
  = Some (if decide (id = k) then set_isActive false s else s).
Proof.
  intros Hget. rewrite endSession_sessions, jsmap_get_mutate, Hget.
  by case_decide.
Qed.

(** The session stored under [k] after one operation that does not create
    [k] anew. *)
Lemma step_session op st k s :
  creates k op = false →
  jsmap_get k (activeSessions st) = Some s →
  ∃ s', jsmap_get k (activeSessions (step op st)) = Some s' ∧ effect_on op k s s'.
Proof.
  intros Hcreate Hget.
  destruct op as [phone t_id t_last t_start|phone now|id now|id updates now
                 |id message now|id|now|id now|messages]; cbn [step effect_on].
  - rewrite createSession_sessions, jsmap_get_set. simpl in Hcreate.
    apply bool_decide_eq_false in Hcreate. rewrite decide_False by done. eauto.
  - by apply getSession_effect.
  - unfold getSessionById.
    destruct (jsmap_get id (activeSessions st)) as [s0|] eqn:Hid.
    + destruct (isActive s0) eqn:Hactive.
      * cbn [snd]. unfold resetSessionTimeout. rewrite activeSessions_setSessionTimeout.
        cbn [activeSessions with_sessions]. rewrite jsmap_get_mutate, Hget.
        case_decide; subst; [|by eauto].
        assert (s0 = s) as -> by congruence. rewrite Hactive. eauto.
      * cbn [snd]. exists s. split; [done|]. case_decide; subst; [|done].
        assert (s0 = s) as -> by congruence. by rewrite Hactive.
    + cbn [snd]. exists s. split; [done|]. case_decide; subst; [congruence|done].
  - unfold updateSession.
    destruct (jsmap_get id (activeSessions st)) as [s0|] eqn:Hid.
    + cbn [snd]. unfold resetSessionTimeout. rewrite activeSessions_setSessionTimeout.
      cbn [activeSessions with_sessions]. rewrite jsmap_get_mutate, Hget.
      case_decide; eauto.
    + cbn [snd]. exists s. split; [done|]. case_decide; subst; [congruence|done].
  - unfold addMessageToSession.
    destruct (jsmap_get id (activeSessions st)) as [s0|] eqn:Hid.
    + cbn [snd]. unfold resetSessionTimeout. rewrite activeSessions_setSessionTimeout.
      cbn [activeSessions with_sessions with_heap]. rewrite jsmap_get_mutate, Hget.
      case_decide; eauto.
    + cbn [snd]. exists s. split; [done|]. case_decide; subst; [congruence|done].
  - rewrite (endSession_effect id st k s Hget). case_decide; eauto.
  - by apply cleanup_effect.
  - unfold timerFires. destruct (sessionTimeouts st !! id) as [deadline|].
    + case_bool_decide.
      * rewrite (endSession_effect id st k s Hget). case_decide; eauto.
      * exists s. split; [done|]. case_decide; auto.
    + exists s. split; [done|]. case_decide; auto.
  - eauto.
Qed.

Lemma step_keys_kept op st :
  match op with
  | OpCreate _ _ _ _ => True
  | _ => jsmap_keys (activeSessions (step op st)) = jsmap_keys (activeSessions st)
  end.
Proof.
  pose proof (step_entries (λ _ _, True) (λ _, True)
                (λ _, I) (λ _ _ _ _ _, I) (λ _ _, I) (λ _, I) (λ _ _ _, I) op st) as Hstep.
  assert (op_allowed (λ _, True) op) as Hallowed by by destruct op.
  specialize (Hstep Hallowed).
  destruct op; try done; by apply (entries_rel_keys (λ _ _, True)).
Qed.

(** No operation stores a session under an id it does not create. *)
Lemma step_absent op st k :
  creates k op = false →
  jsmap_get k (activeSessions st) = None →
  jsmap_get k (activeSessions (step op st)) = None.
Proof.
  intros Hcreate Hget. pose proof (step_keys_kept op st) as Hkeys.
  destruct op as [phone t_id t_last t_start|phone now|id now|id updates now
                 |id message now|id|now|id now|messages];
    try (apply jsmap_get_None; rewrite Hkeys; by apply jsmap_get_None).
  cbn [step]. rewrite createSession_sessions, jsmap_get_set. simpl in Hcreate.
  apply bool_decide_eq_false in Hcreate. by rewrite decide_False.
Qed.

(** ** Ended sessions stay ended *)

Lemma effect_on_ended op k s s' :
  carries_isActive op = false → effect_on op k s s' →
  isActive s = false → isActive s' = false.
Proof.
  intros Hop Heff Hended.
  destruct op as [phone t_id t_last t_start|phone now|id now|id updates now
                 |id message now|id|now|id now|messages]; cbn [effect_on] in Heff;
    repeat case_decide; try rewrite Hended in Heff;
    try (destruct Heff as [->|Heff]); try (destruct Heff as (_ & Hact & _));
    subst; try done; try congruence.
  simpl in Hop. apply bool_decide_eq_false in Hop.
  simpl. destruct (p_isActive updates); [|done]. exfalso. apply Hop. by eexists.
Qed.

(** An ended session stays ended, and [getSessionById] keeps answering
    not-found for it, under every sequence of operations none of which is an
    [updateSession] whose partial-fields argument carries [isActive] (or a
    [createSession] that generates the id again): lookups, appends, other
    updates, timers and sweeps do not bring a session back. *)
Theorem ended_stays_ended ops : ∀ st k s,
  Forall (λ op, carries_isActive op = false ∧ creates k op = false) ops →
  jsmap_get k (activeSessions st) = Some s → isActive s = false →
  ∃ s', jsmap_get k (activeSessions (run ops st)) = Some s'
        ∧ isActive s' = false
        ∧ ∀ now, getSessionById k now (run ops st) = (None, run ops st).
Proof.
  induction ops as [|op ops IH]; intros st k s Hops Hget Hended.
  - exists s. split; [done|]. split; [done|]. intros now.
    cbn [run fold_left]. unfold getSessionById. by rewrite Hget, Hended.
  - apply Forall_cons in Hops as [[Hop Hcreate] Hops]. rewrite run_cons.
    destruct (step_session op st k s Hcreate Hget) as (s1 & Hget1 & Heff).
    apply (IH (step op st) k s1 Hops Hget1).
    by apply (effect_on_ended op k s s1).
Qed.

(** The property on the ended session of the demo store, under an append,
    an update of the business context, a lookup by phone and a sweep. *)
Lemma ended_stays_ended_witness :
  let set_industry :=
    {| p_sessionId := None; p_phoneNumber := None; p_agent := None;
       p_conversationHistory := None;
       p_businessContext :=
         Some {| name := None; industry := Some "retail"; trialStatus := prospect;
                 signupDate := None; lastPayment := None |};
       p_lastActivity := None; p_startTime := None; p_isActive := None |} in
  let ops := [OpAddMessage demo_id hello 1200; OpUpdate demo_id set_industry 1300;
              OpGetSession demo_phone 1400; OpCleanup 5000] in
  ∃ s', jsmap_get demo_id (activeSessions (run ops demo_ended)) = Some s'
        ∧ isActive s' = false
        ∧ ∀ now, getSessionById demo_id now (run ops demo_ended)
                 = (None, run ops demo_ended).
Proof.
  intros set_industry ops.
  apply (ended_stays_ended ops demo_ended demo_id
           (set_isActive false (createSession demo_phone 1000 1000 1000 empty_store).1)).
  - repeat constructor.
  - reflexivity.
  - reflexivity.
Defined.

(** ** lastActivity follows the clock *)

Lemma effect_on_lastActivity op k s s' :
  effect_on op k s s' →
  lastActivity s' = lastActivity s ∨ op_reading op = Some (lastActivity s').
Proof.
  intros Heff.
  destruct op as [phone t_id t_last t_start|phone now|id now|id updates now
                 |id message now|id|now|id now|messages];
    cbn [effect_on op_reading] in *;
    repeat case_decide; try (destruct (isActive s));
    try (destruct Heff as [->|Heff]); try (destruct Heff as (_ & _ & ->));
    subst; auto.
Qed.

Lemma clock_monotone_weaken ops t t' :
  t ≤ t' → clock_monotone t' ops → clock_monotone t ops.
Proof.
  revert t t'. induction ops as [|op ops IH]; intros t t' Hle; simpl; [done|].
  destruct (op_reading op) as [now|].
  - intros [Hnow Hrest]. split; [lia|done].
  - by apply IH.
Qed.

(** When the clock does not go backwards along a run of operations (each
    reading is at least the one before, and at least the [lastActivity] of
    the session at the start), the [lastActivity] of a stored session never
    decreases. [updateSession] cannot set it: the stored [lastActivity] after
    an update is the clock reading, whatever [lastActivity] field the
    partial argument carries. *)
Theorem lastActivity_follows_clock ops : ∀ st k s,
  Forall (λ op, creates k op = false) ops →
  jsmap_get k (activeSessions st) = Some s →
  clock_monotone (lastActivity s) ops →
  (∃ s', jsmap_get k (activeSessions (run ops st)) = Some s'
         ∧ lastActivity s ≤ lastActivity s')
  ∧ ∀ updates now,
      lastActivity <$> jsmap_get k (activeSessions (updateSession k updates now st).2)
      = Some now.
Proof.
  intros st k s Hops Hget Hclock. split.
  - revert st s Hops Hget Hclock.
    induction ops as [|op ops IH]; intros st s Hops Hget Hclock.
    + exists s. split; [done|lia].
    + apply Forall_cons in Hops as [Hcreate Hops]. rewrite run_cons.
      destruct (step_session op st k s Hcreate Hget) as (s1 & Hget1 & Heff).
      apply effect_on_lastActivity in Heff. simpl in Hclock.
      destruct (IH (step op st) s1 Hops Hget1) as (s2 & Hget2 & Hle).
      * destruct Heff as [Hsame|Hread].
        -- rewrite Hsame. destruct (op_reading op) as [now|]; [|done].
           destruct Hclock as [Hnow Hrest]. by apply (clock_monotone_weaken ops _ now).
        -- rewrite Hread in Hclock. by destruct Hclock.
      * exists s2. split; [done|].
        destruct Heff as [Hsame|Hread]; [lia|].
        rewrite Hread in Hclock. destruct Hclock as [Hnow _]. lia.
  - intros updates now.
    destruct (updateSession_stored k s updates now st Hget) as (_ & -> & _). done.
Qed.

(** The property on the demo store: the session created at 1000 is read at
    2000, updated at 3000 with a [lastActivity] field of 5, and swept. *)
Lemma lastActivity_follows_clock_witness :
  let backdate :=
    {| p_sessionId := None; p_phoneNumber := None; p_agent := None;
       p_conversationHistory := None; p_businessContext := None;
       p_lastActivity := Some 5; p_startTime := None; p_isActive := None |} in
  let ops := [OpGetSession demo_phone 2000; OpUpdate demo_id backdate 3000;
              OpCleanup 4000] in
  (∃ s', jsmap_get demo_id (activeSessions (run ops demo_store)) = Some s'
         ∧ 1000 ≤ lastActivity s')
  ∧ lastActivity <$> jsmap_get demo_id
                       (activeSessions (updateSession demo_id backdate 3000 demo_store).2)
    = Some 3000.
Proof.
  intros backdate ops.
  destruct (lastActivity_follows_clock ops demo_store demo_id
              (createSession demo_phone 1000 1000 1000 empty_store).1)
    as [Hle Hupdate].
  - repeat constructor.
  - reflexivity.
  - simpl. lia.
  - split; [exact Hle|apply Hupdate].
Defined.

(** ** Timers *)

Lemma sessionTimeouts_createSession phone t_id t_last t_start st :
  sessionTimeouts (createSession phone t_id t_last t_start st).2
  = <[makeSessionId phone t_id := t_start + SESSION_TIMEOUT]> (sessionTimeouts st).
Proof. unfold createSession. cbn [snd]. by rewrite sessionTimeouts_setSessionTimeout. Qed.

Lemma sessionTimeouts_getSession phone now st :
  sessionTimeouts (getSession phone now st).2
  = match (getSession_loop phone now (activeSessions st)).1 with
    | Some (k, _) => <[k := now + SESSION_TIMEOUT]> (sessionTimeouts st)
    | None => sessionTimeouts st
    end.
Proof.
  unfold getSession.
  destruct (getSession_loop phone now (activeSessions st)) as [[[k s]|] m]; [|done].
  cbn [fst snd]. unfold resetSessionTimeout. by rewrite sessionTimeouts_setSessionTimeout.
Qed.

Lemma sessionTimeouts_getSessionById k now st :
  sessionTimeouts (getSessionById k now st).2
  = match jsmap_get k (activeSessions st) with
    | Some s => if isActive s then <[k := now + SESSION_TIMEOUT]> (sessionTimeouts st)
                else sessionTimeouts st
    | None => sessionTimeouts st
    end.
Proof.
  unfold getSessionById. destruct (jsmap_get k (activeSessions st)) as [s|]; [|done].
  destruct (isActive s); [|done].
  cbn [snd]. unfold resetSessionTimeout. by rewrite sessionTimeouts_setSessionTimeout.
Qed.

Lemma is_Some_insert_keep (m : gmap string Z) (k k' : string) (d : Z) :
  is_Some (m !! k') → is_Some (<[k := d]> m !! k').
Proof.
  intros Hk'. destruct (decide (k = k')) as [->|Hne].
  - rewrite lookup_insert_eq. by eexists.
  - by rewrite lookup_insert_ne.
Qed.

Lemma is_Some_insert_inv (m : gmap string Z) (k k' : string) (d : Z) :
  is_Some (<[k := d]> m !! k') → k = k' ∨ is_Some (m !! k').
Proof.
  destruct (decide (k = k')) as [->|Hne]; [by left|].
  rewrite lookup_insert_ne by done. by right.
Qed.

Lemma is_Some_delete_inv (m : gmap string Z) (k k' : string) :
  is_Some (delete k m !! k') → k ≠ k' ∧ is_Some (m !! k').
Proof.
  destruct (decide (k = k')) as [->|Hne].
  - rewrite lookup_delete_eq. by intros [? ?].
  - by rewrite lookup_delete_ne.
Qed.

Lemma endSession_timers_armed k st : timers_armed st → timers_armed (endSession k st).2.
Proof.
  intros Harmed k' s' Hget' Hactive'.
  rewrite endSession_sessions, jsmap_get_mutate in Hget'.
  rewrite sessionTimeouts_endSession.
  destruct (decide (k = k')) as [->|Hne].
  - destruct (jsmap_get k' (activeSessions st)) as [s|]; [|done].
    injection Hget' as <-. discriminate Hactive'.
  - destruct (jsmap_get k (activeSessions st)).
    + rewrite lookup_delete_ne by done. by apply (Harmed k' s').
    + by apply (Harmed k' s').
Qed.

Lemma endSession_timers_owned k st : timers_owned st → timers_owned (endSession k st).2.
Proof.
  intros Howned k' Htimer. rewrite endSession_sessions, jsmap_get_mutate.
  rewrite sessionTimeouts_endSession in Htimer.
  assert (is_Some (sessionTimeouts st !! k')) as Hbefore.
  { destruct (jsmap_get k (activeSessions st)); [|done].
    by apply is_Some_delete_inv in Htimer as [_ ?]. }
  apply Howned in Hbefore as [s Hs]. rewrite Hs. case_decide; by eexists.
Qed.

Lemma cleanup_loop_timers now keys : ∀ st cleanedCount,
  timers_armed st ∧ timers_owned st →
  timers_armed (cleanup_loop now keys st cleanedCount).2
  ∧ timers_owned (cleanup_loop now keys st cleanedCount).2.
Proof.
  induction keys as [|k keys IH]; intros st cleanedCount [Harmed Howned]; simpl; [done|].
  destruct (jsmap_get k (activeSessions st)) as [s|]; [|by apply IH].
  destruct (negb (isActive s) || bool_decide (now - lastActivity s > SESSION_TIMEOUT));
    [|by apply IH].
  apply IH. split; [by apply endSession_timers_armed|by apply endSession_timers_owned].
Qed.

Lemma timerFires_timers k now st :
  timers_armed st ∧ timers_owned st →
  timers_armed (timerFires k now st) ∧ timers_owned (timerFires k now st).
Proof.
  intros [Harmed Howned]. unfold timerFires.
  destruct (sessionTimeouts st !! k); [|done]. case_bool_decide; [|done].
  split; [by apply endSession_timers_armed|by apply endSession_timers_owned].
Qed.

Lemma jsmap_get_Some_key {V} (k : string) (m : list (string * V)) :
  is_Some (jsmap_get k m) ↔ k ∈ jsmap_keys m.
Proof.
  destruct (jsmap_get k m) as [v|] eqn:E.
  - split; [|by eauto]. intros _.
    destruct (decide (k ∈ jsmap_keys m)) as [|Hn]; [done|].
    apply jsmap_get_None in Hn. congruence.
  - split; [by intros [? ?]|]. intros Hin. by apply jsmap_get_None in E.
Qed.

Lemma stored_kept op st k :
  is_Some (jsmap_get k (activeSessions st)) →
  is_Some (jsmap_get k (activeSessions (step op st))).
Proof.
  rewrite !jsmap_get_Some_key. intros Hin.
  destruct (step_keys op st) as [->|(k0 & _ & ->)]; [done|].
  apply elem_of_app. by left.
Qed.

Lemma getSession_loop_hit_key phone now m k s :
  (getSession_loop phone now m).1 = Some (k, s) → is_Some (jsmap_get k m).
Proof.
  intros Hhit. pose proof (getSession_loop_inv phone now m) as Hinv.
  destruct (getSession_loop phone now m) as [[[k0 s0]|] m']; [|done].
  injection Hhit as -> ->.
  destruct Hinv as (pre & old & post & -> & _).
  apply jsmap_get_Some_key. unfold jsmap_keys. rewrite fmap_app, fmap_cons.
  apply elem_of_app. right. apply elem_of_cons. by left.
Qed.

(** Where an armed timer comes from: it was armed before, or the operation
    armed it for a session it found or stored. *)
Lemma step_timer_origin op st k :
  is_Some (sessionTimeouts (step op st) !! k) →
  is_Some (sessionTimeouts st !! k)
  ∨ is_Some (jsmap_get k (activeSessions (step op st))).
Proof.
  intros Htimer.
  destruct op as [phone t_id t_last t_start|phone now|id now|id updates now
                 |id message now|id|now|id now|messages]; cbn [step] in *.
  - rewrite sessionTimeouts_createSession in Htimer.
    apply is_Some_insert_inv in Htimer as [<-|?]; [right|by left].
    rewrite createSession_stored. by eexists.
  - rewrite sessionTimeouts_getSession in Htimer.
    destruct (getSession_loop phone now (activeSessions st)).1 as [[k0 s0]|] eqn:Hhit;
      [|by left].
    apply is_Some_insert_inv in Htimer as [<-|?]; [right|by left].
    apply (stored_kept (OpGetSession phone now)).
    by apply (getSession_loop_hit_key phone now _ _ s0).
  - rewrite sessionTimeouts_getSessionById in Htimer.
    destruct (jsmap_get id (activeSessions st)) as [s|] eqn:Hid; [|by left].
    destruct (isActive s); [|by left].
    apply is_Some_insert_inv in Htimer as [<-|?]; [right|by left].
    apply (stored_kept (OpGetSessionById id now)). by rewrite Hid.
  - rewrite sessionTimeouts_updateSession in Htimer.
    destruct (jsmap_get id (activeSessions st)) as [s|] eqn:Hid; [|by left].
    apply is_Some_insert_inv in Htimer as [<-|?]; [right|by left].
    apply (stored_kept (OpUpdate id updates now)). by rewrite Hid.
  - rewrite sessionTimeouts_addMessageToSession in Htimer.
    destruct (jsmap_get id (activeSessions st)) as [s|] eqn:Hid; [|by left].
    apply is_Some_insert_inv in Htimer as [<-|?]; [right|by left].
    apply (stored_kept (OpAddMessage id message now)). by rewrite Hid.
  - rewrite sessionTimeouts_endSession in Htimer. left.
    destruct (jsmap_get id (activeSessions st)); [|done].
    by apply is_Some_delete_inv in Htimer as [_ ?].
  - left. revert Htimer. unfold cleanupExpiredSessions.
    generalize (jsmap_keys (activeSessions st)) 0%nat. intros keys. revert st.
    induction keys as [|k0 keys IH]; intros st n; simpl; [done|].
    destruct (jsmap_get k0 (activeSessions st)) as [s|] eqn:Hk0; [|apply IH].
    destruct (negb (isActive s) || bool_decide (now - lastActivity s > SESSION_TIMEOUT));
      [|apply IH].
    intros Htimer. apply IH in Htimer.
    rewrite sessionTimeouts_endSession, Hk0 in Htimer.
    by apply is_Some_delete_inv in Htimer as [_ ?].
  - left. unfold timerFires in Htimer.
    destruct (sessionTimeouts st !! id) eqn:Hid; [|done].
    case_bool_decide; [|done].
    rewrite sessionTimeouts_endSession in Htimer.
    destruct (jsmap_get id (activeSessions st)); [|done].
    by apply is_Some_delete_inv in Htimer as [_ ?].
  - by left.
Qed.

Lemma step_timers_owned op st : timers_owned st → timers_owned (step op st).
Proof.
  intros Howned k Htimer.
  apply step_timer_origin in Htimer as [Hbefore|Hstored]; [|done].
  by apply stored_kept, Howned.
Qed.

(** A timer that is armed stays armed under the operations that end no
    session. *)
Lemma step_timer_kept op st k :
  match op with OpEnd _ | OpCleanup _ | OpTimerFires _ _ => False | _ => True end →
  is_Some (sessionTimeouts st !! k) → is_Some (sessionTimeouts (step op st) !! k).
Proof.
  intros Hop Htimer.
  destruct op as [phone t_id t_last t_start|phone now|id now|id updates now
                 |id message now|id|now|id now|messages]; cbn [step]; try done.
  - rewrite sessionTimeouts_createSession. by apply is_Some_insert_keep.
  - rewrite sessionTimeouts_getSession.
    destruct (getSession_loop phone now (activeSessions st)).1 as [[k0 s0]|]; [|done].
    by apply is_Some_insert_keep.
  - rewrite sessionTimeouts_getSessionById.
    destruct (jsmap_get id (activeSessions st)) as [s|]; [|done].
    destruct (isActive s); [|done]. by apply is_Some_insert_keep.
  - rewrite sessionTimeouts_updateSession.
    destruct (jsmap_get id (activeSessions st)) as [s|]; [|done].
    by apply is_Some_insert_keep.
  - rewrite sessionTimeouts_addMessageToSession.
    destruct (jsmap_get id (activeSessions st)) as [s|]; [|done].
    by apply is_Some_insert_keep.
Qed.

Lemma step_timers_armed op st :
  timers_armed st ∧ timers_owned st → timers_armed (step op st).
Proof.
  intros [Harmed Howned].
  assert (match op with
          | OpEnd _ | OpCleanup _ | OpTimerFires _ _ => False
          | _ => True
          end
          ∨ ¬ match op with
              | OpEnd _ | OpCleanup _ | OpTimerFires _ _ => False
              | _ => True
              end) as [Hop|Hop] by (destruct op; auto).
  - intros k s' Hget' Hactive'.
    destruct (creates k op) eqn:Hcreate.
    { destruct op; try done. simpl in Hcreate. apply bool_decide_eq_true in Hcreate.
      subst k. cbn [step]. rewrite sessionTimeouts_createSession, lookup_insert_eq.
      by eexists. }
    destruct (jsmap_get k (activeSessions st)) as [s|] eqn:Hget.
    + destruct (step_session op st k s Hcreate Hget) as (s'' & Hget'' & Heff).
      assert (s'' = s') as -> by congruence.
      destruct (isActive s) eqn:Hactive.
      { apply step_timer_kept; [done|]. by apply (Harmed k s). }
      (* the session was ended: only an update of [k] makes it active *)
      destruct op as [phone t_id t_last t_start|phone now|id now|id updates now
                     |id message now|id|now|id now|messages];
        cbn [effect_on] in Heff; try done;
        repeat case_decide; try rewrite Hactive in Heff;
        try (destruct Heff as [->|Heff]); try (destruct Heff as (_ & Hact & _));
        subst; try congruence; try (simpl in Hactive'; congruence).
      cbn [step]. rewrite sessionTimeouts_updateSession, Hget, lookup_insert_eq.
      by eexists.
    + by rewrite (step_absent op st k Hcreate Hget) in Hget'.
  - destruct op; try (exfalso; by apply Hop); cbn [step].
    + by apply endSession_timers_armed.
    + by apply cleanup_loop_timers.
    + by apply timerFires_timers.
Qed.

(** In every store reachable by the operations, the timer callbacks and the
    sweeps, every active session has its expiration timer armed, and every
    armed timer is the timer of a stored session: no active session is left
    without a timer, and no timer outlives the map entry it would end. *)
Theorem timers_match_sessions st :
  reachable st →
  (∀ k session,
     jsmap_get k (activeSessions st) = Some session → isActive session = true →
     is_Some (sessionTimeouts st !! k))
  ∧ (∀ k, is_Some (sessionTimeouts st !! k) →
          is_Some (jsmap_get k (activeSessions st))).
Proof.
  intros [ops ->]. change (timers_armed (run ops empty_store)
                           ∧ timers_owned (run ops empty_store)).
  assert (timers_armed empty_store ∧ timers_owned empty_store) as Hinit.
  { split; [intros k s Hget; discriminate Hget|].
    intros k [d Hd]. cbn [sessionTimeouts empty_store] in Hd.
    by rewrite lookup_empty in Hd. }
  revert Hinit. generalize empty_store.
  induction ops as [|op ops IH]; intros st Hst; [done|].
  rewrite run_cons. apply IH.
  split; [by apply step_timers_armed|by apply step_timers_owned; destruct Hst].
Qed.

(** The property on the store after a session is created, read and given
    a message. *)
Lemma timers_match_sessions_witness :
  reachable demo_talked
  ∧ is_Some (sessionTimeouts demo_talked !! demo_id).
Proof.
  assert (reachable demo_talked) as Hreach.
  { exists [OpCreate demo_phone 1000 1000 1000; OpAddMessage demo_id hello 1200;
            OpAddMessage demo_id hi_there 1600]. reflexivity. }
  split; [exact Hreach|].
  destruct (jsmap_get demo_id (activeSessions demo_talked)) as [session|] eqn:Hget;
    [|discriminate Hget].
  apply (proj1 (timers_match_sessions demo_talked Hreach) demo_id session Hget).
  by injection Hget as <-.
Defined.

(** ** getSessionStats: the counts by trial status *)

Lemma trialStatus_name_inj s1 s2 : trialStatus_name s1 = trialStatus_name s2 → s1 = s2.
Proof. by destruct s1, s2. Qed.

Lemma count_status_cons status s sessions :
  count_status status (s :: sessions)
  = ((if decide (trialStatus (businessContext s) = status) then 1 else 0)
     + count_status status sessions)%nat.
Proof.
  unfold count_status. case_decide.
  - by rewrite filter_cons_True.
  - by rewrite filter_cons_False.
Qed.

Lemma count_status_total sessions :
  (count_status prospect sessions + count_status trial sessions
   + count_status paid sessions + count_status expired sessions)%nat
  = length sessions.
Proof.
  induction sessions as [|s sessions IH]; [done|].
  rewrite !count_status_cons. cbn [length]. rewrite <- IH.
  destruct (trialStatus (businessContext s)); repeat case_decide; try done; lia.
Qed.

(** The [reduce] of [getSessionStats], from any accumulator. *)
Lemma sessionsByStatus_fold sessions : ∀ (acc : gmap string nat) (key : string),
  fold_left
    (λ (acc : gmap string nat) session,
       let status := trialStatus_name (trialStatus (businessContext session)) in
       <[status := (default 0 (acc !! status) + 1)%nat]> acc)
    sessions acc !! key
  = match filter (λ s, trialStatus_name (trialStatus (businessContext s)) = key) sessions
    with
    | [] => acc !! key
    | matching => Some (default 0 (acc !! key) + length matching)%nat
    end.
Proof.
  induction sessions as [|s sessions IH]; intros acc key; [done|].
  cbn [fold_left]. rewrite IH.
  destruct (decide (trialStatus_name (trialStatus (businessContext s)) = key)) as [Hk|Hk].
  - rewrite filter_cons_True by done. rewrite Hk, lookup_insert_eq. cbn [default length].
    destruct (filter _ sessions) as [|s1 rest]; cbn [length]; unfold id; f_equal; lia.
  - rewrite filter_cons_False by done. rewrite lookup_insert_ne by done. done.
Qed.

Lemma filter_status_name status (sessions : list ConversationSession) :
  filter (λ s, trialStatus_name (trialStatus (businessContext s))
               = trialStatus_name status) sessions
  = filter (λ s, trialStatus (businessContext s) = status) sessions.
Proof.
  induction sessions as [|s sessions IH]; [done|].
  destruct (decide (trialStatus (businessContext s) = status)) as [Heq|Hne].
  - rewrite !filter_cons_True by (done || by rewrite Heq). by rewrite IH.
  - rewrite !filter_cons_False; [done|done|].
    intros Hname. by apply trialStatus_name_inj in Hname.
Qed.

(** [getSessionStats().sessionsByStatus] has, for each trial status that
    some stored session has, the number of stored sessions (active or not)
    with that status, and no entry for a status no session has or for any
    other key; its counts add up to [totalSessions], and [activeSessions] is
    at most [totalSessions]. *)
Theorem sessionsByStatus_counts st :
  let stats := getSessionStats st in
  let sessions := jsmap_values (activeSessions st) in
  (∀ status,
     Stats.sessionsByStatus stats !! trialStatus_name status
     = if decide (count_status status sessions = 0%nat) then None
       else Some (count_status status sessions))
  ∧ (∀ key, key ∉ trialStatus_name <$> [prospect; trial; paid; expired] →
            Stats.sessionsByStatus stats !! key = None)
  ∧ (count_status prospect sessions + count_status trial sessions
     + count_status paid sessions + count_status expired sessions)%nat
    = Stats.totalSessions stats
  ∧ (Stats.activeSessions stats ≤ Stats.totalSessions stats)%nat.
Proof.
  intros stats sessions. unfold stats, getSessionStats.
  cbn [Stats.sessionsByStatus Stats.totalSessions Stats.activeSessions].
  fold sessions. split_and!.
  - intros status. rewrite sessionsByStatus_fold, filter_status_name, lookup_empty.
    unfold count_status.
    destruct (filter _ sessions) as [|s1 rest]; cbn [length default]; [done|].
    rewrite decide_False by done. done.
  - intros key Hkey. rewrite sessionsByStatus_fold, lookup_empty.
    destruct (filter _ sessions) as [|s1 rest] eqn:Hfilter; [done|].
    exfalso. apply Hkey.
    assert (s1 ∈ filter (λ s, trialStatus_name (trialStatus (businessContext s)) = key)
                   sessions) as Hin.
    { rewrite Hfilter. apply elem_of_cons. by left. }
    apply list_elem_of_filter in Hin as [<- _].
    destruct (trialStatus (businessContext s1)); simpl;
      repeat (apply elem_of_cons; (by left) || right).
  - apply count_status_total.
  - apply length_filter.
Qed.

(** The property on a key that is no trial status. *)
Lemma sessionsByStatus_counts_witness :
  Stats.sessionsByStatus (getSessionStats demo_ended) !! "active" = None
  ∧ Stats.sessionsByStatus (getSessionStats demo_ended) !! "prospect" = Some 1%nat.
Proof.
  destruct (sessionsByStatus_counts demo_ended) as (Hcount & Hother & _).
  split.
  - apply Hother. simpl. intros Hin.
    repeat (apply elem_of_cons in Hin as [Hin|Hin]; [discriminate Hin|]).
    by apply elem_of_nil in Hin.
  - apply (Hcount prospect).
Defined.

(** ** The number of active sessions *)

Lemma active_count_app m1 m2 :
  active_count (m1 ++ m2) = (active_count m1 + active_count m2)%nat.
Proof.
  unfold active_count, jsmap_values. by rewrite fmap_app, filter_app, length_app.
Qed.

Lemma active_count_cons k s m :
  active_count ((k, s) :: m) = ((if isActive s then 1 else 0) + active_count m)%nat.
Proof.
  unfold active_count, jsmap_values. rewrite fmap_cons. cbn [snd].
  destruct (isActive s) eqn:Hactive.
  - by rewrite filter_cons_True.
  - rewrite filter_cons_False; [done|]. by rewrite Hactive.
Qed.

Lemma getActiveSessionCount_active_count st :
  getActiveSessionCount st = active_count (activeSessions st).
Proof. done. Qed.

(** The entry of a stored id, with what stands before and after it. *)
Lemma jsmap_get_split {V} (k : string) (v : V) (m : list (string * V)) :
  jsmap_get k m = Some v →
  ∃ pre post, m = pre ++ (k, v) :: post ∧ k ∉ jsmap_keys pre.
Proof.
  unfold jsmap_keys. induction m as [|[k0 v0] m IH]; simpl; [done|].
  case_decide as Hk.
  - intros [= ->]. subst. exists [], m. split; [done|]. apply not_elem_of_nil.
  - intros Hget. destruct (IH Hget) as (pre & post & -> & Hpre).
    exists ((k0, v0) :: pre), post. split; [done|].
    rewrite fmap_cons. apply not_elem_of_cons. by split.
Qed.

Lemma jsmap_set_app_new {V} (k : string) (v : V) (m1 m2 : list (string * V)) :
  k ∉ jsmap_keys m1 → jsmap_set k v (m1 ++ m2) = m1 ++ jsmap_set k v m2.
Proof.
  unfold jsmap_keys. induction m1 as [|[k0 v0] m1 IH]; simpl; [done|].
  intros Hk. apply not_elem_of_cons in Hk as [Hne Hk].
  rewrite decide_False by done. f_equal. by apply IH.
Qed.

Lemma active_count_mutate f k m s :
  jsmap_get k m = Some s →
  (active_count (jsmap_mutate f k m) + (if isActive s then 1 else 0))%nat
  = (active_count m + (if isActive (f s) then 1 else 0))%nat.
Proof.
  intros Hget. destruct (jsmap_get_split k s m Hget) as (pre & post & -> & Hpre).
  rewrite jsmap_mutate_app_new by done. simpl. rewrite decide_True by done.
  rewrite !active_count_app, !active_count_cons. lia.
Qed.

Lemma active_count_set k v m :
  (active_count (jsmap_set k v m)
   + match jsmap_get k m with Some old => if isActive old then 1 else 0 | None => 0 end)%nat
  = (active_count m + (if isActive v then 1 else 0))%nat.
Proof.
  destruct (jsmap_get k m) as [old|] eqn:Hget.
  - destruct (jsmap_get_split k old m Hget) as (pre & post & -> & Hpre).
    rewrite jsmap_set_app_new by done. simpl. rewrite decide_True by done.
    rewrite !active_count_app, !active_count_cons. lia.
  - destruct (jsmap_set_split k v m) as (pre & post & -> & _ & _ & Hnew).
    destruct (Hnew Hget) as [-> ->].
    rewrite active_count_app, active_count_cons.
    change (active_count []) with 0%nat. lia.
Qed.

Lemma active_count_entries_rel m m' :
  entries_rel (λ s s', isActive s' = isActive s) m m' →
  active_count m' = active_count m.
Proof.
  unfold entries_rel. induction 1 as [|[k1 s1] [k2 s2] m m' [_ HR] _ IH]; [done|].
  rewrite !active_count_cons, IH. simpl in HR. by rewrite HR.
Qed.

(** How the operations move [getActiveSessionCount()]: [endSession] of a
    stored session takes one off when the session was active and nothing
    otherwise; [createSession] adds one, less one when it overwrites an
    active session stored under the same id; the lookups and
    [addMessageToSession] leave it as it is. *)
Theorem active_count_after st :
  (∀ k s, jsmap_get k (activeSessions st) = Some s →
          (getActiveSessionCount (endSession k st).2 + (if isActive s then 1 else 0))%nat
          = getActiveSessionCount st)
  ∧ (∀ phone t_id t_last t_start,
       (getActiveSessionCount (createSession phone t_id t_last t_start st).2
        + match jsmap_get (makeSessionId phone t_id) (activeSessions st) with
          | Some old => if isActive old then 1 else 0
          | None => 0
          end)%nat
       = (getActiveSessionCount st + 1)%nat)
  ∧ (∀ phone now,
       getActiveSessionCount (getSession phone now st).2 = getActiveSessionCount st)
  ∧ (∀ k now,
       getActiveSessionCount (getSessionById k now st).2 = getActiveSessionCount st)
  ∧ (∀ k message now,
       getActiveSessionCount (addMessageToSession k message now st).2
       = getActiveSessionCount st).
Proof.
  rewrite !getActiveSessionCount_active_count. split_and!.
  - intros k s Hget. rewrite getActiveSessionCount_active_count, endSession_sessions.
    rewrite (active_count_mutate _ k _ s Hget). simpl. lia.
  - intros phone t_id t_last t_start.
    rewrite getActiveSessionCount_active_count, createSession_sessions.
    by rewrite active_count_set.
  - intros phone now. rewrite getActiveSessionCount_active_count.
    apply active_count_entries_rel. by apply entries_rel_getSession.
  - intros k now. rewrite getActiveSessionCount_active_count.
    apply active_count_entries_rel. by apply entries_rel_getSessionById.
  - intros k message now. rewrite getActiveSessionCount_active_count.
    apply active_count_entries_rel. by apply entries_rel_addMessageToSession.
Qed.

(** The property on the demo store: ending its session takes the count
    from one to zero, and ending it again changes nothing. *)
Lemma active_count_after_witness :
  (getActiveSessionCount demo_ended + 1)%nat = getActiveSessionCount demo_store
  ∧ (getActiveSessionCount (endSession demo_id demo_ended).2 + 0)%nat
    = getActiveSessionCount demo_ended.
Proof.
  split.
  - apply (proj1 (active_count_after demo_store) demo_id
             (createSession demo_phone 1000 1000 1000 empty_store).1).
    reflexivity.
  - apply (proj1 (active_count_after demo_ended) demo_id
             (set_isActive false (createSession demo_phone 1000 1000 1000 empty_store).1)).
    reflexivity.
Defined.

(** ** What a sweep leaves *)

Lemma cleanup_loop_count now todo : ∀ visited st cleanedCount,
  activeSessions st = visited ++ todo →
  NoDup (jsmap_keys (visited ++ todo)) →
  (cleanup_loop now (jsmap_keys todo) st cleanedCount).1
  = (cleanedCount + length (filter (λ s, sweep_due now s = true) (jsmap_values todo)))%nat.
Proof.
  induction todo as [|[k0 s0] todo IH]; intros visited st cleanedCount Hst Hnd.
  - simpl. lia.
  - assert (k0 ∉ jsmap_keys visited) as Hk0.
    { unfold jsmap_keys in *. rewrite fmap_app in Hnd.
      apply NoDup_app in Hnd as (_ & Hdisj & _). intros Hin.
      apply (Hdisj k0 Hin). simpl. apply elem_of_cons. by left. }
    assert (jsmap_get k0 (activeSessions st) = Some s0) as Hget.
    { rewrite Hst, jsmap_get_app_new by done. simpl. by rewrite decide_True. }
    change (jsmap_keys ((k0, s0) :: todo)) with (k0 :: jsmap_keys todo).
    change (jsmap_values ((k0, s0) :: todo)) with (s0 :: jsmap_values todo).
    cbn [cleanup_loop]. rewrite Hget.
    change (negb (isActive s0) || bool_decide (now - lastActivity s0 > SESSION_TIMEOUT))
      with (sweep_due now s0).
    destruct (sweep_due now s0) eqn:Hdue.
    + rewrite filter_cons_True by done.
      rewrite (IH (visited ++ [(k0, set_isActive false s0)])).
      * cbn [length]. lia.
      * rewrite endSession_sessions, Hst, jsmap_mutate_app_new by done.
        simpl. rewrite decide_True by done. by rewrite <- app_assoc.
      * unfold jsmap_keys in *. rewrite <- app_assoc. simpl.
        rewrite fmap_app in *. exact Hnd.
    + rewrite filter_cons_False by (by rewrite Hdue).
      rewrite (IH (visited ++ [(k0, s0)])); [done| |].
      * rewrite Hst. by rewrite <- app_assoc.
      * by rewrite <- app_assoc.
Qed.

Lemma swept_active now s : isActive (swept now s) = negb (sweep_due now s).
Proof.
  unfold swept, sweep_due.
  destruct (negb (isActive s) || bool_decide (now - lastActivity s > SESSION_TIMEOUT))
    eqn:Hdue; [done|].
  apply orb_false_iff in Hdue as [Hactive _]. by apply negb_false_iff in Hactive.
Qed.

Lemma swept_kept now s : sweep_due now s = false → swept now s = s.
Proof. unfold swept, sweep_due. by intros ->. Qed.

Lemma swept_due_again now s : sweep_due now (swept now s) = sweep_due now s.
Proof.
  unfold sweep_due at 1. rewrite swept_active, negb_involutive.
  destruct (sweep_due now s) eqn:Hdue; [done|].
  rewrite (swept_kept now s Hdue). unfold sweep_due in Hdue.
  apply orb_false_iff in Hdue as [_ Hstale]. exact Hstale.
Qed.

Lemma swept_idem now s : swept now (swept now s) = swept now s.
Proof.
  unfold swept.
  destruct (negb (isActive s) || bool_decide (now - lastActivity s > SESSION_TIMEOUT))
    eqn:Hdue.
  - simpl. by destruct s.
  - by rewrite Hdue.
Qed.

Lemma filter_active_swept now (sessions : list ConversationSession) :
  filter (λ s, isActive s = true) (swept now <$> sessions)
  = filter (λ s, sweep_due now s = false) sessions.
Proof.
  induction sessions as [|s sessions IH]; [done|]. rewrite fmap_cons.
  destruct (sweep_due now s) eqn:Hdue.
  - rewrite !filter_cons_False; [done|by rewrite Hdue|].
    by rewrite swept_active, Hdue.
  - rewrite !filter_cons_True; [|done|by rewrite swept_active, Hdue].
    by rewrite IH, (swept_kept now s Hdue).
Qed.

Lemma values_swept now (m : list (string * ConversationSession)) :
  jsmap_values (prod_map id (swept now) <$> m) = swept now <$> jsmap_values m.
Proof.
  unfold jsmap_values. rewrite <- !list_fmap_compose. apply list_fmap_ext. by intros i [k s] _.
Qed.

Lemma keys_swept now (m : list (string * ConversationSession)) :
  jsmap_keys (prod_map id (swept now) <$> m) = jsmap_keys m.
Proof.
  unfold jsmap_keys. rewrite <- !list_fmap_compose. apply list_fmap_ext. by intros i [k s] _.
Qed.

(** In a reachable store, the sessions that [getActiveSessions()] returns
    after a sweep at time [now] are exactly the sessions that were active and
    not idle for more than [SESSION_TIMEOUT] before it, unchanged and in the
    same order. The count the sweep logs is the number of entries that were
    inactive already or idle too long, so an ended session is counted again
    by every later sweep: a second sweep at the same time changes no session
    and logs the same count. The sweep does not touch the histories. *)
Theorem sweep_result st now :
  reachable st →
  getActiveSessions (cleanupExpiredSessions now st).2
  = filter (λ s, sweep_due now s = false) (jsmap_values (activeSessions st))
  ∧ (cleanupExpiredSessions now st).1
    = length (filter (λ s, sweep_due now s = true) (jsmap_values (activeSessions st)))
  ∧ activeSessions (cleanupExpiredSessions now (cleanupExpiredSessions now st).2).2
    = activeSessions (cleanupExpiredSessions now st).2
  ∧ (cleanupExpiredSessions now (cleanupExpiredSessions now st).2).1
    = (cleanupExpiredSessions now st).1
  ∧ heap (cleanupExpiredSessions now st).2 = heap st.
Proof.
  intros Hreach. apply reachable_keys_unique in Hreach.
  assert (keys_unique (cleanupExpiredSessions now st).2) as Hunique'.
  { unfold keys_unique. rewrite cleanupExpiredSessions_sessions by done.
    by rewrite keys_swept. }
  assert (∀ st0, keys_unique st0 →
            (cleanupExpiredSessions now st0).1
            = length (filter (λ s, sweep_due now s = true)
                        (jsmap_values (activeSessions st0)))) as Hcount.
  { intros st0 Hst0. unfold cleanupExpiredSessions.
    by rewrite (cleanup_loop_count now (activeSessions st0) [] st0 0). }
  split_and!.
  - unfold getActiveSessions. rewrite cleanupExpiredSessions_sessions by done.
    by rewrite values_swept, filter_active_swept.
  - by apply Hcount.
  - rewrite (cleanupExpiredSessions_sessions now _ Hunique').
    rewrite cleanupExpiredSessions_sessions by done.
    rewrite <- list_fmap_compose. apply list_fmap_ext. intros i [k s] _. simpl.
    unfold prod_map. simpl. f_equal. apply swept_idem.
  - rewrite (Hcount _ Hunique'), (Hcount _ Hreach).
    rewrite cleanupExpiredSessions_sessions by done. rewrite values_swept.
    induction (jsmap_values (activeSessions st)) as [|s l IH]; [done|].
    rewrite fmap_cons. destruct (sweep_due now s) eqn:Hdue.
    + rewrite !filter_cons_True; [|done|by rewrite swept_due_again].
      cbn [length]. by rewrite IH.
    + rewrite !filter_cons_False; [done|by rewrite Hdue|].
      by rewrite swept_due_again, Hdue.
  - unfold cleanupExpiredSessions. apply heap_cleanup_loop.
Qed.

(** The property on the store whose only session was ended: every sweep
    counts it again. *)
Lemma sweep_result_witness :
  reachable demo_ended
  ∧ getActiveSessions (cleanupExpiredSessions 5000 demo_ended).2 = []
  ∧ (cleanupExpiredSessions 5000 demo_ended).1 = 1%nat
  ∧ (cleanupExpiredSessions 5000 (cleanupExpiredSessions 5000 demo_ended).2).1 = 1%nat.
Proof.
  assert (reachable demo_ended) as Hreach.
  { exists [OpCreate demo_phone 1000 1000 1000; OpEnd demo_id]. reflexivity. }
  destruct (sweep_result demo_ended 5000 Hreach) as (Hactive & Hcount & _ & Hagain & _).
  split; [exact Hreach|]. split; [exact Hactive|]. split; [exact Hcount|].
  rewrite Hagain. exact Hcount.
Defined.

(** * The webhook handler *)

(** ** extractPhoneNumber *)

Lemma string_app_nil_l (s : string) : "" +:+ s = s.
Proof. done. Qed.

Lemma string_app_cons (c : ascii) (s t : string) :
  String c s +:+ t = String c (s +:+ t).
Proof. done. Qed.

Lemma string_app_assoc (s t u : string) : (s +:+ t) +:+ u = s +:+ t +:+ u.
Proof.
  induction s as [|c s IH]; [done|]. rewrite !string_app_cons. by rewrite IH.
Qed.

Lemma string_length_app (s t : string) :
  String.length (s +:+ t) = (String.length s + String.length t)%nat.
Proof.
  induction s as [|c s IH]; [done|]. rewrite string_app_cons. simpl. by rewrite IH.
Qed.

Lemma strip_prefix_app p s : strip_prefix p (p +:+ s) = Some s.
Proof.
  induction p as [|c p IH]; [by destruct s|].
  rewrite string_app_cons. simpl. by rewrite decide_True.
Qed.

Lemma strip_prefix_Some p s rest : strip_prefix p s = Some rest → s = p +:+ rest.
Proof.
  revert s. induction p as [|c p IH]; intros s; simpl.
  - by intros [= ->].
  - destruct s as [|d s]; [done|]. case_decide; [|done]. subst.
    intros Hrest. rewrite string_app_cons. f_equal. by apply IH.
Qed.

Lemma replace_first_cons pattern replacement c s :
  replace_first pattern replacement (String c s)
  = match strip_prefix pattern (String c s) with
    | Some rest => replacement +:+ rest
    | None => String c (replace_first pattern replacement s)
    end.
Proof. done. Qed.

Lemma includes_cons c s pattern :
  includes (String c s) pattern
  = match strip_prefix pattern (String c s) with
    | Some _ => true
    | None => includes s pattern
    end.
Proof. done. Qed.

Lemma replace_first_prefix pattern replacement s :
  replace_first pattern replacement (pattern +:+ s) = replacement +:+ s.
Proof.
  pose proof (strip_prefix_app pattern s) as Hp.
  destruct (pattern +:+ s) as [|c x]; simpl; by rewrite Hp.
Qed.

Lemma replace_first_absent pattern replacement s :
  includes s pattern = false → replace_first pattern replacement s = s.
Proof.
  induction s as [|c s IH].
  - simpl. by destruct (strip_prefix pattern "").
  - rewrite includes_cons, replace_first_cons.
    destruct (strip_prefix pattern (String c s)); [done|].
    intros Hs. by rewrite IH.
Qed.

Lemma replace_first_present pattern replacement s :
  includes s pattern = true →
  ∃ before after,
    s = before +:+ pattern +:+ after
    ∧ replace_first pattern replacement s = before +:+ replacement +:+ after
    ∧ (pattern ≠ "" → includes before pattern = false).
Proof.
  induction s as [|c s IH].
  - simpl. destruct (strip_prefix pattern "") as [rest|] eqn:Hp; [|done].
    intros _. exists "", rest. rewrite !string_app_nil_l.
    split; [by apply strip_prefix_Some|]. split; [done|].
    intros Hne. by destruct pattern.
  - rewrite includes_cons, replace_first_cons.
    destruct (strip_prefix pattern (String c s)) as [rest|] eqn:Hp.
    + intros _. exists "", rest. rewrite !string_app_nil_l.
      split; [by apply strip_prefix_Some|]. split; [done|].
      intros Hne. by destruct pattern.
    + intros Hs. destruct (IH Hs) as (before & after & -> & -> & Hfirst).
      exists (String c before), after. rewrite !string_app_cons.
      split; [done|]. split; [done|]. intros Hne.
      rewrite includes_cons.
      destruct (strip_prefix pattern (String c before)) as [rest'|] eqn:Hp';
        [|by apply Hfirst].
      exfalso. apply strip_prefix_Some in Hp'.
      rewrite <- string_app_cons, Hp', string_app_assoc, strip_prefix_app in Hp.
      discriminate.
Qed.

(** [extractPhoneNumber] removes the first occurrence of [whatsapp:],
    wherever it stands, and nothing else: the Twilio form [whatsapp:P] gives
    [P] even if [P] contains the marker again, a string without the marker is
    returned as it is, and a string with it loses exactly its nine
    characters. *)
Theorem extractPhoneNumber_strips from :
  extractPhoneNumber ("whatsapp:" +:+ from) = from
  ∧ (includes from "whatsapp:" = false → extractPhoneNumber from = from)
  ∧ (includes from "whatsapp:" = true →
     ∃ before after,
       from = before +:+ "whatsapp:" +:+ after
       ∧ includes before "whatsapp:" = false
       ∧ extractPhoneNumber from = before +:+ after
       ∧ (String.length (extractPhoneNumber from) + 9)%nat = String.length from).
Proof.
  unfold extractPhoneNumber. split_and!.
  - by rewrite replace_first_prefix.
  - apply replace_first_absent.
  - intros Hin.
    destruct (replace_first_present "whatsapp:" "" from Hin)
      as (before & after & Hfrom & Hres & Hfirst).
    exists before, after. split; [done|]. split; [by apply Hfirst|].
    rewrite Hres, string_app_nil_l. split; [done|].
    rewrite Hfrom, !string_length_app. simpl. lia.
Qed.

(** The property on a Twilio sender, on a bare number and on a sender
    that carries the marker twice. *)
Lemma extractPhoneNumber_strips_witness :
  extractPhoneNumber "+2348011111111" = "+2348011111111"
  ∧ ∃ before after,
      "whatsapp:whatsapp:+2348011111111" = before +:+ "whatsapp:" +:+ after
      ∧ includes before "whatsapp:" = false
      ∧ extractPhoneNumber "whatsapp:whatsapp:+2348011111111" = before +:+ after
      ∧ (String.length (extractPhoneNumber "whatsapp:whatsapp:+2348011111111") + 9)%nat
        = String.length "whatsapp:whatsapp:+2348011111111".
Proof.
  split.
  - apply (proj1 (proj2 (extractPhoneNumber_strips "+2348011111111"))). reflexivity.
  - apply (proj2 (proj2 (extractPhoneNumber_strips "whatsapp:whatsapp:+2348011111111"))).
    reflexivity.
Defined.

Example extractPhoneNumber_examples :
  extractPhoneNumber "whatsapp:+2348011111111" = "+2348011111111"
  ∧ extractPhoneNumber "whatsapp:whatsapp:+2348011111111" = "whatsapp:+2348011111111"
  ∧ extractPhoneNumber "+234whatsapp:8011111111" = "+2348011111111".
Proof. repeat split; reflexivity. Qed.

(** ** The events of the application as store operations *)

Lemma run_app ops1 ops2 st : run (ops1 ++ ops2) st = run ops2 (run ops1 st).
Proof. unfold run. apply fold_left_app. Qed.

Lemma app_step_run ev st : app_step ev st = run (app_ops ev st) st.
Proof.
  destruct ev as [payload clock|k aiResponse t_message t_append|now|k now]; try done.
  cbn [app_step app_ops]. unfold webhook_receive.
  destruct (getSession (extractPhoneNumber (From payload)) (at_lookup clock) st)
    as [[session|] st1] eqn:Hget; cbn [fst snd run fold_left step];
    rewrite Hget; cbn [snd].
  - by destruct (addMessageToSession (sessionId session) (userMessage payload clock)
                   (at_append clock) st1) as [ok st3].
  - unfold createSession at 1. cbn [sessionId].
    by destruct (addMessageToSession _ (userMessage payload clock) (at_append clock) _)
      as [ok st3].
Qed.

Lemma app_ops_plain ev st : Forall plain_op (app_ops ev st).
Proof.
  destruct ev as [payload clock|k aiResponse t_message t_append|now|k now];
    cbn [app_ops]; try (by repeat constructor).
  destruct (getSession _ _ st).1; by repeat constructor.
Qed.

Lemma app_ops_creates k ev st :
  may_create k ev = false → Forall (λ op, creates k op = false) (app_ops ev st).
Proof.
  intros Hev.
  destruct ev as [payload clock|k' aiResponse t_message t_append|now|k' now];
    cbn [app_ops]; try (by repeat constructor).
  destruct (getSession _ _ st).1; by repeat constructor.
Qed.

Lemma app_run_cons ev events st :
  app_run (ev :: events) st = app_run events (app_step ev st).
Proof. done. Qed.

Lemma app_run_ops events : ∀ st,
  ∃ ops, app_run events st = run ops st
         ∧ Forall plain_op ops
         ∧ ∀ k, Forall (λ ev, may_create k ev = false) events →
                Forall (λ op, creates k op = false) ops.
Proof.
  induction events as [|ev events IH]; intros st.
  - exists []. split; [done|]. split; [constructor|]. intros k _. constructor.
  - destruct (IH (app_step ev st)) as (ops & Hrun & Hplain & Hcreates).
    exists (app_ops ev st ++ ops). rewrite app_run_cons, run_app, <- app_step_run.
    split; [done|]. split.
    + apply Forall_app. split; [apply app_ops_plain|done].
    + intros k Hevents. apply Forall_cons in Hevents as [Hev Hevents].
      apply Forall_app. split; [by apply app_ops_creates|by apply Hcreates].
Qed.

Lemma plain_op_carries op :
  plain_op op →
  carries_sessionId op = false ∧ carries_conversationHistory op = false
  ∧ carries_isActive op = false.
Proof. by destruct op. Qed.

(** ** Invariants of the stores the application reaches *)

Lemma effect_on_history op k s s' :
  carries_conversationHistory op = false → effect_on op k s s' →
  conversationHistory s' = conversationHistory s.
Proof.
  intros Hop Heff.
  destruct op as [phone t_id t_last t_start|phone now|id now|id updates now
                 |id message now|id|now|id now|messages]; cbn [effect_on] in Heff;
    repeat case_decide; try (destruct (isActive s));
    try (destruct Heff as [->|Heff]); try (destruct Heff as (_ & _ & ->));
    subst; try done.
  all: simpl in Hop; apply bool_decide_eq_false in Hop; simpl;
    destruct (p_conversationHistory updates); [|done]; exfalso; apply Hop; by eexists.
Qed.

Lemma step_histories_allocated op st :
  carries_conversationHistory op = false →
  histories_allocated st → histories_allocated (step op st).
Proof.
  intros Hop Halloc k s' Hget'.
  destruct (creates k op) eqn:Hcreate.
  - destruct op as [phone t_id t_last t_start| | | | | | | |]; try done.
    simpl in Hcreate. apply bool_decide_eq_true in Hcreate. subst k.
    cbn [step] in *. rewrite createSession_stored in Hget'. injection Hget' as <-.
    rewrite heap_createSession. cbn [createSession fst conversationHistory].
    rewrite list_lookup_middle by done. by eexists.
  - destruct (jsmap_get k (activeSessions st)) as [s|] eqn:Hget.
    + destruct (step_session op st k s Hcreate Hget) as (s'' & Hget'' & Heff).
      assert (s'' = s') as -> by congruence.
      rewrite (effect_on_history op k s s' Hop Heff).
      destruct (Halloc k s Hget) as [h Hh].
      destruct (step_heap op st _ _ Hh) as [l Hl]. by eexists.
    + by rewrite (step_absent op st k Hcreate Hget) in Hget'.
Qed.

Lemma run_plain_invariants ops : ∀ st,
  Forall plain_op ops →
  ids_agree st ∧ histories_allocated st →
  ids_agree (run ops st) ∧ histories_allocated (run ops st).
Proof.
  induction ops as [|op ops IH]; intros st Hops Hst; [done|].
  apply Forall_cons in Hops as [Hop Hops]. rewrite run_cons.
  apply plain_op_carries in Hop as (Hid & Hhist & _).
  apply IH; [done|]. destruct Hst as [Hagree Halloc].
  split; [by apply step_ids_agree|by apply step_histories_allocated].
Qed.

Lemma app_run_invariants events :
  reachable (app_run events empty_store)
  ∧ ids_agree (app_run events empty_store)
  ∧ histories_allocated (app_run events empty_store).
Proof.
  destruct (app_run_ops events empty_store) as (ops & -> & Hplain & _).
  split; [by exists ops|].
  apply run_plain_invariants; [done|].
  split; intros k s Hget; discriminate Hget.
Qed.

(** ** One active session per phone number *)

Lemma active_for_app phone m1 m2 :
  active_for phone (m1 ++ m2) = (active_for phone m1 + active_for phone m2)%nat.
Proof. unfold active_for. by rewrite filter_app, length_app. Qed.

Lemma active_for_cons phone k s m :
  active_for phone ((k, s) :: m)
  = ((if bool_decide (phoneNumber s = phone) && isActive s then 1 else 0)
     + active_for phone m)%nat.
Proof.
  unfold active_for.
  destruct (bool_decide (phoneNumber s = phone) && isActive s) eqn:Hmatch.
  - apply active_for_true in Hmatch. by rewrite filter_cons_True.
  - rewrite filter_cons_False; [done|]. simpl. intros [Hp Ha].
    assert (bool_decide (phoneNumber s = phone) && isActive s = true) as Ht
      by by apply active_for_true.
    congruence.
Qed.

Lemma active_for_none phone m :
  active_for phone m = 0%nat ↔
  ∀ k s, (k, s) ∈ m → phoneNumber s = phone → isActive s = false.
Proof.
  induction m as [|[k0 s0] m [IH1 IH2]].
  - split; [|done]. intros _ k s Hin. by apply elem_of_nil in Hin.
  - rewrite active_for_cons. split.
    + intros Hzero k s Hin.
      destruct (bool_decide (phoneNumber s0 = phone) && isActive s0) eqn:Hmatch;
        [lia|].
      apply elem_of_cons in Hin as [[= -> ->]|Hin].
      * by apply active_for_false.
      * apply (IH1 ltac:(lia) k s Hin).
    + intros Hall.
      assert (bool_decide (phoneNumber s0 = phone) && isActive s0 = false) as ->.
      { apply active_for_false. apply (Hall k0). apply elem_of_cons. by left. }
      simpl. apply IH2. intros k s Hin. apply (Hall k). apply elem_of_cons. by right.
Qed.

Lemma active_for_entries_rel phone m m' :
  entries_rel (λ s s', phoneNumber s' = phoneNumber s
                       ∧ (isActive s' = true → isActive s = true)) m m' →
  (active_for phone m' ≤ active_for phone m)%nat.
Proof.
  unfold entries_rel. induction 1 as [|[k1 s1] [k2 s2] m m' [_ [Hp Ha]] _ IH]; [done|].
  rewrite !active_for_cons. simpl in Hp, Ha.
  destruct (bool_decide (phoneNumber s2 = phone) && isActive s2) eqn:H2; [|lia].
  apply active_for_true in H2 as [Hp2 Ha2].
  assert (bool_decide (phoneNumber s1 = phone) && isActive s1 = true) as ->; [|lia].
  apply active_for_true. split; [congruence|auto].
Qed.

Lemma active_for_set phone k v m :
  (active_for phone (jsmap_set k v m)
   ≤ active_for phone m
     + (if bool_decide (phoneNumber v = phone) && isActive v then 1 else 0))%nat.
Proof.
  destruct (jsmap_get k m) as [old|] eqn:Hget.
  - destruct (jsmap_get_split k old m Hget) as (pre & post & -> & Hpre).
    rewrite jsmap_set_app_new by done. simpl. rewrite decide_True by done.
    rewrite !active_for_app, !active_for_cons. lia.
  - destruct (jsmap_set_split k v m) as (pre & post & -> & _ & _ & Hnew).
    destruct (Hnew Hget) as [-> ->].
    rewrite active_for_app, active_for_cons.
    change (active_for phone []) with 0%nat. lia.
Qed.

(** Operations other than [createSession] and [updateSession] add no
    active session to any phone number. *)
Lemma step_active_for phone op st :
  match op with
  | OpCreate _ _ _ _ | OpUpdate _ _ _ => True
  | _ => (active_for phone (activeSessions (step op st))
          ≤ active_for phone (activeSessions st))%nat
  end.
Proof.
  assert (op_allowed (λ _, False) op
          ∨ ∃ id updates now, op = OpUpdate id updates now) as [Hallowed|Hupdate].
  { destruct op; try (by left). right. eauto. }
  - pose proof (step_entries
                  (λ s s', phoneNumber s' = phoneNumber s
                           ∧ (isActive s' = true → isActive s = true))
                  (λ _, False)
                  (λ s, conj eq_refl (λ H, H))) as Hstep.
    specialize (Hstep
      (λ s1 s2 s3 H12 H23,
         conj (eq_trans (proj1 H23) (proj1 H12))
              (λ H, proj2 H12 (proj2 H23 H)))
      (λ now s, conj eq_refl (λ H, H))).
    assert (∀ s, phoneNumber (set_isActive false s) = phoneNumber s
                 ∧ (isActive (set_isActive false s) = true → isActive s = true))
      as Hend.
    { intros s. split; [done|]. intros Hact. discriminate Hact. }
    specialize (Hstep Hend (λ u s (H : False), match H with end) op st Hallowed).
    destruct op; try done; by apply active_for_entries_rel.
  - by destruct Hupdate as (id & updates & now & ->).
Qed.

Lemma getSession_miss phone now st :
  (getSession phone now st).1 = None →
  (getSession phone now st).2 = st ∧ active_for phone (activeSessions st) = 0%nat.
Proof.
  unfold getSession.
  pose proof (getSession_loop_inv phone now (activeSessions st)) as Hinv.
  destruct (getSession_loop phone now (activeSessions st)) as [[[k s]|] m]; [done|].
  intros _. split; [done|]. apply active_for_none. by destruct Hinv.
Qed.

Lemma createSession_active_for p phone t_id t_last t_start st :
  (active_for p (activeSessions (createSession phone t_id t_last t_start st).2)
   ≤ active_for p (activeSessions st) + (if bool_decide (phone = p) then 1 else 0))%nat.
Proof.
  rewrite createSession_sessions.
  etrans; [apply active_for_set|]. cbn [createSession fst phoneNumber isActive].
  by rewrite andb_true_r.
Qed.

Lemma webhook_receive_one_active payload clock st :
  (∀ p, (active_for p (activeSessions st) ≤ 1)%nat) →
  ∀ p, (active_for p (activeSessions (webhook_receive payload clock st).2) ≤ 1)%nat.
Proof.
  intros Hone p. unfold webhook_receive.
  pose proof (step_active_for p
                (OpGetSession (extractPhoneNumber (From payload)) (at_lookup clock)) st)
    as Hlookup.
  cbn [step] in Hlookup.
  pose proof (getSession_miss (extractPhoneNumber (From payload)) (at_lookup clock) st)
    as Hmiss.
  destruct (getSession (extractPhoneNumber (From payload)) (at_lookup clock) st)
    as [[session|] st1]; cbn [fst snd] in *.
  - pose proof (step_active_for p
                  (OpAddMessage (sessionId session) (userMessage payload clock)
                     (at_append clock)) st1) as Hadd.
    cbn [step] in Hadd.
    destruct (addMessageToSession (sessionId session) (userMessage payload clock)
                (at_append clock) st1) as [ok st3]. cbn [snd] in *.
    specialize (Hone p). lia.
  - destruct (Hmiss eq_refl) as [-> Hnone].
    pose proof (createSession_active_for p (extractPhoneNumber (From payload))
                  (at_id clock) (at_last clock) (at_start clock) st) as Hcreate.
    destruct (createSession (extractPhoneNumber (From payload)) (at_id clock)
                (at_last clock) (at_start clock) st) as [session st2].
    pose proof (step_active_for p
                  (OpAddMessage (sessionId session) (userMessage payload clock)
                     (at_append clock)) st2) as Hadd.
    cbn [step] in Hadd.
    destruct (addMessageToSession (sessionId session) (userMessage payload clock)
                (at_append clock) st2) as [ok st3]. cbn [snd] in *.
    specialize (Hone p). case_bool_decide; subst; lia.
Qed.

Lemma app_step_one_active ev st :
  (∀ p, (active_for p (activeSessions st) ≤ 1)%nat) →
  ∀ p, (active_for p (activeSessions (app_step ev st)) ≤ 1)%nat.
Proof.
  intros Hone p.
  destruct ev as [payload clock|k aiResponse t_message t_append|now|k now].
  - by apply webhook_receive_one_active.
  - pose proof (step_active_for p
                  (OpAddMessage k (assistantMessage aiResponse t_message) t_append) st)
      as Hstep.
    cbn [step] in Hstep. cbn [app_step]. unfold webhook_reply.
    specialize (Hone p). lia.
  - pose proof (step_active_for p (OpCleanup now) st) as Hstep.
    cbn [step] in Hstep. cbn [app_step]. specialize (Hone p). lia.
  - pose proof (step_active_for p (OpTimerFires k now) st) as Hstep.
    cbn [step] in Hstep. cbn [app_step]. specialize (Hone p). lia.
Qed.

Lemma app_run_one_active events : ∀ st,
  (∀ p, (active_for p (activeSessions st) ≤ 1)%nat) →
  ∀ p, (active_for p (activeSessions (app_run events st)) ≤ 1)%nat.
Proof.
  induction events as [|ev events IH]; intros st Hone; [done|].
  rewrite app_run_cons. by apply IH, app_step_one_active.
Qed.

Lemma active_for_getActiveSessions phone st :
  length (filter (λ s, phoneNumber s = phone) (getActiveSessions st))
  = active_for phone (activeSessions st).
Proof.
  unfold getActiveSessions, jsmap_values.
  induction (activeSessions st) as [|[k s] m IH]; [done|].
  rewrite fmap_cons, active_for_cons. cbn [snd].
  destruct (isActive s) eqn:Hactive.
  - rewrite filter_cons_True by done. rewrite andb_true_r.
    case_bool_decide.
    + rewrite filter_cons_True by done. cbn [length]. by rewrite IH.
    + rewrite filter_cons_False by done. exact IH.
  - rewrite filter_cons_False by (simpl; congruence). rewrite andb_false_r.
    exact IH.
Qed.

(** Whatever messages, replies, sweeps and timer callbacks the application
    has gone through, the store holds at most one active session for each
    phone number: the webhook handler creates a session only when
    [getSession] found none, in one synchronous step. The store alone does not
    guarantee it (two [createSession] calls for one number give two active
    sessions). *)
Theorem one_active_session_per_phone events phone :
  (length (filter (λ s, phoneNumber s = phone)
             (getActiveSessions (app_run events empty_store))) ≤ 1)%nat.
Proof.
  rewrite active_for_getActiveSessions. apply app_run_one_active.
  intros p. cbn. lia.
Qed.

Example two_creates_two_active :
  length (filter (λ s, phoneNumber s = demo_phone)
            (getActiveSessions (createSession demo_phone 1001 1001 1001 demo_store).2))
  = 2%nat.
Proof. reflexivity. Qed.

(** ** What the handler records *)

Lemma addMessage_stored_history k s h message now st :
  jsmap_get k (activeSessions st) = Some s →
  heap st !! conversationHistory s = Some h →
  jsmap_get k (activeSessions (addMessageToSession k message now st).2)
  = Some (set_lastActivity now s)
  ∧ stored_history k (addMessageToSession k message now st).2 = Some (h ++ [message]).
Proof.
  intros Hget Hh.
  destruct (addMessageToSession_stored k s message now st Hget) as (_ & Hget' & Hheap').
  split; [done|]. apply stored_history_Some. exists (set_lastActivity now s).
  split; [done|]. rewrite Hheap'. cbn [conversationHistory set_lastActivity].
  by rewrite list_lookup_alter_eq, Hh.
Qed.

Lemma getSession_found phone now st session st1 :
  keys_unique st → ids_agree st →
  getSession phone now st = (Some session, st1) →
  ∃ old,
    jsmap_get (sessionId session) (activeSessions st) = Some old
    ∧ session = set_lastActivity now old
    ∧ phoneNumber old = phone ∧ isActive old = true
    ∧ jsmap_get (sessionId session) (activeSessions st1) = Some session
    ∧ heap st1 = heap st.
Proof.
  intros Hunique Hagree. unfold getSession.
  pose proof (getSession_loop_inv phone now (activeSessions st)) as Hinv.
  destruct (getSession_loop phone now (activeSessions st)) as [[[k s]|] m]; [|done].
  destruct Hinv as (pre & old & post & Hst & -> & -> & Hp & Ha & _).
  intros [= <- <-].
  assert (k ∉ jsmap_keys pre) as Hk.
  { unfold keys_unique, jsmap_keys in *. rewrite Hst, fmap_app in Hunique.
    apply NoDup_app in Hunique as (_ & Hdisj & _). intros Hin.
    apply (Hdisj k Hin). rewrite fmap_cons. apply elem_of_cons. by left. }
  assert (jsmap_get k (activeSessions st) = Some old) as Hget.
  { rewrite Hst, jsmap_get_app_new by done. simpl. by rewrite decide_True. }
  assert (sessionId old = k) as Hid by by apply Hagree.
  cbn [sessionId set_lastActivity]. rewrite Hid.
  exists old. split; [done|]. split; [done|]. split; [done|]. split; [done|].
  unfold resetSessionTimeout.
  rewrite activeSessions_setSessionTimeout, heap_setSessionTimeout.
  cbn [activeSessions heap with_sessions]. split; [|done].
  rewrite jsmap_get_app_new by done. simpl. by rewrite decide_True.
Qed.

(** The first part of the handler, on a store with unique ids whose
    sessions carry their ids and have their histories in the heap. *)
Lemma webhook_receive_recorded payload clock st :
  keys_unique st → ids_agree st → histories_allocated st →
  let phone := extractPhoneNumber (From payload) in
  let session := (webhook_receive payload clock st).1 in
  let st1 := (webhook_receive payload clock st).2 in
  phoneNumber session = phone
  ∧ isActive session = true
  ∧ jsmap_get (sessionId session) (activeSessions st1)
    = Some (set_lastActivity (at_append clock) session)
  ∧ ∃ h,
      stored_history (sessionId session) st1 = Some (h ++ [userMessage payload clock])
      ∧ match (getSession phone (at_lookup clock) st).1 with
        | Some _ => stored_history (sessionId session) st = Some h
        | None => h = []
        end.
Proof.
  intros Hunique Hagree Halloc phone session st1.
  unfold session, st1, webhook_receive. fold phone.
  pose proof (getSession_found phone (at_lookup clock) st) as Hfound.
  pose proof (getSession_miss phone (at_lookup clock) st) as Hmiss.
  destruct (getSession phone (at_lookup clock) st) as [[found|] st0]; cbn [fst snd] in *.
  - destruct (Hfound found st0 Hunique Hagree eq_refl)
      as (old & Hold & -> & Hp & Ha & Hstored & Hheap).
    cbn [sessionId set_lastActivity] in *.
    destruct (Halloc _ _ Hold) as [h Hh].
    destruct (addMessage_stored_history (sessionId old)
                (set_lastActivity (at_lookup clock) old) h
                (userMessage payload clock) (at_append clock) st0 Hstored)
      as [Hget3 Hhist3].
    { by rewrite Hheap. }
    destruct (addMessageToSession (sessionId old) (userMessage payload clock)
                (at_append clock) st0) as [ok st3]. cbn [fst snd] in *.
    split; [done|]. split; [done|]. split; [done|].
    exists h. split; [done|]. apply stored_history_Some. eauto.
  - destruct (Hmiss eq_refl) as [-> _].
    pose proof (createSession_stored phone (at_id clock) (at_last clock)
                  (at_start clock) st) as Hstored.
    pose proof (heap_createSession phone (at_id clock) (at_last clock)
                  (at_start clock) st) as Hheap.
    destruct (createSession phone (at_id clock) (at_last clock) (at_start clock) st)
      as [created st2] eqn:Hcreate. cbn [fst snd] in *.
    assert (created
            = (createSession phone (at_id clock) (at_last clock) (at_start clock) st).1)
      as Hcreated by by rewrite Hcreate.
    assert (sessionId created = makeSessionId phone (at_id clock)) as Hid
      by by rewrite Hcreated.
    rewrite <- Hid in Hstored.
    destruct (addMessage_stored_history (sessionId created) created []
                (userMessage payload clock) (at_append clock) st2 Hstored)
      as [Hget3 Hhist3].
    { rewrite Hheap, Hcreated. cbn [createSession fst conversationHistory].
      by rewrite list_lookup_middle. }
    destruct (addMessageToSession (sessionId created) (userMessage payload clock)
                (at_append clock) st2) as [ok st3]. cbn [fst snd] in *.
    split; [by rewrite Hcreated|]. split; [by rewrite Hcreated|]. split; [done|].
    by exists [].
Qed.

Lemma length_le_1_elem_of {A} (l : list A) (x y : A) :
  (length l ≤ 1)%nat → x ∈ l → y ∈ l → x = y.
Proof.
  destruct l as [|a [|b l]]; simpl; intros Hlen Hx Hy.
  - by apply elem_of_nil in Hx.
  - apply list_elem_of_singleton in Hx, Hy. congruence.
  - lia.
Qed.

(** With at most one active session for the phone number, the lookup by
    phone number finds the session stored under [k] when that one is active
    and has the number. *)
Lemma getSession_the_active phone now st k s :
  (active_for phone (activeSessions st) ≤ 1)%nat →
  jsmap_get k (activeSessions st) = Some s →
  phoneNumber s = phone → isActive s = true →
  (getSession phone now st).1 = Some (set_lastActivity now s).
Proof.
  intros Hone Hget Hp Ha. unfold getSession.
  pose proof (getSession_loop_inv phone now (activeSessions st)) as Hinv.
  destruct (getSession_loop phone now (activeSessions st)) as [[[k' s']|] m].
  - destruct Hinv as (pre & old & post & Hst & -> & -> & Hp' & Ha' & _).
    cbn [fst]. do 2 f_equal.
    assert ((k', old) = (k, s)) as [= _ ->]; [|done].
    apply (length_le_1_elem_of
             (filter (λ e, phoneNumber e.2 = phone ∧ isActive e.2 = true)
                (activeSessions st))); [done| |].
    + apply list_elem_of_filter. split; [done|]. rewrite Hst.
      apply elem_of_app. right. apply elem_of_cons. by left.
    + apply list_elem_of_filter. split; [done|]. by apply jsmap_get_elem_of.
  - exfalso. destruct Hinv as [_ Hall].
    apply jsmap_get_elem_of in Hget. rewrite (Hall k s Hget Hp) in Ha. discriminate.
Qed.

Lemma app_run_snoc events ev st :
  app_run (events ++ [ev]) st = app_step ev (app_run events st).
Proof. unfold app_run. by rewrite fold_left_app. Qed.

Lemma effect_on_phoneNumber op k s s' :
  plain_op op → effect_on op k s s' → phoneNumber s' = phoneNumber s.
Proof.
  intros Hop Heff.
  destruct op as [phone t_id t_last t_start|phone now|id now|id updates now
                 |id message now|id|now|id now|messages]; cbn [effect_on] in Heff;
    try done;
    repeat case_decide; try (destruct (isActive s));
    try (destruct Heff as [->|Heff]); try (destruct Heff as (_ & _ & ->));
    by subst.
Qed.

Lemma effect_on_stays_active op k s s' :
  ends_nothing op → effect_on op k s s' → isActive s' = isActive s.
Proof.
  intros Hop Heff.
  destruct op as [phone t_id t_last t_start|phone now|id now|id updates now
                 |id message now|id|now|id now|messages]; cbn [effect_on] in Heff;
    try done;
    repeat case_decide;
    try (destruct Heff as [->|Heff]); try (destruct Heff as (_ & _ & ->));
    by subst.
Qed.

Lemma step_stored_origin op st k s' :
  jsmap_get k (activeSessions (step op st)) = Some s' →
  (∃ phone t_id t_last t_start,
     op = OpCreate phone t_id t_last t_start ∧ makeSessionId phone t_id = k
     ∧ s' = (createSession phone t_id t_last t_start st).1)
  ∨ (creates k op = false
     ∧ ∃ s, jsmap_get k (activeSessions st) = Some s ∧ effect_on op k s s').
Proof.
  intros Hget'. destruct (creates k op) eqn:Hcreate.
  - left. destruct op as [phone t_id t_last t_start| | | | | | | |]; try done.
    simpl in Hcreate. apply bool_decide_eq_true in Hcreate. subst k.
    cbn [step] in Hget'. rewrite createSession_stored in Hget'. injection Hget' as <-.
    by exists phone, t_id, t_last, t_start.
  - right. split; [done|].
    destruct (jsmap_get k (activeSessions st)) as [s|] eqn:Hget.
    + destruct (step_session op st k s Hcreate Hget) as (s'' & Hget'' & Heff).
      exists s. split; [done|]. congruence.
    + by rewrite (step_absent op st k Hcreate Hget) in Hget'.
Qed.

Lemma step_ids_generated op st :
  plain_op op → ids_generated st → ids_generated (step op st).
Proof.
  intros Hop Hgen k s' Hget'.
  destruct (step_stored_origin op st k s' Hget')
    as [(phone & t_id & t_last & t_start & -> & <- & ->)|(_ & s & Hget & Heff)].
  - by exists t_id.
  - rewrite (effect_on_phoneNumber op k s s' Hop Heff). by apply Hgen.
Qed.

Lemma run_ids_generated ops : ∀ st,
  Forall plain_op ops → ids_generated st → ids_generated (run ops st).
Proof.
  induction ops as [|op ops IH]; intros st Hops Hst; [done|].
  apply Forall_cons in Hops as [Hop Hops]. rewrite run_cons.
  by apply IH, step_ids_generated.
Qed.

Lemma app_run_app events1 events2 st :
  app_run (events1 ++ events2) st = app_run events2 (app_run events1 st).
Proof. unfold app_run. apply fold_left_app. Qed.

Lemma app_run_ids_generated events : ids_generated (app_run events empty_store).
Proof.
  destruct (app_run_ops events empty_store) as (ops & -> & Hplain & _).
  apply run_ids_generated; [done|]. intros k s Hget. discriminate Hget.
Qed.

Lemma app_ops_ends_nothing ev st :
  handler_event ev → Forall ends_nothing (app_ops ev st).
Proof.
  destruct ev as [payload clock|k aiResponse t_message t_append|now|k now];
    cbn [app_ops handler_event]; try done; try (by repeat constructor).
  intros _. destruct (getSession _ _ st).1; by repeat constructor.
Qed.

Lemma step_stays_active op st k s :
  ends_nothing op →
  jsmap_get k (activeSessions st) = Some s → isActive s = true →
  ∃ s', jsmap_get k (activeSessions (step op st)) = Some s' ∧ isActive s' = true.
Proof.
  intros Hop Hget Ha. destruct (creates k op) eqn:Hcreate.
  - destruct op as [phone t_id t_last t_start| | | | | | | |]; try done.
    simpl in Hcreate. apply bool_decide_eq_true in Hcreate. subst k.
    cbn [step]. rewrite createSession_stored. by eexists.
  - destruct (step_session op st k s Hcreate Hget) as (s' & Hget' & Heff).
    exists s'. split; [done|].
    by rewrite (effect_on_stays_active op k s s' Hop Heff).
Qed.

Lemma run_stays_active ops : ∀ st k s,
  Forall ends_nothing ops →
  jsmap_get k (activeSessions st) = Some s → isActive s = true →
  ∃ s', jsmap_get k (activeSessions (run ops st)) = Some s' ∧ isActive s' = true.
Proof.
  induction ops as [|op ops IH]; intros st k s Hops Hget Ha; [by exists s|].
  apply Forall_cons in Hops as [Hop Hops]. rewrite run_cons.
  destruct (step_stays_active op st k s Hop Hget Ha) as (s1 & Hget1 & Ha1).
  by apply (IH _ k s1).
Qed.

Lemma app_run_stays_active events : ∀ st k s,
  Forall handler_event events →
  jsmap_get k (activeSessions st) = Some s → isActive s = true →
  ∃ s', jsmap_get k (activeSessions (app_run events st)) = Some s'
        ∧ isActive s' = true.
Proof.
  induction events as [|ev events IH]; intros st k s Hevents Hget Ha; [by exists s|].
  apply Forall_cons in Hevents as [Hev Hevents]. rewrite app_run_cons, app_step_run.
  destruct (run_stays_active (app_ops ev st) st k s (app_ops_ends_nothing ev st Hev)
              Hget Ha) as (s1 & Hget1 & Ha1).
  rewrite <- app_step_run in Hget1. rewrite <- app_step_run.
  by apply (IH _ k s1).
Qed.

Lemma app_run_keeps_key events st k :
  is_Some (jsmap_get k (activeSessions st)) →
  is_Some (jsmap_get k (activeSessions (app_run events st))).
Proof.
  intros Hk. destruct (app_run_ops events st) as (ops & -> & _).
  apply not_eq_None_Some. rewrite jsmap_get_None. intros Hnot. apply Hnot.
  pose proof (run_keys_prefix ops st) as [l ->].
  apply elem_of_app. left.
  apply not_eq_None_Some in Hk. rewrite jsmap_get_None in Hk.
  by apply dec_stable.
Qed.

(** Whatever the application has gone through, the first part of the
    webhook handler ends with an active session for the sender (the bare
    phone number of [From]) whose history is the history that session had
    before (empty for a session created now) followed by the user message.
    After any later messages, replies, sweeps and timer callbacks that
    session is still stored under its id, for the same phone number, and it
    is still active when only messages and replies came in between. As long
    as it is active, the next message of the sender finds it again:
    [getSession] for the number returns the same [sessionId], and the handler
    continues that session. Once it has been ended (by its timer or by a
    sweep), [getSession] for the number no longer returns it. *)
Theorem webhook_receive_session events payload clock :
  let st := app_run events empty_store in
  let phone := extractPhoneNumber (From payload) in
  let session := (webhook_receive payload clock st).1 in
  let st1 := (webhook_receive payload clock st).2 in
  phoneNumber session = phone
  ∧ isActive session = true
  ∧ (∃ h,
       stored_history (sessionId session) st1 = Some (h ++ [userMessage payload clock])
       ∧ match (getSession phone (at_lookup clock) st).1 with
         | Some _ => stored_history (sessionId session) st = Some h
         | None => h = []
         end)
  ∧ ∀ later,
      ∃ stored,
        jsmap_get (sessionId session) (activeSessions (app_run later st1)) = Some stored
        ∧ sessionId stored = sessionId session
        ∧ phoneNumber stored = phone
        ∧ (Forall handler_event later → isActive stored = true)
        ∧ (isActive stored = true →
           (∀ now, sessionId <$> (getSession phone now (app_run later st1)).1
                   = Some (sessionId session))
           ∧ ∀ payload' clock',
               extractPhoneNumber (From payload') = phone →
               sessionId (webhook_receive payload' clock' (app_run later st1)).1
               = sessionId session)
        ∧ (isActive stored = false →
           ∀ now, sessionId <$> (getSession phone now (app_run later st1)).1
                  ≠ Some (sessionId session)).
Proof.
  intros st phone session st1.
  destruct (app_run_invariants events) as (Hreach & Hagree & Halloc).
  apply reachable_keys_unique in Hreach.
  destruct (webhook_receive_recorded payload clock st Hreach Hagree Halloc)
    as (Hp & Ha & Hstored & Hhist).
  fold phone session st1 in Hp, Ha, Hstored, Hhist.
  split; [done|]. split; [done|]. split; [done|].
  intros later.
  assert (st1 = app_run (events ++ [EvReceive payload clock]) empty_store) as Hst1
    by by rewrite app_run_snoc.
  assert (app_run later st1
          = app_run ((events ++ [EvReceive payload clock]) ++ later) empty_store) as Hst2
    by by rewrite app_run_app, <- Hst1.
  destruct (app_run_invariants ((events ++ [EvReceive payload clock]) ++ later))
    as (Hreach2 & Hagree2 & _).
  apply reachable_keys_unique in Hreach2.
  pose proof (app_run_ids_generated ((events ++ [EvReceive payload clock]) ++ later))
    as Hgen2.
  pose proof (app_run_ids_generated (events ++ [EvReceive payload clock])) as Hgen1.
  assert (∀ p, (active_for p (activeSessions (app_run later st1)) ≤ 1)%nat) as Hone.
  { rewrite Hst2. apply app_run_one_active. intros p. cbn. lia. }
  rewrite <- Hst2 in Hreach2, Hagree2, Hgen2. rewrite <- Hst1 in Hgen1.
  destruct (app_run_keeps_key later st1 (sessionId session)) as [stored Hget2];
    [by eexists|].
  exists stored. split; [done|].
  assert (phoneNumber stored = phone) as Hp2.
  { destruct (Hgen2 _ _ Hget2) as [t2 Ht2]. destruct (Hgen1 _ _ Hstored) as [t1 Ht1].
    cbn [phoneNumber set_lastActivity] in Ht1. rewrite Hp in Ht1.
    rewrite Ht1 in Ht2. by apply makeSessionId_inj in Ht2 as [-> _]. }
  split; [by apply Hagree2|]. split; [done|]. split; [|split].
  - intros Hlater.
    destruct (app_run_stays_active later st1 (sessionId session) _ Hlater Hstored)
      as (s' & Hget' & Ha'); [done|]. congruence.
  - intros Ha2.
    assert (∀ now, (getSession phone now (app_run later st1)).1
                   = Some (set_lastActivity now stored)) as Hfind.
    { intros now. by apply (getSession_the_active phone now _ (sessionId session)). }
    split.
    + intros now. rewrite Hfind. cbn. f_equal. by apply Hagree2.
    + intros payload' clock' Hphone'. unfold webhook_receive. rewrite Hphone'.
      specialize (Hfind (at_lookup clock')).
      destruct (getSession phone (at_lookup clock') (app_run later st1))
        as [found st3]. cbn [fst] in Hfind. subst found.
      destruct (addMessageToSession _ (userMessage payload' clock') (at_append clock') st3)
        as [ok st4]. cbn [fst sessionId set_lastActivity]. by apply Hagree2.
  - intros Hended now Hsome.
    destruct (getSession phone now (app_run later st1)) as [[found|] st3] eqn:Hfound;
      [|discriminate Hsome].
    cbn [fst fmap option_fmap option_map] in Hsome. injection Hsome as Hid.
    destruct (getSession_found phone now _ found st3 Hreach2 Hagree2 Hfound)
      as (old & Hold & _ & _ & Hactive & _).
    rewrite Hid in Hold. congruence.
Qed.

(** The property on the demo sender: a first message, the reply of the
    agent, and a second message, which lands in the same session. *)
Lemma webhook_receive_session_witness :
  Forall handler_event [EvReply demo_id "Hi! What business are you in?" 2000 2000]
  ∧ sessionId
      (webhook_receive demo_payload demo_clock
         (app_run [EvReply demo_id "Hi! What business are you in?" 2000 2000]
            (webhook_receive demo_payload demo_clock empty_store).2)).1
    = demo_id.
Proof.
  assert (Forall handler_event
            [EvReply demo_id "Hi! What business are you in?" 2000 2000]) as Hlater.
  { by repeat constructor. }
  split; [exact Hlater|].
  destruct (proj2 (proj2 (proj2 (webhook_receive_session [] demo_payload demo_clock)))
              [EvReply demo_id "Hi! What business are you in?" 2000 2000])
    as (stored & _ & _ & _ & Hactive & Hfind & _).
  destruct (Hfind (Hactive Hlater)) as [_ Hnext].
  exact (Hnext demo_payload demo_clock eq_refl).
Defined.

(** The reply of the agent is recorded whatever happened to the store
    while the agent was running, including the end of the session by its
    timer or by a sweep: after other messages, replies, sweeps and timer
    callbacks (none of them a message whose session id would be the same, that
    is the same phone number in the same millisecond), [webhook_reply] leaves
    the history of the session with the user message still in it and the
    reply as its last element. *)
Theorem webhook_reply_recorded events payload clock later aiResponse t_message t_append :
  let st := app_run events empty_store in
  let session := (webhook_receive payload clock st).1 in
  let st1 := (webhook_receive payload clock st).2 in
  Forall (λ ev, may_create (sessionId session) ev = false) later →
  ∃ h l,
    stored_history (sessionId session) st1 = Some (h ++ [userMessage payload clock])
    ∧ stored_history (sessionId session)
        (webhook_reply (sessionId session) aiResponse t_message t_append
           (app_run later st1))
      = Some (h ++ [userMessage payload clock] ++ l
                ++ [assistantMessage aiResponse t_message]).
Proof.
  intros st session st1 Hlater.
  destruct (app_run_invariants events) as (Hreach & Hagree & Halloc).
  apply reachable_keys_unique in Hreach.
  destruct (webhook_receive_recorded payload clock st Hreach Hagree Halloc)
    as (_ & _ & _ & h & Hhist & _).
  fold session st1 in Hhist.
  exists h. apply stored_history_Some in Hhist as (s1 & Hget1 & Hheap1).
  destruct (app_run_ops later st1) as (ops & Hrun & Hplain & Hcreates).
  specialize (Hcreates (sessionId session) Hlater).
  assert (Forall (λ op, carries_conversationHistory op = false
                        ∧ creates (sessionId session) op = false) ops) as Hops.
  { apply Forall_forall. intros op Hin. split.
    - rewrite Forall_forall in Hplain. by apply plain_op_carries, Hplain.
    - rewrite Forall_forall in Hcreates. by apply Hcreates. }
  destruct (run_history_array ops st1 (sessionId session) s1 Hops Hget1)
    as (s2 & Hget2 & Href2).
  destruct (run_heap ops st1 _ _ Hheap1) as [l Hheap2].
  exists l. split; [apply stored_history_Some; eauto|].
  rewrite Hrun. unfold webhook_reply.
  destruct (addMessage_stored_history (sessionId session) s2
              ((h ++ [userMessage payload clock]) ++ l)
              (assistantMessage aiResponse t_message) t_append (run ops st1) Hget2)
    as [_ Hhist3].
  { by rewrite Href2. }
  rewrite Hhist3. by rewrite <- !app_assoc.
Qed.

(** The property on a first message whose session is swept away as stale
    before the agent answers: the reply still lands in its history. *)
Lemma webhook_reply_recorded_witness :
  Forall (λ ev, may_create demo_id ev = false) [EvSweep 5000000]
  ∧ (isActive <$> jsmap_get demo_id
                    (activeSessions
                       (app_run [EvSweep 5000000]
                          (webhook_receive demo_payload demo_clock empty_store).2))
     = Some false)
  ∧ ∃ h l,
      stored_history demo_id (webhook_receive demo_payload demo_clock empty_store).2
      = Some (h ++ [userMessage demo_payload demo_clock])
      ∧ stored_history demo_id
          (webhook_reply demo_id "Hi! What business are you in?" 5000100 5000100
             (app_run [EvSweep 5000000]
                (webhook_receive demo_payload demo_clock empty_store).2))
        = Some (h ++ [userMessage demo_payload demo_clock] ++ l
                  ++ [assistantMessage "Hi! What business are you in?" 5000100]).
Proof.
  assert (Forall (λ ev, may_create demo_id ev = false) [EvSweep 5000000]) as Hlater.
  { repeat constructor. }
  split; [exact Hlater|]. split; [reflexivity|].
  apply (webhook_reply_recorded [] demo_payload demo_clock [EvSweep 5000000]
           "Hi! What business are you in?" 5000100 5000100 Hlater).
Defined.

(** * The agent and the flow manager *)

(** ** The clamp of the reply *)

(** The reply [processWithLexi] builds from a completion never exceeds
    [maxResponseLength], 160 UTF-16 code units: a completion within the limit
    is returned as it is, a longer one gives exactly 160 code units, its first
    157 followed by three dots; clamping twice changes nothing more. *)
Theorem finalResponse_within_limit (aiResponse : list N) :
  (length (finalResponse aiResponse) ≤ 160)%nat
  ∧ ((length aiResponse ≤ 160)%nat → finalResponse aiResponse = aiResponse)
  ∧ ((160 < length aiResponse)%nat →
     length (finalResponse aiResponse) = 160%nat
     ∧ take 157 (finalResponse aiResponse) = take 157 aiResponse
     ∧ drop 157 (finalResponse aiResponse) = [46; 46; 46]%N)
  ∧ finalResponse (finalResponse aiResponse) = finalResponse aiResponse.
Proof.
  assert ((160 < length aiResponse)%nat →
          finalResponse aiResponse = take 157 aiResponse ++ [46; 46; 46]%N
          ∧ length (take 157 aiResponse) = 157%nat) as Hlong.
  { intros Hlen. unfold finalResponse, maxResponseLength.
    rewrite decide_True by done. split; [done|]. rewrite length_take. lia. }
  assert ((length aiResponse ≤ 160)%nat → finalResponse aiResponse = aiResponse)
    as Hshort.
  { intros Hlen. unfold finalResponse, maxResponseLength.
    rewrite decide_False; [done|lia]. }
  assert ((length (finalResponse aiResponse) ≤ 160)%nat) as Hbound.
  { destruct (decide (160 < length aiResponse)%nat) as [Hlen|Hlen].
    - destruct (Hlong Hlen) as [-> H157]. rewrite length_app, H157. simpl. lia.
    - rewrite Hshort; lia. }
  split_and!; try done.
  - intros Hlen. destruct (Hlong Hlen) as [-> H157]. split_and!.
    + rewrite length_app, H157. simpl. lia.
    + rewrite take_app_length'; done.
    + rewrite drop_app_length'; done.
  - unfold finalResponse at 1. unfold maxResponseLength.
    rewrite decide_False; [done|lia].
Qed.

(** The property on a completion of 200 code units and on one of 5. *)
Lemma finalResponse_within_limit_witness :
  (length (finalResponse (replicate 200 97%N)) = 160%nat
   ∧ take 157 (finalResponse (replicate 200 97%N)) = take 157 (replicate 200 97%N)
   ∧ drop 157 (finalResponse (replicate 200 97%N)) = [46; 46; 46]%N)
  ∧ finalResponse [72; 101; 108; 108; 111]%N = [72; 101; 108; 108; 111]%N.
Proof.
  split.
  - apply (proj1 (proj2 (proj2 (finalResponse_within_limit (replicate 200 97%N))))).
    rewrite length_replicate. lia.
  - apply (proj1 (proj2 (finalResponse_within_limit [72; 101; 108; 108; 111]%N))).
    simpl. lia.
Defined.

(** ** The fallback reply and the detected intent *)

(** The reply [processWithLexi] falls back to when the completion fails
    is the one that belongs to the intent [detectIntent] finds in the message:
    the two functions test the same keywords in the same order, and the
    session plays no part. So two messages with the same intent get the same
    fallback reply. *)
Theorem fallback_follows_intent (toLowerCase : string → string)
    (userMessage : string) (session : ConversationSession) :
  getFallbackResponse toLowerCase userMessage session
  = fallback_for (detectIntent toLowerCase userMessage)
  ∧ detectIntent toLowerCase userMessage
    ∈ ["business_inquiry"; "automation_interest"; "pricing_inquiry"; "trial_request";
       "greeting"; "general_inquiry"]
  ∧ ∀ userMessage' session',
      detectIntent toLowerCase userMessage' = detectIntent toLowerCase userMessage →
      getFallbackResponse toLowerCase userMessage' session'
      = getFallbackResponse toLowerCase userMessage session.
Proof.
  assert (∀ m s, getFallbackResponse toLowerCase m s
                 = fallback_for (detectIntent toLowerCase m)) as Hfollow.
  { intros m s. unfold getFallbackResponse, detectIntent.
    destruct (some_includes (toLowerCase m) keywordTriggers_business); [done|].
    destruct (some_includes (toLowerCase m) keywordTriggers_automation); [done|].
    destruct (some_includes (toLowerCase m) keywordTriggers_pricing); [done|].
    destruct (some_includes (toLowerCase m) keywordTriggers_trial); [done|].
    by destruct (includes (toLowerCase m) "hi" || includes (toLowerCase m) "hello"
                 || includes (toLowerCase m) "hey"). }
  split; [apply Hfollow|]. split.
  - unfold detectIntent.
    destruct (some_includes _ keywordTriggers_business);
      [repeat (apply elem_of_cons; (by left) || right)|].
    destruct (some_includes _ keywordTriggers_automation);
      [repeat (apply elem_of_cons; (by left) || right)|].
    destruct (some_includes _ keywordTriggers_pricing);
      [repeat (apply elem_of_cons; (by left) || right)|].
    destruct (some_includes _ keywordTriggers_trial);
      [repeat (apply elem_of_cons; (by left) || right)|].
    destruct (_ || _); repeat (apply elem_of_cons; (by left) || right).
  - intros m' s' Hsame. by rewrite !Hfollow, Hsame.
Qed.

(** The property on two greetings. *)
Lemma fallback_follows_intent_witness :
  detectIntent lower_ascii "Hey there" = detectIntent lower_ascii "HELLO"
  ∧ getFallbackResponse lower_ascii "Hey there"
      (createSession "+2348022222222" 7 7 7 empty_store).1
    = getFallbackResponse lower_ascii "HELLO" (createSession demo_phone 1 1 1 empty_store).1.
Proof.
  split; [reflexivity|].
  apply (proj2 (proj2 (fallback_follows_intent lower_ascii "HELLO"
                         (createSession demo_phone 1 1 1 empty_store).1))).
  reflexivity.
Defined.

(** ** The dispatch of processMessage *)

(** Which handler [processMessage] runs. *)
Lemma processMessage_cases toLowerCase st session userMessage :
  processMessage toLowerCase st session userMessage
  = match trialStatus (businessContext session) with
    | paid =>
        reply_only "Let me help you with WhatsApp automation. What's your business type?"
    | trial =>
        if decide (length (history st session) < 4)%nat
        then handleOnboarding toLowerCase session userMessage
        else handleTrialSupport toLowerCase session userMessage
    | _ =>
        if decide (length (history st session) = 0%nat)
        then handleGreeting toLowerCase session userMessage
        else if decide (length (history st session) = 2%nat)
        then handleQualification toLowerCase session userMessage
        else if decide (length (history st session) = 4%nat)
        then handleSolutionPresentation toLowerCase session userMessage
        else handleTrialOffer toLowerCase session userMessage
    end.
Proof.
  unfold processMessage, determineFlowType, determineCurrentStep.
  destruct (trialStatus (businessContext session)); simpl;
    repeat case_decide; try done; lia.
Qed.

(** For a session whose trial status is [paid], [processMessage] runs no
    handler: it selects the payment flow and looks in it for the step
    [support], which that flow does not have, so every message of a paying
    customer gets the same generic reply, with no next step and no update.
    For every other session a handler of the selected flow runs: for a trial
    user the onboarding step while the history has fewer than four messages
    and the support step after; for a prospect (or an expired trial) the
    greeting, qualification and solution steps at history lengths 0, 2 and 4
    and the trial offer at every other length. The reply for a missing flow is
    never given. *)
Theorem processMessage_dispatch toLowerCase st session userMessage :
  let result := processMessage toLowerCase st session userMessage in
  let n := length (history st session) in
  match trialStatus (businessContext session) with
  | paid =>
      result
      = reply_only "Let me help you with WhatsApp automation. What's your business type?"
  | trial =>
      result = (if decide (n < 4)%nat
                then handleOnboarding toLowerCase session userMessage
                else handleTrialSupport toLowerCase session userMessage)
  | _ =>
      result = (if decide (n = 0%nat)
                then handleGreeting toLowerCase session userMessage
                else if decide (n = 2%nat)
                then handleQualification toLowerCase session userMessage
                else if decide (n = 4%nat)
                then handleSolutionPresentation toLowerCase session userMessage
                else handleTrialOffer toLowerCase session userMessage)
  end
  ∧ response result
    ≠ "I'm here to help with WhatsApp automation. What type of business do you run?".
Proof.
  intros result n. unfold result, n. rewrite processMessage_cases.
  destruct (trialStatus (businessContext session)); (split; [done|]);
    repeat case_decide;
    unfold handleTrialOffer;
    repeat match goal with |- context [if ?b then _ else _] => destruct b end;
    intros Heq; discriminate Heq.
Qed.

(** [processMessage] never asks for a payment to be processed and never
    sends a customer to the payment link: the handlers of the payment flow and
    the value demonstration are reached by no session and no message. A trial
    is asked for only by the trial offer, that is for a prospect or an expired
    trial at a history length other than 0, 2 and 4. *)
Theorem processMessage_never_payment toLowerCase st session userMessage :
  let result := processMessage toLowerCase st session userMessage in
  shouldProcessPayment result = None
  ∧ nextStep result ≠ Some "process_payment"
  ∧ nextStep result ≠ Some "payment_link"
  ∧ (shouldCreateTrial result = Some true →
     (trialStatus (businessContext session) = prospect
      ∨ trialStatus (businessContext session) = expired)
     ∧ length (history st session) ∉ [0; 2; 4]%nat).
Proof.
  intros result. unfold result. rewrite processMessage_cases.
  destruct (trialStatus (businessContext session)) eqn:Hstatus;
    repeat case_decide;
    unfold handleTrialOffer;
    repeat match goal with |- context [if ?b then _ else _] => destruct b end;
    cbn; (split_and!; try done);
    intros _; (split; [auto|]);
    intros Hin; repeat (apply elem_of_cons in Hin as [Hin|Hin]; [lia|]);
    by apply elem_of_nil in Hin.
Qed.

(** The property on a prospect who answers yes after one message. *)
Lemma processMessage_never_payment_witness :
  shouldCreateTrial
    (processMessage lower_ascii demo_one_message
       (createSession demo_phone 1000 1000 1000 empty_store).1 "Yes please")
  = Some true
  ∧ (trialStatus (businessContext (createSession demo_phone 1000 1000 1000 empty_store).1)
     = prospect
     ∨ trialStatus (businessContext (createSession demo_phone 1000 1000 1000 empty_store).1)
       = expired)
  ∧ length (history demo_one_message
              (createSession demo_phone 1000 1000 1000 empty_store).1)
    ∉ [0; 2; 4]%nat.
Proof.
  split; [reflexivity|].
  apply (proj2 (proj2 (proj2 (processMessage_never_payment lower_ascii demo_one_message
                                (createSession demo_phone 1000 1000 1000 empty_store).1
                                "Yes please")))).
  reflexivity.
Defined.

(** ** The updates the flow manager asks for *)

Lemma handleQualification_updates toLowerCase session userMessage :
  ∃ industry,
    industry ∈ industries
    ∧ sessionUpdates (handleQualification toLowerCase session userMessage)
      = Some {| p_sessionId := None; p_phoneNumber := None; p_agent := None;
                p_conversationHistory := None;
                p_businessContext := Some (businessContext (set_industry industry session));
                p_lastActivity := None; p_startTime := None; p_isActive := None |}.
Proof.
  unfold handleQualification, industries. cbn [sessionUpdates].
  repeat match goal with |- context [if ?b then _ else _] => destruct b end;
    eexists; (split; [|reflexivity]);
    repeat (apply elem_of_cons; (by left) || right).
Qed.

(** The only update [processMessage] ever asks for is the one of the
    qualification step (a prospect or an expired trial with two messages in
    the history): a new business context that is the one of the session with
    [industry] set to one of general, restaurant, retail, service and
    technology. Applied with [updateSession] to the session it was computed
    from, it leaves the session as it was but for that industry and
    [lastActivity]: same [sessionId], phone number, history, start time and
    [isActive], same name, trial status and dates. *)
Theorem processMessage_updates toLowerCase st session userMessage updates :
  sessionUpdates (processMessage toLowerCase st session userMessage) = Some updates →
  (trialStatus (businessContext session) = prospect
   ∨ trialStatus (businessContext session) = expired)
  ∧ length (history st session) = 2%nat
  ∧ ∃ industry,
      industry ∈ industries
      ∧ object_assign session updates = set_industry industry session
      ∧ ∀ k now,
          jsmap_get k (activeSessions st) = Some session →
          (updateSession k updates now st).1 = true
          ∧ jsmap_get k (activeSessions (updateSession k updates now st).2)
            = Some (set_lastActivity now (set_industry industry session))
          ∧ heap (updateSession k updates now st).2 = heap st.
Proof.
  rewrite processMessage_cases. intros Hupdates.
  assert ((trialStatus (businessContext session) = prospect
           ∨ trialStatus (businessContext session) = expired)
          ∧ length (history st session) = 2%nat
          ∧ sessionUpdates (handleQualification toLowerCase session userMessage)
            = Some updates) as (Hstatus & Hlen & Hqual).
  { destruct (trialStatus (businessContext session)); repeat case_decide;
      try (unfold handleTrialOffer in Hupdates;
           repeat match type of Hupdates with
                  | context [if ?b then _ else _] => destruct b
                  end);
      try discriminate Hupdates; auto. }
  split; [done|]. split; [done|].
  destruct (handleQualification_updates toLowerCase session userMessage)
    as (industry & Hin & Hsome).
  rewrite Hsome in Hqual.
  assert (object_assign session updates = set_industry industry session) as Hassign.
  { injection Hqual as <-. done. }
  exists industry. split; [done|].
  split; [done|]. intros k now Hget.
  destruct (updateSession_stored k session updates now st Hget)
    as (Hok & Hstored & Hheap).
  rewrite Hassign in Hstored. done.
Qed.

(** The property on a prospect who says what the business is, with two
    messages in the history. *)
Lemma processMessage_updates_witness :
  ∃ updates,
    sessionUpdates
      (processMessage lower_ascii demo_talked
         (set_lastActivity 1600 (createSession demo_phone 1000 1000 1000 empty_store).1)
         "I run a Food Store")
    = Some updates
    ∧ length (history demo_talked
                (set_lastActivity 1600
                   (createSession demo_phone 1000 1000 1000 empty_store).1)) = 2%nat
    ∧ businessContext
        (object_assign
           (set_lastActivity 1600 (createSession demo_phone 1000 1000 1000 empty_store).1)
           updates)
      = {| name := None; industry := Some "restaurant"; trialStatus := prospect;
           signupDate := None; lastPayment := None |}.
Proof.
  eexists. split; [reflexivity|].
  destruct (processMessage_updates lower_ascii demo_talked
              (set_lastActivity 1600 (createSession demo_phone 1000 1000 1000 empty_store).1)
              "I run a Food Store" _ eq_refl) as (_ & Hlen & _).
  split; [exact Hlen|reflexivity].
Defined.

(** ** The two computations of the conversation step *)

Lemma elem_of_135 (n : nat) : n ∈ [1; 3; 5]%nat ↔ (n = 1 ∨ n = 3 ∨ n = 5)%nat.
Proof. rewrite !elem_of_cons, elem_of_nil. tauto. Qed.

Lemma getNextConversationStep_cases st session :
  getNextConversationStep st session
  = match trialStatus (businessContext session) with
    | paid => "support"
    | trial => "trial_support"
    | _ =>
        if decide (length (history st session) = 0%nat) then "greeting"
        else if decide (length (history st session) = 2%nat) then "qualification"
        else if decide (length (history st session) = 4%nat) then "solution_presentation"
        else if decide (6 ≤ length (history st session))%nat then "trial_offer"
        else "general"
    end.
Proof.
  unfold getNextConversationStep.
  by destruct (trialStatus (businessContext session)).
Qed.

Lemma determineCurrentStep_cases st session :
  determineCurrentStep st session
  = match trialStatus (businessContext session) with
    | paid => "support"
    | trial => if decide (length (history st session) < 4)%nat then "onboarding" else "support"
    | _ =>
        if decide (length (history st session) = 0%nat) then "greeting"
        else if decide (length (history st session) = 2%nat) then "qualification"
        else if decide (length (history st session) = 4%nat) then "solution_presentation"
        else "trial_offer"
    end.
Proof.
  unfold determineCurrentStep.
  by destruct (trialStatus (businessContext session)).
Qed.

Lemma has_step_in_flow (flowType : string) (flow : list FlowStep.t) (stepName : string) :
  jsmap_get flowType flows = Some flow →
  (∃ flow', jsmap_get flowType flows = Some flow' ∧ has_step stepName flow' = true)
  ↔ has_step stepName flow = true.
Proof.
  intros Hflow. split.
  - intros (flow' & Hflow' & Hstep). congruence.
  - intros Hstep. by exists flow.
Qed.

(** The agent ([getNextConversationStep]) and the flow manager
    ([determineCurrentStep]) compute the step of a conversation from the same
    two inputs, and agree only for a paying customer and for a prospect (or an
    expired trial) whose history has a length other than 1, 3 and 5: for a
    trial user the agent says [trial_support], which the manager never says,
    and at the lengths 1, 3 and 5 the agent says [general] where the manager
    says [trial_offer]. The step the agent names is a step of the flow the
    manager selects for the session exactly for a prospect (or an expired
    trial) at those other lengths. *)
Theorem conversation_steps_agree st session :
  let n := length (history st session) in
  let status := trialStatus (businessContext session) in
  (getNextConversationStep st session = determineCurrentStep st session
   ↔ status = paid ∨ (status ≠ trial ∧ n ∉ [1; 3; 5]%nat))
  ∧ (status = trial → getNextConversationStep st session = "trial_support")
  ∧ (status ≠ paid → status ≠ trial → n ∈ [1; 3; 5]%nat →
     getNextConversationStep st session = "general"
     ∧ determineCurrentStep st session = "trial_offer")
  ∧ ((∃ flow, jsmap_get (determineFlowType session) flows = Some flow
              ∧ has_step (getNextConversationStep st session) flow = true)
     ↔ status ≠ paid ∧ status ≠ trial ∧ n ∉ [1; 3; 5]%nat).
Proof.
  cbn zeta.
  rewrite getNextConversationStep_cases, determineCurrentStep_cases, elem_of_135.
  unfold determineFlowType.
  destruct (trialStatus (businessContext session));
    [ rewrite (has_step_in_flow "newProspect" _ _ eq_refl)
    | rewrite (has_step_in_flow "trialUser" _ _ eq_refl)
    | rewrite (has_step_in_flow "paymentFlow" _ _ eq_refl)
    | rewrite (has_step_in_flow "newProspect" _ _ eq_refl) ];
    repeat case_decide; (split_and!; [split|..|split]); intros;
      repeat match goal with
             | H : _ ∨ _ |- _ => destruct H
             | H : _ ∧ _ |- _ => destruct H
             end;
      try done; try lia; try (by vm_compute); try (by left);
      try (right; split; [done|lia]); try (split_and!; [done|done|lia]);
      try (exfalso; lia).
Qed.

(** The two steps on the demo session, with two messages and with one. *)
Lemma conversation_steps_agree_witness :
  getNextConversationStep demo_talked
    (createSession demo_phone 1000 1000 1000 empty_store).1
  = determineCurrentStep demo_talked
      (createSession demo_phone 1000 1000 1000 empty_store).1
  ∧ getNextConversationStep demo_one_message
      (createSession demo_phone 1000 1000 1000 empty_store).1 = "general"
  ∧ determineCurrentStep demo_one_message
      (createSession demo_phone 1000 1000 1000 empty_store).1 = "trial_offer".
Proof.
  split.
  - apply (proj1 (conversation_steps_agree demo_talked
                    (createSession demo_phone 1000 1000 1000 empty_store).1)).
    right. split; [discriminate|]. vm_compute. intros Hin.
    repeat (apply elem_of_cons in Hin as [Hin|Hin]; [discriminate Hin|]).
    by apply elem_of_nil in Hin.
  - apply (proj1 (proj2 (proj2 (conversation_steps_agree demo_one_message
                    (createSession demo_phone 1000 1000 1000 empty_store).1))));
      [discriminate|discriminate|].
    apply elem_of_cons. left. reflexivity.
Defined.
